(** * The demand-forecasting notebook (05_demand_forecasting.ipynb)

    A shallow embedding of the notebook's cells: the offset-log transform and
    its inverse, the train/test split, the joins of the forecasts into the
    holdout table, the evaluation and the summary, run over a store of
    data frames bound to the notebook's global names.

    Numbers.  A float column is modelled over the real numbers: [np.log] is
    [ln], [np.exp] is [exp], and a missing value is the cell [NaN].  The
    cells do not round.  What rounding changes is stated apart: the section
    on rounded arithmetic bounds the round trip of the transform when every
    operation rounds its result, and [binary64] is the rounding of numpy's
    floats, with [np.exp] taken as correctly rounded.  The infinities of
    binary64 are not modelled.

    Libraries.  pandas, numpy and utilsforecast are not part of the
    repository; the operations the notebook calls are modelled by their
    documented behaviour (each definition says which call it stands for).
    The forecast providers (the remote model and the statistical baselines)
    are parameters. *)

From Stdlib Require Import List String ZArith Reals Lra Lia Bool Arith Sorted
  Permutation.
Import ListNotations.

Local Open Scope string_scope.
Local Open Scope list_scope.
Local Open Scope nat_scope.

Local Abbreviation length := List.length (only parsing).

(** ** Exceptions and fallible computations *)

Inductive exn : Type :=
| KeyError (k : string)
| ValueError
| TypeError
| NameError (x : string).

Inductive result (A : Type) : Type :=
| Ok (a : A)
| Raise (e : exn).

Arguments Ok {A} a.
Arguments Raise {A} e.

Definition rbind {A B : Type} (m : result A) (k : A -> result B) : result B :=
  match m with
  | Ok a => k a
  | Raise e => Raise e
  end.

Definition rmap {A B : Type} (f : A -> B) (m : result A) : result B :=
  rbind m (fun a => Ok (f a)).

Fixpoint mapM {A B : Type} (f : A -> result B) (l : list A) : result (list B) :=
  match l with
  | [] => Ok []
  | a :: l' => rbind (f a) (fun b => rbind (mapM f l') (fun bs => Ok (b :: bs)))
  end.

(** ** Cells, rows and data frames *)

(** A cell of a data frame: a string (the series identifier and the
    categorical features), a timestamp, a float, or a missing value. *)
Inductive cell : Type :=
| Str (s : string)
| Date (t : Z)
| Num (x : R)
| NaN.

(** Equality of key cells.  [pd.merge] matches missing keys with each other. *)
Definition cell_eqb (a b : cell) : bool :=
  match a, b with
  | Str s, Str s' => String.eqb s s'
  | Date t, Date t' => Z.eqb t t'
  | Num x, Num y => if Req_dec_T x y then true else false
  | NaN, NaN => true
  | _, _ => false
  end.

Definition isnan (c : cell) : bool :=
  match c with NaN => true | _ => false end.

(** A row maps column names to cells, in column order. *)
Definition row : Type := list (string * cell).

Fixpoint get (c : string) (r : row) : cell :=
  match r with
  | [] => NaN
  | (k, v) :: r' => if String.eqb k c then v else get c r'
  end.

Fixpoint set (c : string) (v : cell) (r : row) : row :=
  match r with
  | [] => [(c, v)]
  | (k, w) :: r' => if String.eqb k c then (k, v) :: r' else (k, w) :: set c v r'
  end.

Definition mem (c : string) (l : list string) : bool :=
  existsb (String.eqb c) l.

Definition memn (i : nat) (l : list nat) : bool :=
  existsb (Nat.eqb i) l.

(** A data frame: its columns and its records, each with its index label. *)
Record DataFrame : Type := mkDF {
  columns : list string;
  records : list (nat * row)
}.

Definition index (df : DataFrame) : list nat := map fst (records df).

Definition values (df : DataFrame) : list row := map snd (records df).

(** [pd.read_csv] and [reset_index(drop=True)] label the rows 0, 1, 2, ... *)
Definition range_index (rs : list row) : list (nat * row) :=
  combine (seq 0 (length rs)) rs.

Definition reset_index (df : DataFrame) : DataFrame :=
  mkDF (columns df) (range_index (values df)).

Definition require_columns (cs : list string) (df : DataFrame) : result unit :=
  match filter (fun c => negb (mem c (columns df))) cs with
  | [] => Ok tt
  | c :: _ => Raise (KeyError c)
  end.

(** [df[c] = f(df[c])] for an elementwise [f]. *)
Definition map_column (c : string) (f : cell -> result cell) (df : DataFrame)
  : result DataFrame :=
  rbind (require_columns [c] df) (fun _ =>
  rbind (mapM (fun lr => rmap (fun v => (fst lr, set c v (snd lr)))
                              (f (get c (snd lr))))
              (records df)) (fun rs =>
  Ok (mkDF (columns df) rs))).

(** ** numpy: the offset-log transform and its inverse *)

(** [np.log(v + 1)] and [np.exp(t) - 1] on one float. *)
Definition forward (v : R) : R := ln (v + 1).

Definition inverse (t : R) : R := (exp t - 1)%R.

(** The transform in rounded arithmetic: [rnd] rounds the result of every
    operation (the sum, the logarithm, the exponential, the difference). *)
Definition fl_forward (rnd : R -> R) (v : R) : R := rnd (ln (rnd (v + 1)%R)).

Definition fl_inverse (rnd : R -> R) (t : R) : R := rnd (rnd (exp t) - 1)%R.

(** The distance from [v] the rounded round trip stays within, when every
    rounding has a relative error of at most [u]. *)
Definition tolerance (u v : R) : R :=
  let B := exp (u * (ln (v + 1) + 2 * u)) in
  ((1 + u) * ((v + 1) * ((1 + u) * (u * B + (B - 1)) + u)) + u * v)%R.

(** The floats numpy computes with: binary64, rounded to nearest, ties to
    even.  Overflow is not modelled: the exponent has no upper bound, where
    numpy returns an infinity. *)

(** The integer nearest to [r], ties to even. *)
Definition nearest_even (r : R) : Z :=
  let f := Int_part r in
  if Rlt_dec (r - IZR f) (/ 2) then f
  else if Rlt_dec (/ 2) (r - IZR f) then (f + 1)%Z
  else if Z.even f then f else (f + 1)%Z.

(** The exponent of the binade of [x]: the integer part of [log2 |x|]. *)
Definition floor_log2 (x : R) : Z := Int_part (ln (Rabs x) / ln 2).

(** The exponent of the last bit of a binary64 number in the binade of [x]:
    53 bits of precision, and the subnormal numbers are multiples of
    [2^-1074]. *)
Definition ulp_exponent (x : R) : Z := Z.max (floor_log2 x - 52) (-1074).

(** Rounding to the nearest binary64 number, ties to even. *)
Definition binary64 (x : R) : R :=
  (IZR (nearest_even (x * powerRZ 2 (- ulp_exponent x)))
   * powerRZ 2 (ulp_exponent x))%R.

(** [np.log(df["y"] + 1)] on one cell: outside the domain numpy warns and
    yields an invalid value (nan, or -inf at [v = -1], which the model does
    not tell apart); a string or a timestamp raises. *)
Definition forward_cell (c : cell) : result cell :=
  match c with
  | Num v => if Rlt_dec 0 (v + 1) then Ok (Num (forward v)) else Ok NaN
  | NaN => Ok NaN
  | Str _ | Date _ => Raise TypeError
  end.

(** [np.exp(df[col]) - 1] on one cell. *)
Definition inverse_cell (c : cell) : result cell :=
  match c with
  | Num t => Ok (Num (inverse t))
  | NaN => Ok NaN
  | Str _ | Date _ => Raise TypeError
  end.

(** The same cell as numpy computes it, in binary64: [np.exp] rounds the
    exponential and the subtraction rounds the difference. *)
Definition inverse_cell_binary64 (c : cell) : result cell :=
  match c with
  | Num t => Ok (Num (fl_inverse binary64 t))
  | NaN => Ok NaN
  | Str _ | Date _ => Raise TypeError
  end.

(** [cols = [col for col in df.columns if col not in ["ds", "unique_id"]]] *)
Definition value_columns (df : DataFrame) : list string :=
  filter (fun c => negb (mem c ["ds"; "unique_id"])) (columns df).

(** [for col in cols: df[col] = np.exp(df[col]) - 1] *)
Fixpoint inverse_loop (cols : list string) (df : DataFrame) : result DataFrame :=
  match cols with
  | [] => Ok df
  | c :: cols' => rbind (map_column c inverse_cell df) (inverse_loop cols')
  end.

(** The two lines together, as a function of the frame. *)
Definition inverse_transform (df : DataFrame) : result DataFrame :=
  inverse_loop (value_columns df) df.

(** ** pandas: grouping, dropping and joining *)

(** The rows of a group: those whose [by] cell equals [k]. *)
Definition in_group (by_ : string) (k : cell) (lr : nat * row) : bool :=
  cell_eqb (get by_ (snd lr)) k.

Definition group_size (by_ : string) (k : cell) (l : list (nat * row)) : nat :=
  length (filter (in_group by_ k) l).

(** [groupby(by).tail(n)] keeps a row when fewer than [n] rows of its group
    follow it (pandas selects by the mask [cumcount(ascending=False) < n]);
    rows whose group key is missing belong to no group.  The rows keep their
    order and their index labels. *)
Definition in_tail (by_ : string) (n : nat) (lr : nat * row)
  (rest : list (nat * row)) : bool :=
  negb (isnan (get by_ (snd lr)))
  && (group_size by_ (get by_ (snd lr)) rest <? n).

Fixpoint tail_rows (by_ : string) (n : nat) (l : list (nat * row))
  : list (nat * row) :=
  match l with
  | [] => []
  | lr :: rest =>
      if in_tail by_ n lr rest
      then lr :: tail_rows by_ n rest
      else tail_rows by_ n rest
  end.

Definition groupby_tail (by_ : string) (n : nat) (df : DataFrame)
  : result DataFrame :=
  rbind (require_columns [by_] df) (fun _ =>
  Ok (mkDF (columns df) (tail_rows by_ n (records df)))).

(** [df.drop(labels)] removes the rows carrying one of the labels and raises
    when a label is not in the index. *)
Definition drop (labels : list nat) (df : DataFrame) : result DataFrame :=
  match filter (fun i => negb (memn i (index df))) labels with
  | i :: _ => Raise (KeyError "index label")
  | [] =>
      Ok (mkDF (columns df)
               (filter (fun lr => negb (memn (fst lr) labels)) (records df)))
  end.

(** [df.drop(cols, axis=1)] *)
Definition drop_columns (cs : list string) (df : DataFrame) : result DataFrame :=
  rbind (require_columns cs df) (fun _ =>
  Ok (mkDF (filter (fun c => negb (mem c cs)) (columns df))
           (map (fun lr => (fst lr,
                            filter (fun kv => negb (mem (fst kv) cs)) (snd lr)))
                (records df)))).

(** [df.rename(columns={old: new}, inplace=True)]: a missing [old] is ignored. *)
Definition rename_column (old new : string) (df : DataFrame) : DataFrame :=
  let rn := fun c => if String.eqb c old then new else c in
  mkDF (map rn (columns df))
       (map (fun lr => (fst lr, map (fun kv => (rn (fst kv), snd kv)) (snd lr)))
            (records df)).

(** [df[c].values] *)
Definition column_values (c : string) (df : DataFrame) : result (list cell) :=
  rbind (require_columns [c] df) (fun _ =>
  Ok (map (get c) (values df))).

(** [df[c] = array]: the array is laid over the rows by position and must
    have as many entries as the frame has rows.  A frame that has no row
    takes its rows from the array instead (pandas gives an empty frame the
    index of the value), its other columns missing. *)
Definition assign_values (c : string) (vs : list cell) (df : DataFrame)
  : result DataFrame :=
  let cs := if mem c (columns df) then columns df else columns df ++ [c] in
  match records df with
  | [] => Ok (mkDF cs (range_index (map (fun v => [(c, v)]) vs)))
  | _ :: _ =>
      if length vs =? length (records df)
      then Ok (mkDF cs
                    (map (fun p => (fst (fst p), set c (snd p) (snd (fst p))))
                         (combine (records df) vs)))
      else Raise ValueError
  end.

(** The key of a row for a join on the columns [on]. *)
Definition key (on : list string) (r : row) : list cell :=
  map (fun c => get c r) on.

Fixpoint key_eqb (a b : list cell) : bool :=
  match a, b with
  | [], [] => true
  | x :: a', y :: b' => cell_eqb x y && key_eqb a' b'
  | _, _ => false
  end.

Definition matches (on : list string) (l r : row) : bool :=
  key_eqb (key on l) (key on r).

(** The columns both frames have beside the join keys get the suffixes
    [_x] (left) and [_y] (right). *)
Definition overlap (on : list string) (l r : DataFrame) : list string :=
  filter (fun c => negb (mem c on) && mem c (columns r)) (columns l).

Definition suffixed (ov : list string) (sfx : string) (c : string) : string :=
  if mem c ov then (c ++ sfx)%string else c.

(** The part of a right row a joined row takes: every column but the keys. *)
Definition right_part (on ov : list string) (cs : list string) (r : row) : row :=
  map (fun c => (suffixed ov "_y" c, get c r))
      (filter (fun c => negb (mem c on)) cs).

Definition left_part (ov : list string) (l : row) : row :=
  map (fun kv => (suffixed ov "_x" (fst kv), snd kv)) l.

(** What a joined row holds when no right row matches: every right column
    missing. *)
Definition null_part (on ov : list string) (cs : list string) : row :=
  map (fun c => (suffixed ov "_y" c, NaN))
      (filter (fun c => negb (mem c on)) cs).

(** The right rows a left row is joined with; none leaves the right columns
    missing. *)
Definition joined (on ov : list string) (rcs : list string)
  (rrows : list row) (l : row) : list row :=
  match filter (matches on l) rrows with
  | [] => [left_part ov l ++ null_part on ov rcs]
  | ms => map (fun r => left_part ov l ++ right_part on ov rcs r) ms
  end.

(** The dtype of a column, as pandas infers it from the cells: strings make
    the column [object], timestamps (with missing values) [datetime64],
    floats [float64]; timestamps mixed with floats are [object].  A column
    that is empty or holds missing values only is taken as [float64]: the
    dtype such a column was declared with is not part of the model. *)
Inductive dtype : Type :=
| object_dtype
| datetime64
| float64.

Definition dtype_eqb (a b : dtype) : bool :=
  match a, b with
  | object_dtype, object_dtype => true
  | datetime64, datetime64 => true
  | float64, float64 => true
  | _, _ => false
  end.

Definition is_str (c : cell) : bool :=
  match c with Str _ => true | _ => false end.

Definition is_date (c : cell) : bool :=
  match c with Date _ => true | _ => false end.

Definition is_num (c : cell) : bool :=
  match c with Num _ => true | _ => false end.

Definition dtype_of (cs : list cell) : dtype :=
  if existsb is_str cs then object_dtype
  else if existsb is_date cs
       then (if existsb is_num cs then object_dtype else datetime64)
       else float64.

Definition column_dtype (c : string) (df : DataFrame) : dtype :=
  dtype_of (map (get c) (values df)).

(** The first key that [pd.merge] cannot find: it looks each key up in the
    right table, then in the left one, key after key. *)
Definition missing_key (left right : DataFrame) (on : list string)
  : option string :=
  find (fun c => negb (mem c (columns right)) || negb (mem c (columns left)))
       on.

(** [pd.merge] refuses a key whose dtypes differ in the two tables ("You are
    trying to merge on datetime64[ns] and object columns"); the check is
    skipped when one of the tables has no row. *)
Definition dtype_clash (left right : DataFrame) (c : string) : bool :=
  negb (length (records left) =? 0) && negb (length (records right) =? 0)
  && negb (dtype_eqb (column_dtype c left) (column_dtype c right)).

(** For each name, whether it occurred before in the list. *)
Fixpoint duplicated (seen l : list string) : list bool :=
  match l with
  | [] => []
  | c :: l' => mem c seen :: duplicated (c :: seen) l'
  end.

(** The suffixes made a duplicate: a renamed label occurred before and the
    label it comes from did not. *)
Definition suffix_duplicates (labels renamed : list string) : bool :=
  existsb (fun p => fst p && negb (snd p))
          (combine (duplicated [] renamed) (duplicated [] labels)).

(** pandas 2 raises [MergeError], a [ValueError], when the suffixes make a
    duplicate among the left labels or among the right ones. *)
Definition suffix_clash (left right : DataFrame) (on : list string) : bool :=
  let ov := overlap on left right in
  let rcols := filter (fun c => negb (mem c on)) (columns right) in
  suffix_duplicates (columns left) (map (suffixed ov "_x") (columns left))
  || suffix_duplicates rcols (map (suffixed ov "_y") rcols).

(** [pd.merge(left, right, "left", on)]: every left row, in order, with each
    matching right row; the result is indexed 0, 1, 2, ...  A missing key
    column raises [KeyError], keys of different dtypes and duplicates made
    by the suffixes raise [ValueError]. *)
Definition merge_left (left right : DataFrame) (on : list string)
  : result DataFrame :=
  match missing_key left right on with
  | Some c => Raise (KeyError c)
  | None =>
      if existsb (dtype_clash left right) on || suffix_clash left right on
      then Raise ValueError
      else
        let ov := overlap on left right in
        Ok (mkDF (map (suffixed ov "_x") (columns left)
                  ++ map (suffixed ov "_y")
                         (filter (fun c => negb (mem c on)) (columns right)))
                 (range_index
                    (flat_map (joined on ov (columns right) (values right))
                              (values left))))
  end.

(** ** pandas: means that skip missing values *)

Definition as_float (c : cell) : result (option R) :=
  match c with
  | Num x => Ok (Some x)
  | NaN => Ok None
  | Str _ | Date _ => Raise TypeError
  end.

Fixpoint present (os : list (option R)) : list R :=
  match os with
  | [] => []
  | Some x :: os' => x :: present os'
  | None :: os' => present os'
  end.

Definition Rsum (xs : list R) : R := fold_right Rplus 0%R xs.

(** The arithmetic mean of a non-empty list. *)
Definition mean (xs : list R) : R := (Rsum xs / INR (length xs))%R.

(** [Series.mean()] (skipna): the mean of the values that are present, and a
    missing value when there is none. *)
Definition mean_skipna (cs : list cell) : result cell :=
  rbind (mapM as_float cs) (fun os =>
  match present os with
  | [] => Ok NaN
  | xs => Ok (Num (mean xs))
  end).

(** The keys of the groups of [groupby(by)], one per group; a missing key
    forms no group. *)
Fixpoint distinct (ks : list cell) : list cell :=
  match ks with
  | [] => []
  | k :: ks' =>
      if isnan k then distinct ks'
      else k :: filter (fun k' => negb (cell_eqb k' k)) (distinct ks')
  end.

(** The order of the keys: strings as Python compares them, timestamps and
    floats by value.  A grouped column holds keys of one kind; between
    kinds the order is floats, timestamps, strings. *)
Definition cell_leb (a b : cell) : bool :=
  match a, b with
  | Str s, Str t => String.leb s t
  | Date s, Date t => Z.leb s t
  | Num x, Num y => if Rle_dec x y then true else false
  | NaN, NaN => true
  | Num _, (Date _ | Str _ | NaN) => true
  | Date _, (Str _ | NaN) => true
  | Str _, NaN => true
  | _, _ => false
  end.

Fixpoint insert_key (k : cell) (ks : list cell) : list cell :=
  match ks with
  | [] => [k]
  | x :: ks' => if cell_leb k x then k :: ks else x :: insert_key k ks'
  end.

Definition sort_keys (ks : list cell) : list cell :=
  fold_right insert_key [] ks.

(** [groupby] sorts the group keys. *)
Definition group_keys (by_ : string) (df : DataFrame) : list cell :=
  sort_keys (distinct (map (get by_) (values df))).

Definition group_rows (by_ : string) (k : cell) (df : DataFrame) : list row :=
  map snd (filter (in_group by_ k) (records df)).

(** [df.groupby(by)[cols].mean()]: one row per group, with the mean of each
    of the columns over the rows of the group.  (pandas makes the group key
    the index of the result; here it is its first column.) *)
Definition groupby_mean (by_ : string) (cols : list string) (df : DataFrame)
  : result DataFrame :=
  rbind (require_columns (by_ :: cols) df) (fun _ =>
  rbind (mapM (fun k =>
           rmap (fun ms => (by_, k) :: ms)
                (mapM (fun c => rmap (fun m => (c, m))
                                     (mean_skipna (map (get c) (group_rows by_ k df))))
                      cols))
           (group_keys by_ df)) (fun rs =>
  Ok (mkDF (by_ :: cols) (range_index rs)))).

(** ** utilsforecast: losses and evaluation *)

(** [|prediction - actual|]; missing when either is. *)
Definition abs_error (actual predicted : cell) : result cell :=
  rbind (as_float actual) (fun a =>
  rbind (as_float predicted) (fun p =>
  match a, p with
  | Some y, Some yhat => Ok (Num (Rabs (yhat - y)))
  | _, _ => Ok NaN
  end)).

(** A metric maps the evaluation table to one row per series, with one
    column per model. *)
Definition metric_fn : Type :=
  DataFrame -> list string -> string -> string -> result DataFrame.

(** [mae(df, models, id_col, target_col)]:
    [df[models].sub(df[target_col], axis=0).abs().groupby(df[id_col]).mean()],
    one row per series, the series sorted by identifier.  (What the library
    does with records whose identifier is missing differs between its
    versions; what the per-series errors are is stated for identifiers that
    are strings.) *)
Definition mae : metric_fn := fun df models id_col target_col =>
  rbind (require_columns (id_col :: target_col :: models) df) (fun _ =>
  rbind (mapM (fun lr =>
           rmap (fun es => (fst lr, (id_col, get id_col (snd lr)) :: es))
                (mapM (fun m => rmap (fun e => (m, e))
                                     (abs_error (get target_col (snd lr))
                                                (get m (snd lr))))
                      models))
           (records df)) (fun errs =>
  groupby_mean id_col models (mkDF (id_col :: models) errs))).

(** The column [metric] is put after the series identifier. *)
Definition tag_metric (name : string) (r : row) : row :=
  match r with
  | [] => [("metric", Str name)]
  | kv :: r' => kv :: ("metric", Str name) :: r'
  end.

(** [evaluate(df, metrics, models, target_col, id_col)]: the rows of every
    metric, tagged with the metric's name. *)
Definition evaluate (df : DataFrame) (metrics : list (string * metric_fn))
  (models : list string) (target_col id_col : string) : result DataFrame :=
  rbind (mapM (fun nm =>
           rmap (fun r => map (tag_metric (fst nm)) (values r))
                (snd nm df models id_col target_col))
           metrics) (fun per_metric =>
  Ok (mkDF (id_col :: "metric" :: models)
           (range_index (List.concat per_metric)))).

(** ** The notebook: global names bound to data-frame objects *)

(** The objects the notebook has created, and the names bound to them.  Two
    names may be bound to one object; [df.copy()] makes a new one. *)
Record state : Type := mkState {
  heap : list DataFrame;
  env : list (string * nat)
}.

Fixpoint lookup (x : string) (e : list (string * nat)) : option nat :=
  match e with
  | [] => None
  | (y, l) :: e' => if String.eqb y x then Some l else lookup x e'
  end.

Fixpoint update (l : nat) (d : DataFrame) (h : list DataFrame)
  : list DataFrame :=
  match h, l with
  | [], _ => []
  | _ :: h', O => d :: h'
  | d0 :: h', S l' => d0 :: update l' d h'
  end.

(** A cell runs on the state; when it raises, the state is as the cell left
    it at that point. *)
Definition M (A : Type) : Type := state -> result A * state.

Definition ret {A : Type} (a : A) : M A := fun st => (Ok a, st).

Definition bind {A B : Type} (m : M A) (k : A -> M B) : M B := fun st =>
  match m st with
  | (Ok a, st') => k a st'
  | (Raise e, st') => (Raise e, st')
  end.

Notation "x <- m ;; k" := (bind m (fun x => k))
  (at level 61, m at next level, right associativity).
Notation "m ;; k" := (bind m (fun _ => k))
  (at level 61, right associativity).

Definition lift {A : Type} (r : result A) : M A := fun st => (r, st).

(** The object a name is bound to. *)
Definition obj (x : string) : M DataFrame := fun st =>
  match lookup x (env st) with
  | None => (Raise (NameError x), st)
  | Some l =>
      match nth_error (heap st) l with
      | None => (Raise (NameError x), st)
      | Some d => (Ok d, st)
      end
  end.

(** [x = <a new frame>] *)
Definition let_ (x : string) (d : DataFrame) : M unit := fun st =>
  (Ok tt, mkState (heap st ++ [d]) ((x, length (heap st)) :: env st)).

(** [x[...] = ...], [x.rename(..., inplace=True)]: the object bound to [x] is
    changed in place, for every name bound to it. *)
Definition mutate (x : string) (f : DataFrame -> result DataFrame) : M unit :=
  fun st =>
  match lookup x (env st) with
  | None => (Raise (NameError x), st)
  | Some l =>
      match nth_error (heap st) l with
      | None => (Raise (NameError x), st)
      | Some d =>
          match f d with
          | Ok d' => (Ok tt, mkState (update l d' (heap st)) (env st))
          | Raise e => (Raise e, st)
          end
      end
  end.

Fixpoint for_each {A : Type} (l : list A) (body : A -> M unit) : M unit :=
  match l with
  | [] => ret tt
  | a :: l' => body a ;; for_each l' body
  end.

(** The horizon: the notebook holds out and forecasts 28 steps. *)
Definition H : nat := 28.

Definition join_key : list string := ["unique_id"; "ds"].

Definition statistical_models : list string :=
  ["CrostonClassic"; "CrostonOptimized"; "IMAPA"; "TSB"].

(** [test_df = df.groupby("unique_id").tail(28)];
    [input_df = df.drop(test_df.index).reset_index(drop=True)] *)
Definition split (h : nat) (df : DataFrame) : result (DataFrame * DataFrame) :=
  rbind (groupby_tail "unique_id" h df) (fun test_df =>
  rbind (drop (index test_df) df) (fun rest =>
  Ok (test_df, reset_index rest))).

(** [evaluation.groupby("metric")[models].mean()] *)
Definition summarize (evaluation : DataFrame) (models : list string)
  : result DataFrame :=
  groupby_mean "metric" models evaluation.

Section Notebook.

(** [nixtla_client.forecast(df, X_df, h=28, level=[80], finetune_steps=10,
    finetune_loss="mae", ...)]: the remote model. *)
Variable forecast : DataFrame -> option DataFrame -> result DataFrame.

(** [sf.fit(df); sf.predict(h=28)]: the statistical baselines. *)
Variable sf_predict : DataFrame -> result DataFrame.

(** [pd.to_datetime] on one cell. *)
Variable to_datetime : cell -> result cell.

(** [df_transformed = df.copy()];
    [df_transformed["y"] = np.log(df_transformed["y"] + 1)] *)
Definition cell_transform : M unit :=
  df <- obj "df" ;;
  let_ "df_transformed" df ;;
  mutate "df_transformed" (map_column "y" forward_cell).

Definition cell_split : M unit :=
  df_transformed <- obj "df_transformed" ;;
  test_df <- lift (groupby_tail "unique_id" H df_transformed) ;;
  let_ "test_df" test_df ;;
  rest <- lift (drop (index test_df) df_transformed) ;;
  let_ "input_df" (reset_index rest).

(** [fcst_df = nixtla_client.forecast(df=input_df, ...)] *)
Definition cell_forecast : M unit :=
  input_df <- obj "input_df" ;;
  fcst_df <- lift (forecast input_df None) ;;
  let_ "fcst_df" fcst_df.

(** [cols = [...]; for col in cols: x[col] = np.exp(x[col]) - 1] *)
Definition cell_inverse (x : string) : M unit :=
  d <- obj x ;;
  for_each (value_columns d) (fun col => mutate x (map_column col inverse_cell)).

(** [fcst_df["ds"] = pd.to_datetime(fcst_df["ds"])];
    [test_df = pd.merge(test_df, fcst_df, "left", ["unique_id", "ds"])] *)
Definition cell_merge_forecast : M unit :=
  mutate "fcst_df" (map_column "ds" to_datetime) ;;
  test_df <- obj "test_df" ;;
  fcst_df <- obj "fcst_df" ;;
  merged <- lift (merge_left test_df fcst_df join_key) ;;
  let_ "test_df" merged.

(** [evaluation = evaluate(test_df, metrics=[mae], models=models,
    target_col="y", id_col="unique_id")];
    [average_metrics = evaluation.groupby("metric")[models].mean()] *)
Definition cell_evaluate (models : list string) : M unit :=
  test_df <- obj "test_df" ;;
  evaluation <- lift (evaluate test_df [("mae", mae)] models "y" "unique_id") ;;
  let_ "evaluation" evaluation ;;
  average_metrics <- lift (summarize evaluation models) ;;
  let_ "average_metrics" average_metrics.

(** [sf.fit(df=input_df); sf_preds = sf.predict(h=28)] *)
Definition cell_statistical : M unit :=
  input_df <- obj "input_df" ;;
  sf_preds <- lift (sf_predict input_df) ;;
  let_ "sf_preds" sf_preds.

(** [test_df = pd.merge(test_df, sf_preds, "left", ["unique_id", "ds"])] *)
Definition cell_merge_statistical : M unit :=
  test_df <- obj "test_df" ;;
  sf_preds <- obj "sf_preds" ;;
  merged <- lift (merge_left test_df sf_preds join_key) ;;
  let_ "test_df" merged.

(** [futr_exog_df = test_df.drop([...], axis=1)] *)
Definition cell_future_exogenous : M unit :=
  test_df <- obj "test_df" ;;
  futr <- lift (drop_columns
                  (("TimeGPT" :: statistical_models)
                   ++ ["y"; "TimeGPT-lo-80"; "TimeGPT-hi-80"; "sell_price"])
                  test_df) ;;
  let_ "futr_exog_df" futr.

(** [fcst_df = nixtla_client.forecast(df=input_df, X_df=futr_exog_df, ...)] *)
Definition cell_forecast_exogenous : M unit :=
  input_df <- obj "input_df" ;;
  futr_exog_df <- obj "futr_exog_df" ;;
  fcst_df <- lift (forecast input_df (Some futr_exog_df)) ;;
  let_ "fcst_df" fcst_df.

(** [fcst_df.rename(columns={"TimeGPT": "TimeGPT_ex"}, inplace=True)],
    then the inverse transform of its value columns. *)
Definition cell_rename_inverse : M unit :=
  mutate "fcst_df" (fun d => Ok (rename_column "TimeGPT" "TimeGPT_ex" d)) ;;
  cell_inverse "fcst_df".

(** [test_df["TimeGPT_ex"] = fcst_df["TimeGPT_ex"].values] *)
Definition cell_attach_exogenous : M unit :=
  fcst_df <- obj "fcst_df" ;;
  vs <- lift (column_values "TimeGPT_ex" fcst_df) ;;
  mutate "test_df" (assign_values "TimeGPT_ex" vs).

(** The cells that follow the transform, in order. *)
Definition analysis : M unit :=
  cell_split ;;
  cell_forecast ;;
  cell_inverse "fcst_df" ;;
  cell_merge_forecast ;;
  cell_evaluate ["TimeGPT"] ;;
  cell_statistical ;;
  cell_inverse "sf_preds" ;;
  cell_merge_statistical ;;
  cell_evaluate ("TimeGPT" :: statistical_models) ;;
  cell_future_exogenous ;;
  cell_forecast_exogenous ;;
  cell_rename_inverse ;;
  cell_attach_exogenous ;;
  cell_evaluate (("TimeGPT" :: statistical_models) ++ ["TimeGPT_ex"]).

(** The cells of the notebook from the transform on. *)
Definition pipeline : M unit :=
  cell_transform ;;
  analysis.

End Notebook.

(** The state after [pd.read_csv]: the panel, bound to [df]. *)
Definition loaded (panel : DataFrame) : state :=
  mkState [panel] [("df", 0)].

(** The frame a name is bound to in a state. *)
Definition frame_of (x : string) (st : state) : option DataFrame :=
  match lookup x (env st) with
  | None => None
  | Some l => nth_error (heap st) l
  end.

(** ** Vocabulary of the properties *)

(** The records of one series, in the order of the frame. *)
Definition series (id : string) (df : DataFrame) : list row :=
  filter (fun r => cell_eqb (get "unique_id" r) (Str id)) (values df).

(** The index labels are pairwise different, as after [pd.read_csv]. *)
Definition unique_index (df : DataFrame) : Prop := NoDup (index df).

(** Row [a] is strictly earlier than row [b]. *)
Definition before (a b : row) : Prop :=
  match get "ds" a, get "ds" b with
  | Date s, Date t => (s < t)%Z
  | _, _ => False
  end.

(** The timestamps of the rows are strictly increasing. *)
Definition chronological (rs : list row) : Prop := StronglySorted before rs.

(** The rows [groupby(by).tail(n)] does not select. *)
Fixpoint head_rows (by_ : string) (n : nat) (l : list (nat * row))
  : list (nat * row) :=
  match l with
  | [] => []
  | lr :: rest =>
      if in_tail by_ n lr rest
      then head_rows by_ n rest
      else lr :: head_rows by_ n rest
  end.

(** A table keyed as the panel is: its column labels are distinct, among
    them [unique_id] and [ds], and in every record the identifier is a
    string and [ds] a timestamp. *)
Definition keyed (df : DataFrame) : Prop :=
  NoDup (columns df)
  /\ In "unique_id" (columns df)
  /\ In "ds" (columns df)
  /\ forall r, In r (values df) ->
       is_str (get "unique_id" r) = true /\ is_date (get "ds" r) = true.

(** No two rows have the same key. *)
Fixpoint unique_keys (on : list string) (rs : list row) : bool :=
  match rs with
  | [] => true
  | r :: rs' => negb (existsb (matches on r) rs') && unique_keys on rs'
  end.

(** The row a left row becomes when at most one right row matches it. *)
Definition join_one (on ov : list string) (rcs : list string)
  (rrows : list row) (l : row) : row :=
  match find (matches on l) rrows with
  | None => left_part ov l ++ null_part on ov rcs
  | Some r => left_part ov l ++ right_part on ov rcs r
  end.

(** A right row is covered when some left row has its key. *)
Definition covered (on : list string) (left : DataFrame) (lr : nat * row) : bool :=
  existsb (fun l => matches on l (snd lr)) (values left).

(** The frame without its rows that no left row matches. *)
Definition without_gaps (on : list string) (left right : DataFrame) : DataFrame :=
  mkDF (columns right) (filter (covered on left) (records right)).

(** The last character of a string. *)
Fixpoint last_ascii (s : string) : option Ascii.ascii :=
  match s with
  | EmptyString => None
  | String a EmptyString => Some a
  | String _ s' => last_ascii s'
  end.

(** The forecast rows that no holdout row matches: the coverage gaps. *)
Definition gaps (on : list string) (left right : DataFrame) : list (nat * row) :=
  filter (fun lr => negb (covered on left lr)) (records right).

(** A float cell: a number or a missing value. *)
Definition is_float (c : cell) : bool :=
  match c with
  | Num _ | NaN => true
  | Str _ | Date _ => false
  end.

(** The numbers among the cells, the missing values left out. *)
Fixpoint numbers (cs : list cell) : list R :=
  match cs with
  | [] => []
  | Num x :: cs' => x :: numbers cs'
  | _ :: cs' => numbers cs'
  end.

(** The summary in the spec's words: for a metric and a model, the arithmetic
    mean of the model's per-series values, the missing ones excluded. *)
Definition summarize_spec (evaluation : DataFrame) (metric : cell)
  (model : string) : cell :=
  match numbers (map (get model) (group_rows "metric" metric evaluation)) with
  | [] => NaN
  | xs => Num (mean xs)
  end.

(** The arithmetic mean, in the spec's words: the sum of the values divided
    by their number. *)
Definition arithmetic_mean (xs : list R) : R :=
  (fold_left Rplus xs 0 / INR (length xs))%R.

(** The per-series values of a model for a metric, in the spec's words: the
    values of the model in the evaluation records of the metric, a missing
    one left out. *)
Definition per_series_values (evaluation : DataFrame) (metric model : string)
  : list R :=
  flat_map (fun r => match get "metric" r, get model r with
                     | Str s, Num x => if String.eqb s metric then [x] else []
                     | _, _ => []
                     end)
           (values evaluation).

(** Names in ascending order. *)
Definition name_le (a b : cell) : Prop :=
  match a, b with
  | Str s, Str t => String.leb s t = true
  | _, _ => False
  end.

(** The state binds [df] to the object [l], the object is [d], and none of
    the names in [fresh] is bound to it. *)
Definition keeps (l : nat) (d : DataFrame) (fresh : list string) (st : state)
  : Prop :=
  lookup "df" (env st) = Some l
  /\ nth_error (heap st) l = Some d
  /\ forall x l', In x fresh -> lookup x (env st) = Some l' -> l' <> l.

(** A computation that leaves the object of [df] alone, whether it returns
    or raises; when it returns, the names in [fresh'] are bound elsewhere. *)
Definition safe {A : Type} (l : nat) (d : DataFrame)
  (fresh fresh' : list string) (m : M A) : Prop :=
  forall st, keeps l d fresh st ->
    match m st with
    | (Ok _, st') => keeps l d fresh' st'
    | (Raise _, st') => keeps l d [] st'
    end.

(** A row with its demand on the transformed scale. *)
Definition log_row (r : row) : row :=
  set "y" (match get "y" r with Num v => Num (forward v) | c => c end) r.

(** The frame [df_transformed] of a panel. *)
Definition transformed (df : DataFrame) : DataFrame :=
  mkDF (columns df) (map (fun lr => (fst lr, log_row (snd lr))) (records df)).

(** The number a float cell holds, if any. *)
Definition float_of (c : cell) : option R :=
  match c with Num x => Some x | _ => None end.

(** The absolute error of a prediction, on float cells. *)
Definition abs_error_cell (actual predicted : cell) : cell :=
  match actual, predicted with
  | Num y, Num yhat => Num (Rabs (yhat - y))
  | _, _ => NaN
  end.

(** The mean absolute error of a model on one series: the mean of the
    absolute errors over the records of the series that have both the actual
    value and the prediction. *)
Definition series_mae (df : DataFrame) (id_col target_col : string) (k : cell)
  (model : string) : cell :=
  match numbers (map (fun r => abs_error_cell (get target_col r) (get model r))
                     (group_rows id_col k df)) with
  | [] => NaN
  | xs => Num (mean xs)
  end.

(** The inverse transform of a float cell. *)
Definition inverse_float (c : cell) : cell :=
  match c with Num t => Num (inverse t) | c' => c' end.

(** A row after the loop of the inverse transform over the columns [cols]. *)
Definition inverse_row (cols : list string) (r : row) : row :=
  fold_left (fun r' c => set c (inverse_float (get c r')) r') cols r.

(** A frame after the loop of the inverse transform over its value columns. *)
Definition inverse_frame (df : DataFrame) : DataFrame :=
  mkDF (columns df)
       (map (fun lr => (fst lr, inverse_row (value_columns df) (snd lr)))
            (records df)).

(** ** Concrete panels *)

Definition panel_columns : list string := ["unique_id"; "ds"; "y"; "sell_price"].

(** [n] daily records of the series [id], from day [start] on, each with
    demand [y] and price 1. *)
Definition daily (id : string) (start n : nat) (y : R) : list row :=
  map (fun d => [("unique_id", Str id); ("ds", Date (Z.of_nat d));
                 ("y", Num y); ("sell_price", Num 1)])
      (seq start n).

(** A panel as [pd.read_csv] returns it. *)
Definition panel (rs : list row) : DataFrame := mkDF panel_columns (range_index rs).

(** One series of three records. *)
Definition short_panel : DataFrame := panel (daily "A" 0 3 1).

(** One series of exactly [H] records. *)
Definition exact_panel : DataFrame := panel (daily "A" 0 H 1).

(** One series of [H + 1] records. *)
Definition long_panel : DataFrame := panel (daily "A" 0 (H + 1) 1).

(** A holdout of two days, a forecast for the first of them only, and the
    same forecast with one more row, for a day that is not held out. *)
Definition holdout_demo : DataFrame :=
  mkDF ["unique_id"; "ds"; "y"]
       (range_index [ [("unique_id", Str "A"); ("ds", Date 1); ("y", Num 10)];
                      [("unique_id", Str "A"); ("ds", Date 2); ("y", Num 12)] ]).

Definition forecast_demo : DataFrame :=
  mkDF ["unique_id"; "ds"; "TimeGPT"]
       (range_index [ [("unique_id", Str "A"); ("ds", Date 1); ("TimeGPT", Num 8)] ]).

Definition forecast_gap : DataFrame :=
  mkDF ["unique_id"; "ds"; "TimeGPT"]
       (range_index [ [("unique_id", Str "A"); ("ds", Date 1); ("TimeGPT", Num 8)];
                      [("unique_id", Str "A"); ("ds", Date 5); ("TimeGPT", Num 9)] ]).

(** A forecast with two rows for the first day. *)
Definition dup_forecast : DataFrame :=
  mkDF ["unique_id"; "ds"; "TimeGPT"]
       (range_index [ [("unique_id", Str "A"); ("ds", Date 1); ("TimeGPT", Num 8)];
                      [("unique_id", Str "A"); ("ds", Date 1); ("TimeGPT", Num 9)] ]).

(** Per-series errors of one model for three series, the second missing. *)
Definition evaluation_demo : DataFrame :=
  mkDF ["unique_id"; "metric"; "TimeGPT"]
       (range_index
          [ [("unique_id", Str "A"); ("metric", Str "mae"); ("TimeGPT", Num 2)];
            [("unique_id", Str "B"); ("metric", Str "mae"); ("TimeGPT", NaN)];
            [("unique_id", Str "C"); ("metric", Str "mae"); ("TimeGPT", Num 4)] ]).

(** ** A concrete run *)

(** Two series of [H + 1] daily records, the series [B] before the series
    [A] in the file; the demand is 1 for [B] and 3 for [A]. *)
Definition two_series_panel : DataFrame :=
  panel (daily "B" 0 (H + 1) 1 ++ daily "A" 0 (H + 1) 3).

(** The forecast of a series for the [H] days held out: the point forecast
    and the bounds of its 80% interval, all equal to [v]. *)
Definition predictions (id : string) (names : list string) (v : R) : list row :=
  map (fun day => ("unique_id", Str id) :: ("ds", Date (Z.of_nat day))
                  :: map (fun c => (c, Num v)) names)
      (seq 1 H).

Definition forecast_columns : list string :=
  ["TimeGPT"; "TimeGPT-lo-80"; "TimeGPT-hi-80"].

(** A remote model that is right on the transformed scale: it forecasts
    [log(3 + 1)] for [A] and [log(1 + 1)] for [B], and returns the series
    ordered by identifier, [A] before [B]. *)
Definition exact_forecast (input : DataFrame) (X_df : option DataFrame)
  : result DataFrame :=
  Ok (mkDF ("unique_id" :: "ds" :: forecast_columns)
           (range_index (predictions "A" forecast_columns (forward 3)
                         ++ predictions "B" forecast_columns (forward 1)))).

(** Baselines that forecast zero demand, in the order of the panel. *)
Definition zero_baselines (input : DataFrame) : result DataFrame :=
  Ok (mkDF ("unique_id" :: "ds" :: statistical_models)
           (range_index (predictions "B" statistical_models (forward 0)
                         ++ predictions "A" statistical_models (forward 0)))).

(** [pd.to_datetime] on a column that holds timestamps already. *)
Definition keep_dates (c : cell) : result cell :=
  match c with
  | Date t => Ok (Date t)
  | NaN => Ok NaN
  | Str _ | Num _ => Raise ValueError
  end.

(** The state in which the run ends. *)
Definition final_state : state :=
  snd (pipeline exact_forecast zero_baselines keep_dates
                (loaded two_series_panel)).

(** The holdout table at the end of the run, in closed form: the record of
    the series [id] for one day, with the demand [raw] of the series, the
    point forecast [ex] attached from the run with exogenous features. *)
Definition final_row (id : string) (raw ex : R) (day : nat) : row :=
  [("unique_id", Str id); ("ds", Date (Z.of_nat day));
   ("y", Num (forward raw)); ("sell_price", Num 1);
   ("TimeGPT", Num (inverse (forward raw)));
   ("TimeGPT-lo-80", Num (inverse (forward raw)));
   ("TimeGPT-hi-80", Num (inverse (forward raw)));
   ("CrostonClassic", Num (inverse (forward 0)));
   ("CrostonOptimized", Num (inverse (forward 0)));
   ("IMAPA", Num (inverse (forward 0)));
   ("TSB", Num (inverse (forward 0)));
   ("TimeGPT_ex", Num (inverse (forward ex)))].

Definition final_test_df : DataFrame :=
  mkDF (panel_columns ++ forecast_columns ++ statistical_models ++ ["TimeGPT_ex"])
       (range_index (map (final_row "B" 1 3) (seq 1 H)
                     ++ map (final_row "A" 3 1) (seq 1 H))).

(** The forecast of the run with exogenous features, after the renaming and
    the inverse transform. *)
Definition final_fcst_df : DataFrame :=
  mkDF ["unique_id"; "ds"; "TimeGPT_ex"; "TimeGPT-lo-80"; "TimeGPT-hi-80"]
       (range_index
          (predictions "A" ["TimeGPT_ex"; "TimeGPT-lo-80"; "TimeGPT-hi-80"]
                       (inverse (forward 3))
           ++ predictions "B" ["TimeGPT_ex"; "TimeGPT-lo-80"; "TimeGPT-hi-80"]
                          (inverse (forward 1)))).

(** The mean absolute error reported for a model whose predictions are [pB]
    for the series [B] and [pA] for the series [A]. *)
Definition reported_mae (pB pA : R) : R :=
  mean [mean (repeat (Rabs (pA - forward 3)) H);
        mean (repeat (Rabs (pB - forward 1)) H)].

Definition final_average_metrics : DataFrame :=
  mkDF ("metric" :: ("TimeGPT" :: statistical_models) ++ ["TimeGPT_ex"])
       [(0, [("metric", Str "mae");
             ("TimeGPT", Num (reported_mae (inverse (forward 1))
                                           (inverse (forward 3))));
             ("CrostonClassic", Num (reported_mae (inverse (forward 0))
                                                  (inverse (forward 0))));
             ("CrostonOptimized", Num (reported_mae (inverse (forward 0))
                                                    (inverse (forward 0))));
             ("IMAPA", Num (reported_mae (inverse (forward 0))
                                         (inverse (forward 0))));
             ("TSB", Num (reported_mae (inverse (forward 0))
                                       (inverse (forward 0))));
             ("TimeGPT_ex", Num (reported_mae (inverse (forward 3))
                                              (inverse (forward 1))))])].
(** ** Further vocabulary and frames *)

(** The absolute errors of a model on a series, in the spec's words: the
    distance between the prediction and the actual value, over the records
    of the series that have both. *)
Definition absolute_errors (df : DataFrame) (id model : string) : list R :=
  flat_map (fun r => match get "unique_id" r, get "y" r, get model r with
                     | Str s, Num y, Num p =>
                         if String.eqb s id then [Rabs (p - y)] else []
                     | _, _, _ => []
                     end)
           (values df).

(** The mean absolute error of a model on a series; missing when no record
    of the series has both values. *)
Definition mean_absolute_error (df : DataFrame) (id model : string) : cell :=
  match absolute_errors df id model with
  | [] => NaN
  | xs => Num (arithmetic_mean xs)
  end.

(** The errors a model has on the series [ids], the series without one left
    out. *)
Definition series_errors (df : DataFrame) (ids : list cell) (model : string)
  : list R :=
  flat_map (fun k => match k with
                     | Str s => match absolute_errors df s model with
                                | [] => []
                                | xs => [arithmetic_mean xs]
                                end
                     | _ => []
                     end)
           ids.

(** The row [evaluate] returns for a series. *)
Definition evaluation_row (df : DataFrame) (models : list string) (k : cell)
  : row :=
  ("unique_id", k) :: ("metric", Str "mae")
  :: map (fun m => (m, series_mae df "unique_id" "y" k m)) models.

(** A forecast of one row whose columns are floats, bound to [fcst_df]. *)
Definition forecast_state : state := mkState [forecast_demo] [("fcst_df", 0)].

(** The holdout of two days joined with a forecast for the first of them. *)
Definition joined_demo : DataFrame :=
  mkDF ["unique_id"; "ds"; "y"; "TimeGPT"]
       (range_index
          [ [("unique_id", Str "A"); ("ds", Date 1); ("y", Num 10);
             ("TimeGPT", Num 8)];
            [("unique_id", Str "A"); ("ds", Date 2); ("y", Num 12);
             ("TimeGPT", NaN)] ]).

(** The columns the cell of the future exogenous features drops: the
    target, every prediction and the price. *)
Definition dropped_columns : list string :=
  ("TimeGPT" :: statistical_models)
  ++ ["y"; "TimeGPT-lo-80"; "TimeGPT-hi-80"; "sell_price"].

(** A holdout table after the two joins, with one record. *)
Definition merged_demo : DataFrame :=
  mkDF (panel_columns ++ forecast_columns ++ statistical_models)
       (range_index
          [ [("unique_id", Str "A"); ("ds", Date 1); ("y", Num 10);
             ("sell_price", Num 1); ("TimeGPT", Num 8);
             ("TimeGPT-lo-80", Num 7); ("TimeGPT-hi-80", Num 9);
             ("CrostonClassic", Num 6); ("CrostonOptimized", Num 6);
             ("IMAPA", Num 6); ("TSB", Num 6)] ]).

Definition merged_state : state := mkState [merged_demo] [("test_df", 0)].

(** A holdout and a forecast bound to [test_df] and [fcst_df], record for
    record on the same keys. *)
Definition aligned_forecast : DataFrame :=
  mkDF ["unique_id"; "ds"; "TimeGPT_ex"]
       (range_index
          [ [("unique_id", Str "A"); ("ds", Date 1); ("TimeGPT_ex", Num 8)];
            [("unique_id", Str "A"); ("ds", Date 2); ("TimeGPT_ex", Num 9)] ]).

Definition aligned_state : state :=
  mkState [holdout_demo; aligned_forecast] [("test_df", 0); ("fcst_df", 1)].

(** The same holdout with a forecast of one row only. *)
Definition short_forecast : DataFrame :=
  mkDF ["unique_id"; "ds"; "TimeGPT_ex"]
       (range_index
          [ [("unique_id", Str "A"); ("ds", Date 1); ("TimeGPT_ex", Num 8)] ]).

Definition short_forecast_state : state :=
  mkState [holdout_demo; short_forecast] [("test_df", 0); ("fcst_df", 1)].

(** A remote model that cannot be reached: every call raises. *)
Definition failing_forecast (df : DataFrame) (X_df : option DataFrame)
  : result DataFrame :=
  Raise ValueError.

(** * Properties *)

(** ** Results and cells *)

Lemma cell_eqb_eq (a b : cell) : cell_eqb a b = true <-> a = b.
Proof.
  destruct a, b; simpl; split; intros E; try discriminate; try reflexivity.
  - apply String.eqb_eq in E. now subst.
  - injection E as ->. apply String.eqb_refl.
  - apply Z.eqb_eq in E. now subst.
  - injection E as ->. apply Z.eqb_refl.
  - destruct (Req_dec_T x x0); [now subst | discriminate].
  - injection E as ->. destruct (Req_dec_T x0 x0); [reflexivity | contradiction].
Qed.

Lemma cell_eqb_refl (a : cell) : cell_eqb a a = true.
Proof. now apply cell_eqb_eq. Qed.

Lemma memn_In (i : nat) (l : list nat) : memn i l = true <-> In i l.
Proof.
  unfold memn. rewrite existsb_exists. split.
  - intros [x [Hx E]]. apply Nat.eqb_eq in E. now subst.
  - intros Hi. exists i. split; [assumption | apply Nat.eqb_refl].
Qed.

Lemma mem_In (c : string) (l : list string) : mem c l = true <-> In c l.
Proof.
  unfold mem. rewrite existsb_exists. split.
  - intros [x [Hx E]]. apply String.eqb_eq in E. now subst.
  - intros Hi. exists c. split; [assumption | apply String.eqb_refl].
Qed.

Lemma require_columns_ok (cs : list string) (df : DataFrame) :
  (forall c, In c cs -> In c (columns df)) -> require_columns cs df = Ok tt.
Proof.
  intros Hin. unfold require_columns.
  replace (filter (fun c => negb (mem c (columns df))) cs) with (@nil string);
    [reflexivity|].
  symmetry. induction cs as [|c cs IH]; simpl; [reflexivity|].
  assert (Hc : mem c (columns df) = true) by (apply mem_In, Hin; now left).
  rewrite Hc. simpl. apply IH. intros c' Hc'. apply Hin. now right.
Qed.

(** ** The transform *)

Lemma inverse_forward (v : R) : (-1 < v)%R -> inverse (forward v) = v.
Proof.
  intros Hv. unfold inverse, forward. rewrite exp_ln by lra. lra.
Qed.

Lemma forward_cell_Num (v : R) :
  (-1 < v)%R -> forward_cell (Num v) = Ok (Num (forward v)).
Proof.
  intros Hv. simpl. destruct (Rlt_dec 0 (v + 1)); [reflexivity | lra].
Qed.

(** *** Rounded arithmetic *)

Lemma Rabs_bound (x y : R) : (Rabs x <= y -> - y <= x <= y)%R.
Proof. unfold Rabs. destruct (Rcase_abs x); lra. Qed.

Lemma exp_le (x y : R) : (x <= y -> exp x <= exp y)%R.
Proof.
  intros [Hlt | ->]; [left; now apply exp_increasing | right; reflexivity].
Qed.

Lemma ln_le (x y : R) : (0 < x -> x <= y -> ln x <= ln y)%R.
Proof.
  intros Hx [Hlt | ->]; [left; now apply ln_increasing | right; reflexivity].
Qed.

Lemma exp_abs_minus_1 (x : R) : (Rabs (exp x - 1) <= exp (Rabs x) - 1)%R.
Proof.
  unfold Rabs at 2. destruct (Rcase_abs x) as [Hneg|Hpos].
  - rewrite exp_Ropp. pose proof (exp_pos x) as Hp.
    assert (Hlt : (exp x < 1)%R) by (rewrite <- exp_0; now apply exp_increasing).
    rewrite Rabs_left by lra.
    assert (H2 : (2 - exp x <= / exp x)%R).
    { apply (Rmult_le_reg_r (exp x)); [exact Hp|].
      rewrite Rinv_l by lra. nra. }
    lra.
  - assert (Hge : (1 <= exp x)%R) by (rewrite <- exp_0; apply exp_le; lra).
    rewrite Rabs_pos_eq by lra. lra.
Qed.

Section Rounded.

Local Open Scope R_scope.

(** The unit roundoff and the rounding: the rounded value is within the
    relative error [u] of the exact one (no overflow, no underflow). *)
Variable u : R.
Variable rnd : R -> R.
Hypothesis u_small : 0 <= u <= 1 / 2.
Hypothesis rnd_close : forall x, Rabs (rnd x - x) <= u * Rabs x.

Lemma ln_rounded_bound (v : R) :
  0 <= v ->
  0 < rnd (v + 1) <= (1 + u) * (v + 1)
  /\ Rabs (ln (rnd (v + 1))) <= ln (v + 1) + 2 * u.
Proof.
  intros Hv.
  pose proof (Rabs_bound _ _ (rnd_close (v + 1))) as Hs.
  rewrite (Rabs_pos_eq (v + 1)) in Hs by lra.
  set (s := rnd (v + 1)) in *.
  assert (Hpos : 0 < s) by nra.
  split; [split; [exact Hpos | nra]|].
  assert (Hln0 : 0 <= ln (v + 1)).
  { rewrite <- ln_1. apply ln_le; lra. }
  assert (Hup : ln s <= ln (v + 1) + u).
  { apply Rle_trans with (ln ((1 + u) * (v + 1))).
    - apply ln_le; [exact Hpos | nra].
    - rewrite ln_mult by lra.
      assert (ln (1 + u) <= u).
      { rewrite <- (ln_exp u) at 2. apply ln_le; [lra|]. apply exp_ineq1_le. }
      lra. }
  assert (Hlow : - (2 * u) <= ln s).
  { apply Rle_trans with (ln (1 - u)).
    - rewrite <- (ln_exp (- (2 * u))). apply ln_le; [apply exp_pos|].
      rewrite exp_Ropp.
      apply Rle_trans with (/ (1 + 2 * u)).
      + apply Rinv_le_contravar; [lra | apply exp_ineq1_le].
      + apply (Rmult_le_reg_r (1 + 2 * u)); [lra|].
        rewrite Rinv_l by lra. nra.
    - apply ln_le; [lra | nra]. }
  apply Rabs_le. lra.
Qed.

(** The rounded round trip stays within [tolerance u v] of [v]. *)
Lemma rounded_round_trip (v : R) :
  0 <= v ->
  Rabs (fl_inverse rnd (fl_forward rnd v) - v) <= tolerance u v.
Proof.
  intros Hv. unfold fl_inverse, fl_forward, tolerance.
  destruct (ln_rounded_bound v Hv) as [[Hspos Hsle] HL].
  set (s := rnd (v + 1)) in *.
  set (L := ln s) in *.
  set (Lam := ln (v + 1) + 2 * u) in *.
  set (B := exp (u * Lam)).
  set (t := rnd L).
  assert (Hd : Rabs (t - L) <= u * Lam).
  { apply Rle_trans with (u * Rabs L); [apply rnd_close|].
    apply Rmult_le_compat_l; lra. }
  assert (He0 : exp t = s * exp (t - L)).
  { replace t with (L + (t - L)) at 1 by lra.
    rewrite exp_plus. unfold L. now rewrite exp_ln. }
  assert (HB1 : 1 <= B).
  { unfold B. rewrite <- exp_0. apply exp_le.
    pose proof (Rabs_pos (t - L)). lra. }
  assert (Hx : Rabs (exp (t - L) - 1) <= B - 1).
  { apply Rle_trans with (exp (Rabs (t - L)) - 1); [apply exp_abs_minus_1|].
    unfold B. pose proof (exp_le _ _ Hd). lra. }
  apply Rabs_bound in Hx.
  set (x := exp (t - L)) in *.
  assert (Hxpos : 0 < x) by apply exp_pos.
  set (e0 := exp t) in *.
  assert (He0pos : 0 < e0) by apply exp_pos.
  pose proof (Rabs_bound _ _ (rnd_close e0)) as HE.
  rewrite (Rabs_pos_eq e0) in HE by lra.
  set (E := rnd e0) in *.
  set (D := (v + 1) * ((1 + u) * (u * B + (B - 1)) + u)).
  assert (He0s : Rabs (e0 - s) <= (1 + u) * (v + 1) * (B - 1)).
  { rewrite He0. replace (s * x - s) with (s * (x - 1)) by lra.
    apply Rabs_le. split; nra. }
  apply Rabs_bound in He0s.
  assert (He0B : e0 <= (1 + u) * (v + 1) * B).
  { rewrite He0. nra. }
  pose proof (Rabs_bound _ _ (rnd_close (v + 1))) as Hs.
  rewrite (Rabs_pos_eq (v + 1)) in Hs by lra. fold s in Hs.
  assert (HEa : Rabs (E - (v + 1)) <= D).
  { unfold D. apply Rabs_le. split; nra. }
  assert (HE1 : Rabs (E - 1) <= D + v).
  { apply Rabs_bound in HEa. apply Rabs_le. lra. }
  pose proof (rnd_close (E - 1)) as Hr.
  assert (Hr' : Rabs (rnd (E - 1) - (E - 1)) <= u * (D + v)).
  { apply Rle_trans with (u * Rabs (E - 1)); [exact Hr|].
    apply Rmult_le_compat_l; lra. }
  apply Rabs_bound in Hr'. apply Rabs_bound in HEa.
  fold D. apply Rabs_le. split; nra.
Qed.

End Rounded.

(** Without rounding error the tolerance is zero. *)
Lemma tolerance_exact (v : R) : tolerance 0 v = 0%R.
Proof.
  unfold tolerance. cbv zeta.
  replace (0 * (ln (v + 1) + 2 * 0))%R with 0%R by lra.
  rewrite exp_0. lra.
Qed.

(** C1.  Round trip of the transform: for every value [v >= 0], the forward
    transform [log(v + 1)] followed by the inverse [exp(t) - 1] gives [v]
    back within floating-point tolerance.  Over the real numbers the two are
    equal, hence within every tolerance, and the cell operations of the
    notebook return the cell they started from; when every operation rounds
    its result with a relative error of at most [u], the result is within
    [tolerance u v] of [v]. *)
Theorem transform_round_trip (v : R) :
  (0 <= v)%R ->
  inverse (forward v) = v
  /\ (forall tol : R, (0 <= tol)%R -> (Rabs (inverse (forward v) - v) <= tol)%R)
  /\ rbind (forward_cell (Num v)) inverse_cell = Ok (Num v)
  /\ (forall (u : R) (rnd : R -> R),
        (0 <= u <= 1 / 2)%R ->
        (forall x, Rabs (rnd x - x) <= u * Rabs x)%R ->
        (Rabs (fl_inverse rnd (fl_forward rnd v) - v) <= tolerance u v)%R).
Proof.
  intros Hv.
  assert (E : inverse (forward v) = v) by (apply inverse_forward; lra).
  split; [exact E|]. split; [|split].
  - intros tol Htol. rewrite E.
    replace (v - v)%R with 0%R by lra. rewrite Rabs_R0. exact Htol.
  - rewrite forward_cell_Num by lra. simpl. now rewrite E.
  - intros u rnd Hu Hrnd. now apply rounded_round_trip.
Qed.

Lemma transform_round_trip_witness :
  inverse (forward 3) = 3%R
  /\ (forall tol : R, (0 <= tol)%R -> (Rabs (inverse (forward 3) - 3) <= tol)%R)
  /\ rbind (forward_cell (Num 3)) inverse_cell = Ok (Num 3)
  /\ (forall (u : R) (rnd : R -> R),
        (0 <= u <= 1 / 2)%R ->
        (forall x, Rabs (rnd x - x) <= u * Rabs x)%R ->
        (Rabs (fl_inverse rnd (fl_forward rnd 3) - 3) <= tolerance u 3)%R).
Proof. apply (transform_round_trip 3). lra. Defined.

(** *** binary64 *)

Section Binary64.

Local Open Scope R_scope.

Lemma nearest_even_le (r : R) (m : Z) : r <= IZR m -> (nearest_even r <= m)%Z.
Proof.
  intros Hr. unfold nearest_even.
  destruct (base_Int_part r) as [Hlo Hhi].
  assert (Hf : (Int_part r <= m)%Z) by (apply le_IZR; lra).
  destruct (Rlt_dec (r - IZR (Int_part r)) (/ 2)) as [_|Hn1]; [exact Hf|].
  assert (Hlt : (Int_part r < m)%Z) by (apply lt_IZR; lra).
  destruct (Rlt_dec (/ 2) (r - IZR (Int_part r))); [lia|].
  destruct (Z.even (Int_part r)); lia.
Qed.

Lemma nearest_even_ge (r : R) (m : Z) : IZR m <= r -> (m <= nearest_even r)%Z.
Proof.
  intros Hr. unfold nearest_even.
  destruct (base_Int_part r) as [Hlo Hhi].
  assert (Hf : (m <= Int_part r)%Z).
  { apply Z.lt_succ_r. apply lt_IZR. rewrite succ_IZR. lra. }
  destruct (Rlt_dec (r - IZR (Int_part r)) (/ 2)); [exact Hf|].
  destruct (Rlt_dec (/ 2) (r - IZR (Int_part r))); [lia|].
  destruct (Z.even (Int_part r)); lia.
Qed.

Lemma nearest_even_near (r : R) (m : Z) :
  Rabs (r - IZR m) < / 2 -> nearest_even r = m.
Proof.
  intros Hr. apply Rabs_def2 in Hr. destruct Hr as [Hu Hl].
  unfold nearest_even.
  destruct (base_Int_part r) as [Hlo Hhi].
  set (f := Int_part r) in *.
  assert (Hcase : (f = m \/ f = m - 1)%Z).
  { assert ((m - 1 <= f)%Z).
    { apply Z.lt_succ_r. apply lt_IZR. rewrite succ_IZR, minus_IZR. lra. }
    assert ((f <= m)%Z).
    { apply Z.lt_succ_r. apply lt_IZR. rewrite succ_IZR. lra. }
    lia. }
  destruct Hcase as [E|E]; rewrite E in *.
  - destruct (Rlt_dec (r - IZR m) (/ 2)); [reflexivity | lra].
  - rewrite minus_IZR in *.
    destruct (Rlt_dec (r - (IZR m - 1)) (/ 2)); [lra|].
    destruct (Rlt_dec (/ 2) (r - (IZR m - 1))); [lia | lra].
Qed.

Lemma pow2_pos (z : Z) : 0 < powerRZ 2 z.
Proof. apply powerRZ_lt. lra. Qed.

Lemma pow2_exp (z : Z) : powerRZ 2 z = exp (IZR z * ln 2).
Proof. rewrite powerRZ_Rpower by lra. reflexivity. Qed.

Lemma ln2_pos : 0 < ln 2.
Proof. rewrite <- ln_1. apply ln_increasing; lra. Qed.

Lemma pow2_le (a b : Z) : (a <= b)%Z -> powerRZ 2 a <= powerRZ 2 b.
Proof.
  intros Hab. rewrite !pow2_exp. apply exp_le.
  apply Rmult_le_compat_r; [pose proof ln2_pos; lra | now apply IZR_le].
Qed.

Lemma pow2_lt (a b : Z) : (a < b)%Z -> powerRZ 2 a < powerRZ 2 b.
Proof.
  intros Hab. rewrite !pow2_exp. apply exp_increasing.
  apply Rmult_lt_compat_r; [apply ln2_pos | now apply IZR_lt].
Qed.

Lemma pow2_split (a b : Z) : powerRZ 2 (a + b) = powerRZ 2 a * powerRZ 2 b.
Proof. apply powerRZ_add. lra. Qed.

Lemma pow2_cancel (e : Z) : powerRZ 2 (- e) * powerRZ 2 e = 1.
Proof. rewrite <- pow2_split. now replace (- e + e)%Z with 0%Z by lia. Qed.

(** A power of two with a natural exponent is an integer. *)
Lemma pow2_IZR (n : Z) : (0 <= n)%Z -> powerRZ 2 n = IZR (2 ^ n).
Proof.
  intros Hn. rewrite <- (Z2Nat.id n Hn) at 1. rewrite <- pow_powerRZ.
  rewrite <- (Z2Nat.id n Hn) at 2. rewrite <- Zpower_nat_Z.
  generalize (Z.to_nat n). intros k. induction k as [|k IH].
  - reflexivity.
  - rewrite Zpower_nat_succ_r, mult_IZR, <- IH. reflexivity.
Qed.

(** The binade of a number. *)
Lemma floor_log2_bounds (x : R) :
  x <> 0 ->
  powerRZ 2 (floor_log2 x) <= Rabs x < powerRZ 2 (floor_log2 x + 1).
Proof.
  intros Hx. unfold floor_log2.
  assert (Hpos : 0 < Rabs x) by now apply Rabs_pos_lt.
  destruct (base_Int_part (ln (Rabs x) / ln 2)) as [Hlo Hhi].
  set (f := Int_part (ln (Rabs x) / ln 2)) in *.
  pose proof ln2_pos as H2.
  assert (E : ln (Rabs x) / ln 2 * ln 2 = ln (Rabs x)) by (field; lra).
  rewrite !pow2_exp, plus_IZR. rewrite <- (exp_ln (Rabs x) Hpos) at 1 2.
  split.
  - apply exp_le. rewrite <- E. apply Rmult_le_compat_r; lra.
  - apply exp_increasing. rewrite <- E. apply Rmult_lt_compat_r; lra.
Qed.

Lemma floor_log2_eq (x : R) (k : Z) :
  powerRZ 2 k <= Rabs x < powerRZ 2 (k + 1) -> floor_log2 x = k.
Proof.
  intros [Hlo Hhi].
  assert (Hx : x <> 0).
  { intros ->. rewrite Rabs_R0 in Hlo. pose proof (pow2_pos k). lra. }
  destruct (floor_log2_bounds x Hx) as [Flo Fhi].
  destruct (Z.lt_trichotomy (floor_log2 x) k) as [Hlt|[E|Hgt]]; [|exact E|].
  - pose proof (pow2_le (floor_log2 x + 1) k ltac:(lia)). lra.
  - pose proof (pow2_le (k + 1) (floor_log2 x) ltac:(lia)). lra.
Qed.

Lemma floor_log2_le (x : R) (j : Z) :
  x <> 0 -> Rabs x <= powerRZ 2 j -> (floor_log2 x <= j)%Z.
Proof.
  intros Hx Hj. destruct (floor_log2_bounds x Hx) as [Flo _].
  destruct (Z_le_gt_dec (floor_log2 x) j) as [Hle|Hgt]; [exact Hle|].
  pose proof (pow2_lt j (floor_log2 x) ltac:(lia)). lra.
Qed.

Lemma floor_log2_ge (x : R) (j : Z) :
  powerRZ 2 j <= Rabs x -> (j <= floor_log2 x)%Z.
Proof.
  intros Hj.
  assert (Hx : x <> 0).
  { intros ->. rewrite Rabs_R0 in Hj. pose proof (pow2_pos j). lra. }
  destruct (floor_log2_bounds x Hx) as [_ Fhi].
  destruct (Z_le_gt_dec j (floor_log2 x)) as [Hle|Hgt]; [exact Hle|].
  pose proof (pow2_le (floor_log2 x + 1) j ltac:(lia)). lra.
Qed.

(** Rounding keeps a number between two multiples of its last bit. *)
Lemma binary64_between (x : R) (a b : Z) :
  IZR a * powerRZ 2 (ulp_exponent x) <= x <= IZR b * powerRZ 2 (ulp_exponent x) ->
  IZR a * powerRZ 2 (ulp_exponent x) <= binary64 x
                                     <= IZR b * powerRZ 2 (ulp_exponent x).
Proof.
  intros [Ha Hb]. unfold binary64.
  set (e := ulp_exponent x) in *.
  pose proof (pow2_pos e) as He. pose proof (pow2_pos (- e)) as Hne.
  pose proof (pow2_cancel e) as Hc.
  assert (Hra : IZR a <= x * powerRZ 2 (- e)).
  { replace (IZR a) with (IZR a * powerRZ 2 e * powerRZ 2 (- e)) by
      (rewrite Rmult_assoc, (Rmult_comm (powerRZ 2 e)), Hc; lra).
    apply Rmult_le_compat_r; lra. }
  assert (Hrb : x * powerRZ 2 (- e) <= IZR b).
  { replace (IZR b) with (IZR b * powerRZ 2 e * powerRZ 2 (- e)) by
      (rewrite Rmult_assoc, (Rmult_comm (powerRZ 2 e)), Hc; lra).
    apply Rmult_le_compat_r; lra. }
  apply nearest_even_ge in Hra. apply nearest_even_le in Hrb.
  apply IZR_le in Hra. apply IZR_le in Hrb.
  split; apply Rmult_le_compat_r; lra.
Qed.

Lemma binary64_nonneg (x : R) : 0 <= x -> 0 <= binary64 x.
Proof.
  intros Hx. unfold binary64.
  pose proof (pow2_pos (ulp_exponent x)) as He.
  pose proof (pow2_pos (- ulp_exponent x)) as Hne.
  assert (H0 : (0 <= nearest_even (x * powerRZ 2 (- ulp_exponent x)))%Z).
  { apply nearest_even_ge. simpl. nra. }
  apply IZR_le in H0. nra.
Qed.

Lemma binary64_nonpos (x : R) : x <= 0 -> binary64 x <= 0.
Proof.
  intros Hx. unfold binary64.
  pose proof (pow2_pos (ulp_exponent x)) as He.
  pose proof (pow2_pos (- ulp_exponent x)) as Hne.
  assert (H0 : (nearest_even (x * powerRZ 2 (- ulp_exponent x)) <= 0)%Z).
  { apply nearest_even_le. simpl. nra. }
  apply IZR_le in H0. nra.
Qed.

(** The last bit of a number of magnitude at most [2^j] is at most [2^j]. *)
Lemma ulp_exponent_le (x : R) (j : Z) :
  x <> 0 -> Rabs x <= powerRZ 2 j -> (-1074 <= j)%Z ->
  (ulp_exponent x <= j)%Z.
Proof.
  intros Hx Hj Hmin. pose proof (floor_log2_le x j Hx Hj).
  unfold ulp_exponent. lia.
Qed.

Lemma ulp_exponent_binade (x : R) :
  (-1074 <= floor_log2 x)%Z -> (ulp_exponent x <= floor_log2 x)%Z.
Proof. unfold ulp_exponent. lia. Qed.

Lemma pow2_multiple (j e : Z) :
  (e <= j)%Z -> powerRZ 2 j = IZR (2 ^ (j - e)) * powerRZ 2 e.
Proof.
  intros Hle. rewrite <- pow2_IZR by lia. rewrite <- pow2_split.
  f_equal. lia.
Qed.

(** Rounding does not cross a power of two. *)
Lemma binary64_le_pow2 (x : R) (j : Z) :
  (-1074 <= j)%Z -> x <= powerRZ 2 j -> binary64 x <= powerRZ 2 j.
Proof.
  intros Hmin Hx. pose proof (pow2_pos j) as Hj.
  destruct (Rle_lt_dec x 0) as [Hneg|Hpos].
  - pose proof (binary64_nonpos x Hneg). lra.
  - assert (He : (ulp_exponent x <= j)%Z).
    { apply ulp_exponent_le; [lra | rewrite Rabs_pos_eq; lra | exact Hmin]. }
    rewrite (pow2_multiple j _ He) in *.
    apply (binary64_between x 0 (2 ^ (j - ulp_exponent x))).
    pose proof (pow2_pos (ulp_exponent x)). split; [simpl; nra | exact Hx].
Qed.

Lemma binary64_ge_pow2 (x : R) (j : Z) :
  (-1074 <= j)%Z -> powerRZ 2 j <= x -> powerRZ 2 j <= binary64 x.
Proof.
  intros Hmin Hx. pose proof (pow2_pos j) as Hj.
  assert (Hx0 : x <> 0) by lra.
  assert (Habs : Rabs x = x) by (apply Rabs_pos_eq; lra).
  assert (Hfl : (j <= floor_log2 x)%Z) by (apply floor_log2_ge; lra).
  destruct (floor_log2_bounds x Hx0) as [Flo _]. rewrite Habs in Flo.
  assert (He : (ulp_exponent x <= floor_log2 x)%Z)
    by (apply ulp_exponent_binade; lia).
  apply Rle_trans with (powerRZ 2 (floor_log2 x)); [now apply pow2_le|].
  rewrite (pow2_multiple (floor_log2 x) _ He) in *.
  destruct (archimed (x * powerRZ 2 (- ulp_exponent x))) as [Hup _].
  apply (binary64_between x (2 ^ (floor_log2 x - ulp_exponent x))
                          (up (x * powerRZ 2 (- ulp_exponent x)))).
  split; [exact Flo|].
  pose proof (pow2_pos (ulp_exponent x)) as Hp.
  pose proof (pow2_cancel (ulp_exponent x)) as Hc.
  apply Rlt_le.
  replace x with (x * powerRZ 2 (- ulp_exponent x) * powerRZ 2 (ulp_exponent x)) at 1
    by (rewrite Rmult_assoc, Hc; lra).
  apply Rmult_lt_compat_r; lra.
Qed.

Lemma binary64_ge_neg_pow2 (x : R) (j : Z) :
  (-1074 <= j)%Z -> - powerRZ 2 j <= x -> - powerRZ 2 j <= binary64 x.
Proof.
  intros Hmin Hx. pose proof (pow2_pos j) as Hj.
  destruct (Rle_lt_dec 0 x) as [Hpos|Hneg].
  - pose proof (binary64_nonneg x Hpos). lra.
  - assert (He : (ulp_exponent x <= j)%Z).
    { apply ulp_exponent_le; [lra | rewrite Rabs_left; lra | exact Hmin]. }
    rewrite (pow2_multiple j _ He) in *.
    rewrite Ropp_mult_distr_l, <- opp_IZR in Hx |- *.
    apply (binary64_between x (- 2 ^ (j - ulp_exponent x)) 0).
    pose proof (pow2_pos (ulp_exponent x)). split; [exact Hx | simpl; nra].
Qed.

Lemma binary64_le_neg_pow2 (x : R) (j : Z) :
  (-1074 <= j)%Z -> x <= - powerRZ 2 j -> binary64 x <= - powerRZ 2 j.
Proof.
  intros Hmin Hx. pose proof (pow2_pos j) as Hj.
  assert (Hx0 : x <> 0) by lra.
  assert (Habs : Rabs x = - x) by (apply Rabs_left; lra).
  assert (Hfl : (j <= floor_log2 x)%Z) by (apply floor_log2_ge; lra).
  destruct (floor_log2_bounds x Hx0) as [Flo _]. rewrite Habs in Flo.
  assert (He : (ulp_exponent x <= floor_log2 x)%Z)
    by (apply ulp_exponent_binade; lia).
  apply Rle_trans with (- powerRZ 2 (floor_log2 x));
    [|pose proof (pow2_le j _ Hfl); lra].
  rewrite (pow2_multiple (floor_log2 x) _ He) in *.
  rewrite Ropp_mult_distr_l, <- opp_IZR.
  destruct (base_Int_part (x * powerRZ 2 (- ulp_exponent x))) as [Hlow _].
  apply (binary64_between x (Int_part (x * powerRZ 2 (- ulp_exponent x)))
                          (- 2 ^ (floor_log2 x - ulp_exponent x))).
  split; [|rewrite opp_IZR; lra].
  pose proof (pow2_pos (ulp_exponent x)) as Hp.
  pose proof (pow2_cancel (ulp_exponent x)) as Hc.
  apply Rle_trans
    with (x * powerRZ 2 (- ulp_exponent x) * powerRZ 2 (ulp_exponent x)).
  - apply Rmult_le_compat_r; lra.
  - rewrite Rmult_assoc, Hc. lra.
Qed.

End Binary64.

Section Binary64Values.

Local Open Scope R_scope.

(** The rounding of a number whose binade is known. *)
Lemma binary64_eval (x : R) (k m : Z) :
  powerRZ 2 k <= Rabs x < powerRZ 2 (k + 1) ->
  (-1022 <= k)%Z ->
  Rabs (x * powerRZ 2 (52 - k) - IZR m) < / 2 ->
  binary64 x = IZR m * powerRZ 2 (k - 52).
Proof.
  intros Hk Hn Hm. unfold binary64, ulp_exponent.
  rewrite (floor_log2_eq x k Hk).
  replace (Z.max (k - 52) (-1074)) with (k - 52)%Z by lia.
  replace (- (k - 52))%Z with (52 - k)%Z by lia.
  now rewrite (nearest_even_near _ m Hm).
Qed.

Lemma pow2_53 : powerRZ 2 53 = 9007199254740992.
Proof. rewrite pow2_IZR by lia. reflexivity. Qed.

Lemma pow2_52 : powerRZ 2 52 = 4503599627370496.
Proof. rewrite pow2_IZR by lia. reflexivity. Qed.

Lemma pow2_m53 : powerRZ 2 (-53) = / 9007199254740992.
Proof.
  change (-53)%Z with (- (53))%Z. now rewrite powerRZ_neg', pow2_53.
Qed.

Lemma pow2_m52 : powerRZ 2 (-52) = / 4503599627370496.
Proof.
  change (-52)%Z with (- (52))%Z. now rewrite powerRZ_neg', pow2_52.
Qed.

Lemma binary64_minus_one : binary64 (-1) = -1.
Proof.
  rewrite (binary64_eval (-1) 0 (-4503599627370496)).
  - change (0 - 52)%Z with (-52)%Z. rewrite pow2_m52. lra.
  - rewrite Rabs_left by lra. simpl. lra.
  - lia.
  - change (52 - 0)%Z with 52%Z. rewrite pow2_52.
    replace (-1 * 4503599627370496 - -4503599627370496) with 0 by lra.
    rewrite Rabs_R0. lra.
Qed.

(** Just above -1 the nearest binary64 number is -1. *)
Lemma binary64_above_minus_one (y : R) :
  -1 <= y <= -1 + / 36028797018963968 -> binary64 y = -1.
Proof.
  intros [Hlo Hhi].
  destruct (Req_dec_T y (-1)) as [->|Hne]; [apply binary64_minus_one|].
  rewrite (binary64_eval y (-1) (-9007199254740992)).
  - change (-1 - 52)%Z with (-53)%Z. rewrite pow2_m53. lra.
  - rewrite Rabs_left by lra. simpl. lra.
  - lia.
  - change (52 - -1)%Z with 53%Z. rewrite pow2_53.
    apply Rabs_def1; lra.
Qed.

(** Just below 1 the nearest binary64 number is 1. *)
Lemma binary64_below_one (x : R) :
  1 - / 36028797018963968 <= x < 1 -> binary64 x = 1.
Proof.
  intros [Hlo Hhi].
  rewrite (binary64_eval x (-1) 9007199254740992).
  - change (-1 - 52)%Z with (-53)%Z. rewrite pow2_m53. lra.
  - rewrite Rabs_pos_eq by lra. simpl. lra.
  - lia.
  - change (52 - -1)%Z with 53%Z. rewrite pow2_53.
    apply Rabs_def1; lra.
Qed.

Lemma binary64_zero : binary64 0 = 0.
Proof.
  pose proof (binary64_nonneg 0). pose proof (binary64_nonpos 0). lra.
Qed.

Lemma ln2_le_1 : ln 2 <= 1.
Proof.
  apply Rle_trans with (ln (exp 1)); [|rewrite ln_exp; lra].
  apply ln_le; [lra|]. pose proof (exp_ineq1_le 1). lra.
Qed.

Lemma exp_le_pow2 (z : Z) : (z <= 0)%Z -> exp (IZR z) <= powerRZ 2 z.
Proof.
  intros Hz. rewrite pow2_exp. apply exp_le.
  apply IZR_le in Hz. pose proof ln2_le_1. pose proof ln2_pos. nra.
Qed.

Lemma exp_minus_one_le_half : exp (-1) <= / 2.
Proof.
  pose proof (exp_le_pow2 (-1) ltac:(lia)) as Hle. simpl in Hle. lra.
Qed.

End Binary64Values.

(** C10, as the code has it.  Over the real numbers [exp(t) - 1] is
    strictly greater than -1 and nonnegative exactly when [t >= 0].  The
    cell computes it in binary64, where the two strict statements become
    weak: the result is at least -1, nonnegative when [t >= 0] and at most
    zero when [t <= 0]; for [t <= -1] it is at most -1/2, so a negative
    prediction on the transformed scale gives a negative prediction on the
    raw scale. *)
Theorem inverse_bound (t : R) :
  inverse_cell (Num t) = Ok (Num (inverse t))
  /\ inverse_cell_binary64 (Num t) = Ok (Num (fl_inverse binary64 t))
  /\ (-1 < inverse t)%R
  /\ ((0 <= inverse t)%R <-> (0 <= t)%R)
  /\ (-1 <= fl_inverse binary64 t)%R
  /\ ((0 <= t)%R -> (0 <= fl_inverse binary64 t)%R)
  /\ ((t <= 0)%R -> (fl_inverse binary64 t <= 0)%R)
  /\ ((t <= -1)%R -> (fl_inverse binary64 t <= - / 2)%R).
Proof.
  assert (Hneg : forall x, (x < 0)%R -> (inverse x < 0)%R).
  { intros x Hx. unfold inverse.
    pose proof (exp_increasing x 0 Hx) as Hlt. rewrite exp_0 in Hlt. lra. }
  split; [reflexivity|]. split; [reflexivity|].
  split; [|split; [|split; [|split; [|split]]]].
  - unfold inverse. pose proof (exp_pos t). lra.
  - split.
    + intros Hi. destruct (Rlt_le_dec t 0) as [Hlt|Hge]; [|exact Hge].
      specialize (Hneg t Hlt). lra.
    + intros [Hlt|Heq].
      * unfold inverse. pose proof (exp_increasing 0 t Hlt) as Hi.
        rewrite exp_0 in Hi. lra.
      * subst t. unfold inverse. rewrite exp_0. lra.
  - unfold fl_inverse.
    pose proof (binary64_nonneg (exp t) (Rlt_le _ _ (exp_pos t))) as Ha.
    pose proof (binary64_ge_neg_pow2 (binary64 (exp t) - 1) 0 ltac:(lia)) as Hb.
    simpl in Hb. apply Hb. lra.
  - intros Ht. unfold fl_inverse. apply binary64_nonneg.
    pose proof (binary64_ge_pow2 (exp t) 0 ltac:(lia)) as Ha. simpl in Ha.
    assert ((1 <= exp t)%R) by (rewrite <- exp_0; now apply exp_le).
    specialize (Ha ltac:(assumption)). lra.
  - intros Ht. unfold fl_inverse. apply binary64_nonpos.
    pose proof (binary64_le_pow2 (exp t) 0 ltac:(lia)) as Ha. simpl in Ha.
    assert ((exp t <= 1)%R) by (rewrite <- exp_0; now apply exp_le).
    specialize (Ha ltac:(assumption)). lra.
  - intros Ht. unfold fl_inverse.
    assert (He : (exp t <= / 2)%R).
    { apply Rle_trans with (exp (-1)); [now apply exp_le|].
      apply exp_minus_one_le_half. }
    pose proof (binary64_le_pow2 (exp t) (-1) ltac:(lia)) as Ha.
    pose proof (binary64_le_neg_pow2 (binary64 (exp t) - 1) (-1) ltac:(lia)) as Hb.
    simpl in Ha, Hb. replace (2 * 1)%R with 2%R in Ha, Hb by lra.
    apply Hb. specialize (Ha He). lra.
Qed.

(** C10 as stated fails in binary64: at [t = -100] the cell returns -1
    itself, which is not strictly greater than -1, and at [t = -2^-60], a
    negative prediction, it returns 0, which is nonnegative. *)
Lemma inverse_reaches_minus_one :
  inverse_cell_binary64 (Num (-100)) = Ok (Num (-1))
  /\ inverse_cell_binary64 (Num (- / 1152921504606846976)) = Ok (Num 0).
Proof.
  unfold inverse_cell_binary64, fl_inverse. split; do 2 f_equal.
  - apply binary64_above_minus_one.
    pose proof (binary64_nonneg (exp (-100)) (Rlt_le _ _ (exp_pos _))) as Hlo.
    pose proof (binary64_le_pow2 (exp (-100)) (-100) ltac:(lia)
                  (exp_le_pow2 (-100) ltac:(lia))) as Hhi.
    assert (Hp : (powerRZ 2 (-100) <= / 36028797018963968)%R).
    { apply Rle_trans with (powerRZ 2 (-55)); [apply pow2_le; lia|].
      change (-55)%Z with (- (55))%Z. rewrite powerRZ_neg', pow2_IZR by lia.
      apply Req_le. reflexivity. }
    lra.
  - rewrite (binary64_below_one (exp (- / 1152921504606846976))).
    + replace (1 - 1)%R with 0%R by lra. apply binary64_zero.
    + split.
      * pose proof (exp_ineq1_le (- / 1152921504606846976)). lra.
      * rewrite <- exp_0. apply exp_increasing. lra.
Qed.

(** ** The split *)

Section Tail.

Variable by_ : string.
Variable n : nat.

Local Arguments Nat.sub : simpl never.

Lemma tail_rows_incl (l : list (nat * row)) :
  incl (tail_rows by_ n l) l.
Proof.
  induction l as [|lr rest IH]; simpl; [apply incl_refl|].
  destruct (in_tail by_ n lr rest).
  - apply incl_cons; [now left | now apply incl_tl].
  - now apply incl_tl.
Qed.

(** The rows of a group that [tail] selects are its last [n]. *)
Lemma tail_rows_group (k : cell) (l : list (nat * row)) :
  isnan k = false ->
  filter (in_group by_ k) (tail_rows by_ n l)
  = skipn (group_size by_ k l - n) (filter (in_group by_ k) l).
Proof.
  intros Hk. unfold group_size.
  induction l as [|lr rest IH]; [reflexivity|].
  simpl. unfold in_tail, group_size.
  destruct (in_group by_ k lr) eqn:Eg.
  - unfold in_group in Eg. apply cell_eqb_eq in Eg. rewrite Eg, Hk. simpl.
    destruct (Nat.ltb_spec (length (filter (in_group by_ k) rest)) n) as [Hlt|Hge].
    + simpl. unfold in_group at 1. rewrite Eg, cell_eqb_refl.
      rewrite IH.
      replace (length (filter (in_group by_ k) rest) - n) with 0 by lia.
      replace (S (length (filter (in_group by_ k) rest)) - n) with 0 by lia.
      reflexivity.
    + rewrite IH.
      replace (S (length (filter (in_group by_ k) rest)) - n)
        with (S (length (filter (in_group by_ k) rest) - n)) by lia.
      reflexivity.
  - destruct (negb (isnan (get by_ (snd lr)))
              && (length (filter (in_group by_ (get by_ (snd lr))) rest) <? n)).
    + simpl. rewrite Eg. exact IH.
    + exact IH.
Qed.

(** The rows of a group that [tail] leaves are all but its last [n]. *)
Lemma head_rows_group (k : cell) (l : list (nat * row)) :
  isnan k = false ->
  filter (in_group by_ k) (head_rows by_ n l)
  = firstn (group_size by_ k l - n) (filter (in_group by_ k) l).
Proof.
  intros Hk. unfold group_size.
  induction l as [|lr rest IH]; [reflexivity|].
  simpl. unfold in_tail, group_size.
  destruct (in_group by_ k lr) eqn:Eg.
  - unfold in_group in Eg. apply cell_eqb_eq in Eg. rewrite Eg, Hk. simpl.
    destruct (Nat.ltb_spec (length (filter (in_group by_ k) rest)) n) as [Hlt|Hge].
    + rewrite IH.
      replace (length (filter (in_group by_ k) rest) - n) with 0 by lia.
      replace (S (length (filter (in_group by_ k) rest)) - n) with 0 by lia.
      reflexivity.
    + simpl. unfold in_group at 1. rewrite Eg, cell_eqb_refl.
      rewrite IH.
      replace (S (length (filter (in_group by_ k) rest)) - n)
        with (S (length (filter (in_group by_ k) rest) - n)) by lia.
      reflexivity.
  - destruct (negb (isnan (get by_ (snd lr)))
              && (length (filter (in_group by_ (get by_ (snd lr))) rest) <? n)).
    + exact IH.
    + simpl. rewrite Eg. exact IH.
Qed.

(** Dropping the labels of the selected rows leaves the other rows, when
    no two rows share a label. *)
Lemma drop_tail_rows (l : list (nat * row)) :
  NoDup (map fst l) ->
  filter (fun lr => negb (memn (fst lr) (map fst (tail_rows by_ n l)))) l
  = head_rows by_ n l.
Proof.
  induction l as [|lr rest IH]; [reflexivity|].
  intros Hnd. inversion Hnd as [|i is_ Hnotin Hnd']; subst.
  assert (Hrest : forall L,
    filter (fun x => negb (memn (fst x) (fst lr :: L))) rest
    = filter (fun x => negb (memn (fst x) L)) rest).
  { intros L. apply filter_ext_in. intros x Hx. simpl.
    destruct (Nat.eqb_spec (fst x) (fst lr)) as [E|_]; [|reflexivity].
    exfalso. apply Hnotin. rewrite <- E. now apply in_map. }
  simpl. destruct (in_tail by_ n lr rest) eqn:Et.
  - simpl. rewrite Nat.eqb_refl. simpl.
    exact (eq_trans (Hrest _) (IH Hnd')).
  - assert (Hno : memn (fst lr) (map fst (tail_rows by_ n rest)) = false).
    { destruct (memn (fst lr) (map fst (tail_rows by_ n rest))) eqn:Em;
        [|reflexivity].
      exfalso. apply memn_In in Em. apply Hnotin.
      apply in_map_iff in Em. destruct Em as [x [Ex Hx]].
      rewrite <- Ex. apply in_map. now apply (tail_rows_incl rest). }
    rewrite Hno. simpl. f_equal. now apply IH.
Qed.

Lemma tail_labels_known (l : list (nat * row)) :
  filter (fun i => negb (memn i (map fst l))) (map fst (tail_rows by_ n l)) = [].
Proof.
  assert (G : forall L, incl L (map fst l) ->
              filter (fun i => negb (memn i (map fst l))) L = []).
  { induction L as [|i L IH]; intros Hincl; [reflexivity|].
    simpl. assert (Hi : memn i (map fst l) = true).
    { apply memn_In, Hincl. now left. }
    rewrite Hi. simpl. apply IH. intros x Hx. apply Hincl. now right. }
  apply G. intros i Hi. apply in_map_iff in Hi. destruct Hi as [x [Ex Hx]].
  subst i. apply in_map. now apply tail_rows_incl.
Qed.

End Tail.

Lemma values_range_index (rs : list row) : map snd (range_index rs) = rs.
Proof.
  unfold range_index. generalize 0.
  induction rs as [|r rs IH]; intros s; simpl; [reflexivity|].
  now rewrite IH.
Qed.

Lemma length_range_index (rs : list row) : length (range_index rs) = length rs.
Proof.
  rewrite <- (length_map snd). now rewrite values_range_index.
Qed.

Lemma filter_values (by_ : string) (k : cell) (l : list (nat * row)) :
  map snd (filter (in_group by_ k) l)
  = filter (fun r => cell_eqb (get by_ r) k) (map snd l).
Proof.
  induction l as [|lr l IH]; simpl; [reflexivity|].
  unfold in_group at 1. destruct (cell_eqb (get by_ (snd lr)) k); simpl;
    now rewrite IH.
Qed.

(** What the split returns, on any frame with unique labels that has the
    identifier column: the selected rows and the rest, relabelled. *)
Lemma split_returns (h : nat) (df : DataFrame) :
  unique_index df ->
  In "unique_id" (columns df) ->
  split h df
  = Ok (mkDF (columns df) (tail_rows "unique_id" h (records df)),
        mkDF (columns df)
             (range_index (map snd (head_rows "unique_id" h (records df))))).
Proof.
  intros Hu Hc. unfold split, groupby_tail.
  rewrite require_columns_ok by (intros c [<-|[]]; exact Hc).
  simpl. unfold drop, index. simpl.
  rewrite tail_labels_known.
  rewrite drop_tail_rows by exact Hu.
  reflexivity.
Qed.

Lemma series_tail (h : nat) (id : string) (df : DataFrame) :
  series id (mkDF (columns df) (tail_rows "unique_id" h (records df)))
  = skipn (length (series id df) - h) (series id df).
Proof.
  unfold series, values. simpl.
  rewrite <- !filter_values.
  rewrite tail_rows_group by reflexivity.
  unfold group_size. rewrite <- skipn_map. now rewrite length_map.
Qed.

Lemma series_head (h : nat) (id : string) (df : DataFrame) :
  series id (mkDF (columns df)
                  (range_index (map snd (head_rows "unique_id" h (records df)))))
  = firstn (length (series id df) - h) (series id df).
Proof.
  unfold series, values. simpl.
  rewrite values_range_index.
  rewrite <- !filter_values.
  rewrite head_rows_group by reflexivity.
  unfold group_size. rewrite <- firstn_map. now rewrite length_map.
Qed.

Lemma before_irrefl (a : row) : ~ before a a.
Proof. unfold before. destruct (get "ds" a); try tauto. lia. Qed.

Lemma chronological_app (a b : list row) :
  chronological (a ++ b) ->
  forall x y, In x a -> In y b -> before x y.
Proof.
  unfold chronological. induction a as [|r a IH]; intros Hs x y Hx Hy.
  - destruct Hx.
  - simpl in Hs. inversion Hs as [|r' l' Hs' Hall]; subst.
    destruct Hx as [<-|Hx].
    + rewrite Forall_forall in Hall. apply Hall. apply in_or_app. now right.
    + now apply IH.
Qed.

Lemma index_range_index (rs : list row) :
  map fst (range_index rs) = seq 0 (length rs).
Proof.
  unfold range_index. generalize 0.
  induction rs as [|r rs IH]; intros s; simpl; [reflexivity|].
  now rewrite IH.
Qed.

Lemma panel_unique_index (rs : list row) : unique_index (panel rs).
Proof.
  unfold unique_index, index, panel. simpl.
  rewrite index_range_index. apply seq_NoDup.
Qed.

Lemma panel_has_id (rs : list row) : In "unique_id" (columns (panel rs)).
Proof. simpl. now left. Qed.

(** The split raises for one reason only: the identifier column is missing. *)
Lemma split_raises (h : nat) (df : DataFrame) (e : exn) :
  split h df = Raise e -> e = KeyError "unique_id".
Proof.
  unfold split, groupby_tail, require_columns. simpl.
  destruct (mem "unique_id" (columns df)); simpl.
  - unfold drop, index. simpl. rewrite tail_labels_known. discriminate.
  - now intros [= <-].
Qed.

(** C2, as the code has it.  On a panel (unique index labels, an identifier
    column) the split with horizon [H] = 28 succeeds, and for every series:
    the series is its input part followed by its holdout part, so the two
    are disjoint and their lengths add up; the holdout has [min H n] of the
    [n] records, hence exactly [H] when the series has at least [H]; and
    when the timestamps of the series increase, every input record is
    strictly earlier than, and different from, every holdout record. *)
Theorem split_partition (df : DataFrame) (id : string) :
  unique_index df ->
  In "unique_id" (columns df) ->
  exists test_df input_df,
    split H df = Ok (test_df, input_df)
    /\ series id input_df ++ series id test_df = series id df
    /\ length (series id test_df) = Nat.min H (length (series id df))
    /\ length (series id input_df) + length (series id test_df)
       = length (series id df)
    /\ (H <= length (series id df) -> length (series id test_df) = H)
    /\ (chronological (series id df) ->
        forall a b, In a (series id input_df) -> In b (series id test_df) ->
                    before a b /\ a <> b).
Proof.
  intros Hu Hc.
  eexists. eexists. split; [apply split_returns; assumption|].
  rewrite series_tail, series_head.
  set (s := series id df).
  assert (Happ : firstn (length s - H) s ++ skipn (length s - H) s = s)
    by apply firstn_skipn.
  assert (Hlen : length (skipn (length s - H) s) = Nat.min H (length s))
    by (rewrite length_skipn; lia).
  split; [exact Happ|]. split; [exact Hlen|]. split; [|split].
  - rewrite <- length_app. now rewrite Happ.
  - intros Hge. rewrite Hlen. lia.
  - intros Hch a b Ha Hb.
    assert (Hab : before a b)
      by (apply (chronological_app _ _ (eq_ind_r chronological Hch Happ));
          assumption).
    split; [exact Hab|]. intros ->. now apply (before_irrefl b).
Qed.

Lemma split_partition_witness :
  exists test_df input_df,
    split H long_panel = Ok (test_df, input_df)
    /\ series "A" input_df ++ series "A" test_df = series "A" long_panel
    /\ length (series "A" test_df) = Nat.min H (length (series "A" long_panel))
    /\ length (series "A" input_df) + length (series "A" test_df)
       = length (series "A" long_panel)
    /\ (H <= length (series "A" long_panel) -> length (series "A" test_df) = H)
    /\ (chronological (series "A" long_panel) ->
        forall a b, In a (series "A" input_df) -> In b (series "A" test_df) ->
                    before a b /\ a <> b).
Proof.
  apply (split_partition long_panel "A").
  - apply panel_unique_index.
  - apply panel_has_id.
Defined.

(** C2 as stated fails: a series of three records gets a holdout of three
    records, not of [H] = 28, and an empty input. *)
Lemma split_short_series :
  rmap (fun p => (length (series "A" (fst p)), length (series "A" (snd p))))
       (split H short_panel)
  = Ok (3, 0).
Proof.
  unfold short_panel.
  rewrite split_returns by (apply panel_unique_index || apply panel_has_id).
  reflexivity.
Qed.

(** C4, as the code has it.  The split knows no insufficient-history error:
    the only exception it can raise is the [KeyError] of a missing identifier
    column, and on a panel it succeeds whatever the lengths of the series.  A
    series of [n] records gets a holdout of [min H n] records and an input
    of [n - H]: with [H + 1] records the input has length 1, and with [H]
    records or fewer the whole series is the holdout and the input is empty. *)
Theorem split_keeps_short_series (df : DataFrame) (id : string) :
  unique_index df ->
  In "unique_id" (columns df) ->
  (forall e, split H df = Raise e -> e = KeyError "unique_id")
  /\ exists test_df input_df,
    split H df = Ok (test_df, input_df)
    /\ length (series id test_df) = Nat.min H (length (series id df))
    /\ length (series id input_df) = length (series id df) - H
    /\ (length (series id df) = H + 1 -> length (series id input_df) = 1)
    /\ (length (series id df) <= H ->
        series id input_df = [] /\ series id test_df = series id df).
Proof.
  intros Hu Hc. split; [intros e; apply split_raises|].
  eexists. eexists. split; [apply split_returns; assumption|].
  rewrite series_tail, series_head.
  set (s := series id df).
  assert (Hin : length (firstn (length s - H) s) = length s - H)
    by (rewrite length_firstn; lia).
  split; [rewrite length_skipn; lia|]. split; [exact Hin|]. split.
  - intros E. rewrite Hin. lia.
  - intros Hle. replace (length s - H) with 0 by lia. now split.
Qed.

Lemma split_keeps_short_series_witness :
  (forall e, split H exact_panel = Raise e -> e = KeyError "unique_id")
  /\ exists test_df input_df,
    split H exact_panel = Ok (test_df, input_df)
    /\ length (series "A" test_df) = Nat.min H (length (series "A" exact_panel))
    /\ length (series "A" input_df) = length (series "A" exact_panel) - H
    /\ (length (series "A" exact_panel) = H + 1 ->
        length (series "A" input_df) = 1)
    /\ (length (series "A" exact_panel) <= H ->
        series "A" input_df = [] /\ series "A" test_df = series "A" exact_panel).
Proof.
  apply (split_keeps_short_series exact_panel "A").
  - apply panel_unique_index.
  - apply panel_has_id.
Defined.

(** C4 as stated fails: a series of exactly [H] = 28 records does not make
    the split fail; it succeeds with a holdout of 28 records and an empty
    input. *)
Lemma split_exact_series_succeeds :
  rmap (fun p => (length (series "A" (fst p)), length (series "A" (snd p))))
       (split H exact_panel)
  = Ok (28, 0).
Proof.
  unfold exact_panel.
  rewrite split_returns by (apply panel_unique_index || apply panel_has_id).
  reflexivity.
Qed.

(** ** The joins *)

Arguments mem : simpl never.

Lemma key_eqb_eq (a b : list cell) : key_eqb a b = true <-> a = b.
Proof.
  revert b. induction a as [|x a IH]; intros [|y b]; simpl;
    split; intros E; try discriminate; try reflexivity.
  - apply andb_true_iff in E. destruct E as [E1 E2].
    apply cell_eqb_eq in E1. apply IH in E2. now subst.
  - injection E as -> ->. rewrite cell_eqb_refl. simpl. now apply IH.
Qed.

Lemma matches_eq (on : list string) (l r : row) :
  matches on l r = true <-> key on l = key on r.
Proof. apply key_eqb_eq. Qed.

Lemma unique_keys_filter (on : list string) (rs : list row) (l : row) :
  unique_keys on rs = true ->
  filter (matches on l) rs
  = match find (matches on l) rs with Some r => [r] | None => [] end.
Proof.
  induction rs as [|r rs IH]; simpl; [reflexivity|].
  intros Hu. apply andb_true_iff in Hu. destruct Hu as [Hr Hu].
  destruct (matches on l r) eqn:Em.
  - f_equal. apply negb_true_iff in Hr.
    assert (Hnone : forall r', In r' rs -> matches on l r' = false).
    { intros r' Hr'. destruct (matches on l r') eqn:Em'; [|reflexivity].
      apply matches_eq in Em, Em'.
      assert (Hrr : matches on r r' = true) by (apply matches_eq; congruence).
      assert (Hex : existsb (matches on r) rs = true)
        by (apply existsb_exists; eauto).
      congruence. }
    clear -Hnone. induction rs as [|r' rs IH]; simpl; [reflexivity|].
    rewrite (Hnone r') by now left.
    apply IH. intros x Hx. apply Hnone. now right.
  - now apply IH.
Qed.

Lemma joined_one (on ov rcs : list string) (rrows : list row) (l : row) :
  unique_keys on rrows = true ->
  joined on ov rcs rrows l = [join_one on ov rcs rrows l].
Proof.
  intros Hu. unfold joined, join_one.
  rewrite (unique_keys_filter on rrows l Hu).
  now destruct (find (matches on l) rrows).
Qed.

Lemma flat_map_singleton {A B : Type} (f : A -> list B) (g : A -> B)
  (l : list A) :
  (forall a, f a = [g a]) -> flat_map f l = map g l.
Proof.
  intros Hf. induction l as [|a l IH]; simpl; [reflexivity|].
  now rewrite Hf, IH.
Qed.

Lemma last_ascii_append (c : string) (a b : Ascii.ascii) :
  last_ascii (c ++ String a (String b EmptyString)) = Some b.
Proof.
  induction c as [|x c IH]; [reflexivity|].
  simpl. destruct (c ++ String a (String b EmptyString))%string eqn:E.
  - destruct c; discriminate.
  - exact IH.
Qed.

(** A suffixed column name is not one of the join keys. *)
Lemma suffix_not_key (c k : string) :
  In k join_key ->
  (c ++ "_x")%string <> k /\ (c ++ "_y")%string <> k.
Proof.
  intros Hk. split; intros E; apply (f_equal last_ascii) in E;
    rewrite last_ascii_append in E;
    destruct Hk as [<-|[<-|[]]]; discriminate.
Qed.

Lemma get_app (c : string) (a b : row) :
  get c b = NaN -> get c (a ++ b) = get c a.
Proof.
  intros Hb. induction a as [|[k v] a IH]; simpl; [exact Hb|].
  destruct (String.eqb k c); [reflexivity | exact IH].
Qed.

Lemma get_left_part (ov : list string) (k : string) (l : row) :
  In k join_key -> (forall c, In c ov -> ~ In c join_key) ->
  get k (left_part ov l) = get k l.
Proof.
  intros Hk Hov. induction l as [|[c v] l IH]; simpl; [reflexivity|].
  unfold suffixed. destruct (mem c ov) eqn:Em.
  - apply mem_In in Em.
    destruct (String.eqb_spec (c ++ "_x") k) as [E|_].
    + now destruct (suffix_not_key c k Hk).
    + destruct (String.eqb_spec c k) as [E|_]; [|exact IH].
      subst c. exfalso. now apply (Hov k).
  - destruct (String.eqb c k); [reflexivity | exact IH].
Qed.

Lemma get_right_names (ov : list string) (k : string) (cs : list string)
  (f : string -> cell) :
  In k join_key ->
  get k (map (fun c => (suffixed ov "_y" c, f c))
             (filter (fun c => negb (mem c join_key)) cs)) = NaN.
Proof.
  intros Hk. induction cs as [|c cs IH]; simpl; [reflexivity|].
  destruct (mem c join_key) eqn:Em; simpl; [exact IH|].
  unfold suffixed at 1. destruct (mem c ov).
  - destruct (String.eqb_spec (c ++ "_y") k) as [E|_]; [|exact IH].
    now destruct (suffix_not_key c k Hk).
  - destruct (String.eqb_spec c k) as [E|_]; [|exact IH].
    subst c. apply mem_In in Hk. congruence.
Qed.

Lemma overlap_not_key (on : list string) (l r : DataFrame) (c : string) :
  In c (overlap on l r) -> ~ In c on.
Proof.
  unfold overlap. intros Hc Hon. apply filter_In in Hc.
  destruct Hc as [_ Hc]. apply andb_true_iff in Hc. destruct Hc as [Hc _].
  apply negb_true_iff in Hc. apply mem_In in Hon. congruence.
Qed.

(** A joined row has the key of the left row it comes from. *)
Lemma key_joined_row (left right : DataFrame) (cs : list string)
  (f : string -> cell) (l : row) :
  key join_key
      (left_part (overlap join_key left right) l
       ++ map (fun c => (suffixed (overlap join_key left right) "_y" c, f c))
              (filter (fun c => negb (mem c join_key)) cs))
  = key join_key l.
Proof.
  unfold key. apply map_ext_in. intros k Hk.
  rewrite get_app by now apply get_right_names.
  apply get_left_part; [exact Hk|]. intros c. apply overlap_not_key.
Qed.

Lemma key_join_one (left right : DataFrame) (l : row) :
  key join_key
      (join_one join_key (overlap join_key left right) (columns right)
                (values right) l)
  = key join_key l.
Proof.
  unfold join_one.
  destruct (find (matches join_key l) (values right)) as [r|].
  - apply (key_joined_row left right (columns right) (fun c => get c r)).
  - apply (key_joined_row left right (columns right) (fun _ => NaN)).
Qed.

Lemma missing_key_none (left right : DataFrame) (on : list string) :
  (forall c, In c on -> In c (columns left)) ->
  (forall c, In c on -> In c (columns right)) ->
  missing_key left right on = None.
Proof.
  intros Hl Hr. unfold missing_key.
  induction on as [|c on IH]; simpl; [reflexivity|].
  assert (El : mem c (columns left) = true) by (apply mem_In, Hl; now left).
  assert (Er : mem c (columns right) = true) by (apply mem_In, Hr; now left).
  rewrite El, Er. simpl.
  apply IH; intros x Hx; [apply Hl | apply Hr]; now right.
Qed.

Lemma merge_left_returns (left right : DataFrame) (on : list string) :
  (forall c, In c on -> In c (columns left)) ->
  (forall c, In c on -> In c (columns right)) ->
  existsb (dtype_clash left right) on = false ->
  suffix_clash left right on = false ->
  merge_left left right on
  = Ok (mkDF (map (suffixed (overlap on left right) "_x") (columns left)
              ++ map (suffixed (overlap on left right) "_y")
                     (filter (fun c => negb (mem c on)) (columns right)))
             (range_index
                (flat_map (joined on (overlap on left right) (columns right)
                                  (values right))
                          (values left)))).
Proof.
  intros Hl Hr Hd Hs. unfold merge_left.
  now rewrite (missing_key_none left right on Hl Hr), Hd, Hs.
Qed.

Lemma values_reindexed (cs : list string) (rs : list row) :
  values (mkDF cs (range_index rs)) = rs.
Proof. unfold values. simpl. apply values_range_index. Qed.

Lemma find_existsb_false {A : Type} (f : A -> bool) (l : list A) :
  existsb f l = false -> find f l = None.
Proof.
  induction l as [|a l IH]; simpl; [reflexivity|].
  destruct (f a); simpl; [discriminate | exact IH].
Qed.

Lemma have_join_key (cs : list string) :
  In "unique_id" cs -> In "ds" cs -> forall c, In c join_key -> In c cs.
Proof. intros Hid Hds c [<-|[<-|[]]]; assumption. Qed.

(** *** Keyed tables can be joined *)

Lemma keyed_have_keys (df : DataFrame) :
  keyed df -> forall c, In c join_key -> In c (columns df).
Proof. intros [_ [Hid [Hds _]]]. now apply have_join_key. Qed.

Lemma existsb_all_true {A : Type} (f : A -> bool) (l : list A) :
  l <> [] -> (forall a, In a l -> f a = true) -> existsb f l = true.
Proof.
  destruct l as [|a l]; [congruence|]. intros _ Hf. simpl.
  now rewrite (Hf a) by now left.
Qed.

Lemma existsb_all_false {A : Type} (f : A -> bool) (l : list A) :
  (forall a, In a l -> f a = false) -> existsb f l = false.
Proof.
  intros Hf. induction l as [|a l IH]; simpl; [reflexivity|].
  rewrite (Hf a) by now left. apply IH. intros x Hx. apply Hf. now right.
Qed.

(** The key columns of a keyed table that has a record are [object] and
    [datetime64]. *)
Lemma keyed_dtypes (df : DataFrame) :
  keyed df -> records df <> [] ->
  column_dtype "unique_id" df = object_dtype
  /\ column_dtype "ds" df = datetime64.
Proof.
  intros [_ [_ [_ Hk]]] Hne. unfold column_dtype, dtype_of.
  assert (Hv : map (get "unique_id") (values df) <> []
               /\ map (get "ds") (values df) <> []).
  { unfold values. destruct (records df); [congruence|]. split; discriminate. }
  destruct Hv as [Hv1 Hv2]. split.
  - rewrite existsb_all_true; [reflexivity | exact Hv1 |].
    intros c Hc. apply in_map_iff in Hc. destruct Hc as [r [<- Hr]].
    now apply Hk.
  - rewrite existsb_all_false, existsb_all_true, existsb_all_false;
      [reflexivity | | exact Hv2 | |];
      intros c Hc; apply in_map_iff in Hc; destruct Hc as [r [<- Hr]];
      destruct (Hk r Hr) as [_ Hd]; destruct (get "ds" r); now try discriminate.
Qed.

Lemma keyed_no_clash (left right : DataFrame) :
  keyed left -> keyed right ->
  existsb (dtype_clash left right) join_key = false.
Proof.
  intros Hl Hr. unfold join_key, dtype_clash. simpl.
  destruct (records left) as [|x xs] eqn:El; [reflexivity|].
  destruct (records right) as [|y ys] eqn:Er; [reflexivity|].
  destruct (keyed_dtypes left Hl) as [-> ->]; [rewrite El; discriminate|].
  destruct (keyed_dtypes right Hr) as [-> ->]; [rewrite Er; discriminate|].
  reflexivity.
Qed.

Lemma keyed_without_gaps (on : list string) (left right : DataFrame) :
  keyed right -> keyed (without_gaps on left right).
Proof.
  intros [Hnd [Hid [Hds Hk]]].
  split; [exact Hnd|]. split; [exact Hid|]. split; [exact Hds|].
  intros r Hr. apply Hk. unfold values, without_gaps in *. simpl in Hr.
  apply in_map_iff in Hr. destruct Hr as [lr [<- Hlr]].
  apply in_map. apply filter_In in Hlr. tauto.
Qed.

(** What the join of two keyed tables returns. *)
Lemma merge_keyed (left right : DataFrame) :
  keyed left -> keyed right ->
  suffix_clash left right join_key = false ->
  merge_left left right join_key
  = Ok (mkDF (map (suffixed (overlap join_key left right) "_x") (columns left)
              ++ map (suffixed (overlap join_key left right) "_y")
                     (filter (fun c => negb (mem c join_key)) (columns right)))
             (range_index
                (flat_map (joined join_key (overlap join_key left right)
                                  (columns right) (values right))
                          (values left)))).
Proof.
  intros Hl Hr Hs.
  apply merge_left_returns;
    [now apply keyed_have_keys | now apply keyed_have_keys
     | now apply keyed_no_clash | exact Hs].
Qed.

(** *** The rows of a join *)

Lemma length_joined (on ov rcs : list string) (rrows : list row) (l : row) :
  length (joined on ov rcs rrows l)
  = Nat.max 1 (length (filter (matches on l) rrows)).
Proof.
  unfold joined. destruct (filter (matches on l) rrows) as [|m ms];
    [reflexivity|].
  rewrite length_map. reflexivity.
Qed.

Lemma length_flat_map_sum {A B : Type} (f : A -> list B) (l : list A) :
  length (flat_map f l) = list_sum (map (fun a => length (f a)) l).
Proof.
  induction l as [|a l IH]; simpl; [reflexivity|].
  now rewrite length_app, IH.
Qed.

Lemma list_sum_at_least {A : Type} (g : A -> nat) (l : list A) :
  (forall a, 1 <= g a) -> length l <= list_sum (map g l).
Proof.
  intros Hg. induction l as [|a l IH]; simpl; [lia|].
  specialize (Hg a). lia.
Qed.

Lemma map_flat_map_list {A B C : Type} (f : B -> C) (g : A -> list B)
  (l : list A) :
  map f (flat_map g l) = flat_map (fun a => map f (g a)) l.
Proof.
  induction l as [|a l IH]; simpl; [reflexivity|].
  now rewrite map_app, IH.
Qed.

Lemma map_constant {A B : Type} (b : B) (f : A -> B) (l : list A) :
  (forall a, In a l -> f a = b) -> map f l = repeat b (length l).
Proof.
  intros Hf. induction l as [|a l IH]; simpl; [reflexivity|].
  rewrite (Hf a) by now left. f_equal. apply IH.
  intros x Hx. apply Hf. now right.
Qed.

Lemma filter_existsb_false {A : Type} (f : A -> bool) (l : list A) :
  existsb f l = false -> filter f l = [].
Proof.
  induction l as [|a l IH]; simpl; [reflexivity|].
  destruct (f a); simpl; [discriminate | exact IH].
Qed.

Lemma key_of_joined (left right : DataFrame) (l r : row) :
  In r (joined join_key (overlap join_key left right) (columns right)
               (values right) l) ->
  key join_key r = key join_key l.
Proof.
  unfold joined.
  destruct (filter (matches join_key l) (values right)) as [|m ms].
  - intros [<-|[]].
    apply (key_joined_row left right (columns right) (fun _ => NaN)).
  - intros Hr. apply in_map_iff in Hr. destruct Hr as [x [<- _]].
    apply (key_joined_row left right (columns right) (fun c => get c x)).
Qed.

(** A left row gives as many joined rows as right rows match it, and one
    when none does; each has its key. *)
Lemma keys_of_joined (left right : DataFrame) (l : row) :
  map (key join_key)
      (joined join_key (overlap join_key left right) (columns right)
              (values right) l)
  = repeat (key join_key l)
           (Nat.max 1 (length (filter (matches join_key l) (values right)))).
Proof.
  rewrite <- length_joined
    with (ov := overlap join_key left right) (rcs := columns right).
  apply map_constant. intros r Hr. now apply (key_of_joined left right).
Qed.

(** The right part of an unmatched row holds missing cells only. *)
Lemma get_null_part (on ov cs : list string) (c : string) :
  get c (null_part on ov cs) = NaN.
Proof.
  unfold null_part.
  induction (filter (fun c0 => negb (mem c0 on)) cs) as [|x xs IH];
    simpl; [reflexivity|].
  destruct (String.eqb (suffixed ov "_y" x) c); [reflexivity | exact IH].
Qed.

(** A left row that no right row matches is joined with missing cells. *)
Lemma unmatched_row_kept (left right : DataFrame) (l : row) :
  In l (values left) ->
  existsb (matches join_key l) (values right) = false ->
  In (left_part (overlap join_key left right) l
      ++ null_part join_key (overlap join_key left right) (columns right))
     (flat_map (joined join_key (overlap join_key left right) (columns right)
                       (values right))
               (values left)).
Proof.
  intros Hl Hno. apply in_flat_map. exists l. split; [exact Hl|].
  unfold joined. rewrite (filter_existsb_false _ _ Hno). now left.
Qed.

(** C9, as the code has it.  Each join of predictions into the holdout table
    is a left join on (series_id, timestamp): on keyed tables it raises
    nothing and keeps every holdout row, in order, once for each prediction
    row that has its key and once when there is none, in which case every
    prediction cell is missing; so the joined table has at least the rows of
    the holdout.  When the prediction table has at most one row per key, the
    joined table has exactly the holdout rows: the same number of rows and
    the same keys in the same order. *)
Theorem merge_left_keeps_holdout (test_df preds : DataFrame) :
  keyed test_df ->
  keyed preds ->
  suffix_clash test_df preds join_key = false ->
  exists merged,
    merge_left test_df preds join_key = Ok merged
    /\ map (key join_key) (values merged)
       = flat_map (fun l => repeat (key join_key l)
                              (Nat.max 1 (length (filter (matches join_key l)
                                                         (values preds)))))
                  (values test_df)
    /\ length (records test_df) <= length (records merged)
    /\ (forall l,
          In l (values test_df) ->
          existsb (matches join_key l) (values preds) = false ->
          In (left_part (overlap join_key test_df preds) l
              ++ null_part join_key (overlap join_key test_df preds)
                           (columns preds))
             (values merged)
          /\ forall c,
               get c (left_part (overlap join_key test_df preds) l
                      ++ null_part join_key (overlap join_key test_df preds)
                                   (columns preds))
               = get c (left_part (overlap join_key test_df preds) l))
    /\ (unique_keys join_key (values preds) = true ->
        length (records merged) = length (records test_df)
        /\ map (key join_key) (values merged)
           = map (key join_key) (values test_df)
        /\ forall i l,
             nth_error (values test_df) i = Some l ->
             existsb (matches join_key l) (values preds) = false ->
             nth_error (values merged) i
             = Some (left_part (overlap join_key test_df preds) l
                     ++ null_part join_key (overlap join_key test_df preds)
                                  (columns preds))).
Proof.
  intros Hl Hr Hs.
  eexists. split; [now apply merge_keyed|].
  rewrite !values_reindexed. cbn [records].
  rewrite length_range_index.
  split; [|split; [|split]].
  - rewrite map_flat_map_list. apply flat_map_ext. intros l.
    apply keys_of_joined.
  - rewrite length_flat_map_sum.
    rewrite <- (length_map snd (records test_df)). fold (values test_df).
    apply list_sum_at_least. intros l. rewrite length_joined. lia.
  - intros l Hin Hno. split; [now apply unmatched_row_kept|].
    intros c. apply get_app, get_null_part.
  - intros Hu.
    rewrite (flat_map_singleton _
               (join_one join_key (overlap join_key test_df preds)
                         (columns preds) (values preds)))
      by (intros l; now apply joined_one).
    rewrite length_map.
    split; [apply length_map|]. split.
    + rewrite map_map. apply map_ext. intros l. apply key_join_one.
    + intros i l Hi Hno. rewrite nth_error_map, Hi. simpl. unfold join_one.
      now rewrite (find_existsb_false _ _ Hno).
Qed.

Lemma holdout_demo_keyed : keyed holdout_demo.
Proof.
  split; [simpl; repeat constructor; simpl; intuition discriminate|].
  split; [simpl; tauto|]. split; [simpl; tauto|].
  intros r [<-|[<-|[]]]; split; reflexivity.
Qed.

Lemma forecast_demo_keyed : keyed forecast_demo.
Proof.
  split; [simpl; repeat constructor; simpl; intuition discriminate|].
  split; [simpl; tauto|]. split; [simpl; tauto|].
  intros r [<-|[]]; split; reflexivity.
Qed.

Lemma forecast_gap_keyed : keyed forecast_gap.
Proof.
  split; [simpl; repeat constructor; simpl; intuition discriminate|].
  split; [simpl; tauto|]. split; [simpl; tauto|].
  intros r [<-|[<-|[]]]; split; reflexivity.
Qed.

Lemma merge_left_keeps_holdout_witness :
  exists merged,
    merge_left holdout_demo forecast_demo join_key = Ok merged
    /\ map (key join_key) (values merged)
       = flat_map (fun l => repeat (key join_key l)
                              (Nat.max 1 (length (filter (matches join_key l)
                                                         (values forecast_demo)))))
                  (values holdout_demo)
    /\ length (records holdout_demo) <= length (records merged)
    /\ (forall l,
          In l (values holdout_demo) ->
          existsb (matches join_key l) (values forecast_demo) = false ->
          In (left_part (overlap join_key holdout_demo forecast_demo) l
              ++ null_part join_key (overlap join_key holdout_demo forecast_demo)
                           (columns forecast_demo))
             (values merged)
          /\ forall c,
               get c (left_part (overlap join_key holdout_demo forecast_demo) l
                      ++ null_part join_key
                           (overlap join_key holdout_demo forecast_demo)
                           (columns forecast_demo))
               = get c (left_part (overlap join_key holdout_demo forecast_demo)
                                  l))
    /\ (unique_keys join_key (values forecast_demo) = true ->
        length (records merged) = length (records holdout_demo)
        /\ map (key join_key) (values merged)
           = map (key join_key) (values holdout_demo)
        /\ forall i l,
             nth_error (values holdout_demo) i = Some l ->
             existsb (matches join_key l) (values forecast_demo) = false ->
             nth_error (values merged) i
             = Some (left_part (overlap join_key holdout_demo forecast_demo) l
                     ++ null_part join_key
                          (overlap join_key holdout_demo forecast_demo)
                          (columns forecast_demo))).
Proof.
  apply (merge_left_keeps_holdout holdout_demo forecast_demo).
  - apply holdout_demo_keyed.
  - apply forecast_demo_keyed.
  - reflexivity.
Defined.

(** C9 as stated fails: a prediction table with two rows for one key makes
    the joined table longer than the holdout, three rows for a holdout of
    two, the first holdout key twice. *)
Lemma duplicate_forecast_repeats_holdout_row :
  rmap (fun merged => map (key join_key) (values merged))
       (merge_left holdout_demo dup_forecast join_key)
  = Ok [[Str "A"; Date 1]; [Str "A"; Date 1]; [Str "A"; Date 2]]
  /\ map (key join_key) (values holdout_demo)
     = [[Str "A"; Date 1]; [Str "A"; Date 2]].
Proof. split; reflexivity. Qed.

(** *** Rows without a match *)

Lemma filter_without_gaps (on : list string) (left right : DataFrame) (l : row) :
  In l (values left) ->
  filter (matches on l) (values (without_gaps on left right))
  = filter (matches on l) (values right).
Proof.
  intros Hl. unfold without_gaps, values. simpl.
  induction (records right) as [|lr rs IH]; simpl; [reflexivity|].
  destruct (covered on left lr) eqn:Ec; simpl.
  - now rewrite IH.
  - assert (Em : matches on l (snd lr) = false).
    { destruct (matches on l (snd lr)) eqn:Em; [|reflexivity].
      assert (Hc : covered on left lr = true).
      { unfold covered. apply existsb_exists. now exists l. }
      congruence. }
    now rewrite Em.
Qed.

Lemma flat_map_ext_in {A B : Type} (f g : A -> list B) (l : list A) :
  (forall a, In a l -> f a = g a) -> flat_map f l = flat_map g l.
Proof.
  intros Hfg. induction l as [|a l IH]; simpl; [reflexivity|].
  rewrite Hfg by now left.
  f_equal. apply IH. intros x Hx. apply Hfg. now right.
Qed.

Lemma mapM_app {A B : Type} (f : A -> result B) (l l' : list A) :
  mapM f (l ++ l')
  = rbind (mapM f l) (fun bs => rbind (mapM f l') (fun bs' => Ok (bs ++ bs'))).
Proof.
  induction l as [|a l IH]; simpl.
  - now destruct (mapM f l').
  - destruct (f a) as [b|e]; simpl; [|reflexivity].
    rewrite IH. destruct (mapM f l) as [bs|e]; simpl; [|reflexivity].
    now destruct (mapM f l').
Qed.

Lemma present_app (os os' : list (option R)) :
  present (os ++ os') = present os ++ present os'.
Proof.
  induction os as [|[x|] os IH]; simpl; [reflexivity | now rewrite IH | exact IH].
Qed.

(** The mean skips a missing value wherever it stands. *)
Lemma mean_skipna_skips (cs cs' : list cell) :
  mean_skipna (cs ++ NaN :: cs') = mean_skipna (cs ++ cs').
Proof.
  unfold mean_skipna. rewrite !mapM_app. simpl.
  destruct (mapM as_float cs) as [os|e]; simpl; [|reflexivity].
  destruct (mapM as_float cs') as [os'|e]; simpl; [|reflexivity].
  now rewrite !present_app.
Qed.

(** C5, as the code has it.  The predictions are joined to the holdout on
    the key (series_id, timestamp) by a left join that, on keyed tables,
    raises nothing.  A forecast row that no holdout row matches is left out
    of the joined table, hence of the metric, and nothing records it: the
    join returns what it returns on the forecast without these rows, and
    every joined row carries the key of a holdout row.  A holdout row
    without a forecast is kept, with its key and its cells, and every
    prediction cell missing; the absolute error of such a cell is missing,
    and the mean of the errors skips it. *)
Theorem merge_left_drops_unmatched_silently (test_df preds : DataFrame) :
  keyed test_df ->
  keyed preds ->
  suffix_clash test_df preds join_key = false ->
  exists merged,
    merge_left test_df preds join_key = Ok merged
    /\ merge_left test_df (without_gaps join_key test_df preds) join_key
       = Ok merged
    /\ (forall r, In r (values merged) ->
          exists l, In l (values test_df) /\ key join_key r = key join_key l)
    /\ (forall l,
          In l (values test_df) ->
          existsb (matches join_key l) (values preds) = false ->
          exists r,
            In r (values merged)
            /\ key join_key r = key join_key l
            /\ r = left_part (overlap join_key test_df preds) l
                   ++ null_part join_key (overlap join_key test_df preds)
                                (columns preds)
            /\ (forall c,
                  get c r = get c (left_part (overlap join_key test_df preds) l))
            /\ forall c,
                 get c (left_part (overlap join_key test_df preds) l) = NaN ->
                 get c r = NaN
                 /\ (is_float (get "y" r) = true ->
                     abs_error (get "y" r) (get c r) = Ok NaN))
    /\ (forall errors errors',
          mean_skipna (errors ++ NaN :: errors')
          = mean_skipna (errors ++ errors')).
Proof.
  intros Hl Hr Hs.
  eexists. split; [now apply merge_keyed|].
  split; [|split; [|split; [|apply mean_skipna_skips]]].
  - rewrite merge_keyed;
      [| exact Hl | now apply keyed_without_gaps | exact Hs].
    do 3 f_equal. apply flat_map_ext_in. intros l Hin.
    unfold joined. now rewrite filter_without_gaps.
  - rewrite values_reindexed. intros r Hin.
    apply in_flat_map in Hin. destruct Hin as [l [Hin Hj]].
    exists l. split; [exact Hin|]. now apply (key_of_joined test_df preds).
  - rewrite values_reindexed. intros l Hin Hno.
    exists (left_part (overlap join_key test_df preds) l
            ++ null_part join_key (overlap join_key test_df preds)
                         (columns preds)).
    split; [now apply unmatched_row_kept|].
    split; [|split; [reflexivity|split]].
    + apply (key_joined_row test_df preds (columns preds) (fun _ => NaN)).
    + intros c. apply get_app, get_null_part.
    + intros c Hc.
      assert (E : get c (left_part (overlap join_key test_df preds) l
                         ++ null_part join_key (overlap join_key test_df preds)
                                      (columns preds)) = NaN).
      { rewrite get_app by apply get_null_part. exact Hc. }
      split; [exact E|].
      intros Hy. rewrite E.
      destruct (get "y" _); try discriminate; reflexivity.
Qed.

Lemma merge_left_drops_unmatched_silently_witness :
  exists merged,
    merge_left holdout_demo forecast_gap join_key = Ok merged
    /\ merge_left holdout_demo
                  (without_gaps join_key holdout_demo forecast_gap) join_key
       = Ok merged
    /\ (forall r, In r (values merged) ->
          exists l, In l (values holdout_demo)
                    /\ key join_key r = key join_key l)
    /\ (forall l,
          In l (values holdout_demo) ->
          existsb (matches join_key l) (values forecast_gap) = false ->
          exists r,
            In r (values merged)
            /\ key join_key r = key join_key l
            /\ r = left_part (overlap join_key holdout_demo forecast_gap) l
                   ++ null_part join_key
                        (overlap join_key holdout_demo forecast_gap)
                        (columns forecast_gap)
            /\ (forall c,
                  get c r
                  = get c (left_part (overlap join_key holdout_demo forecast_gap)
                                     l))
            /\ forall c,
                 get c (left_part (overlap join_key holdout_demo forecast_gap) l)
                 = NaN ->
                 get c r = NaN
                 /\ (is_float (get "y" r) = true ->
                     abs_error (get "y" r) (get c r) = Ok NaN))
    /\ (forall errors errors',
          mean_skipna (errors ++ NaN :: errors')
          = mean_skipna (errors ++ errors')).
Proof.
  apply (merge_left_drops_unmatched_silently holdout_demo forecast_gap).
  - apply holdout_demo_keyed.
  - apply forecast_gap_keyed.
  - reflexivity.
Defined.

(** C5 as stated fails: the forecast with a row for a day that is not held
    out has one coverage gap, the forecast without it has none, and the join
    returns the same table for both: the gap is dropped and counted nowhere. *)
Lemma unmatched_forecast_leaves_no_trace :
  length (gaps join_key holdout_demo forecast_gap) = 1
  /\ length (gaps join_key holdout_demo forecast_demo) = 0
  /\ merge_left holdout_demo forecast_gap join_key
     = merge_left holdout_demo forecast_demo join_key.
Proof. repeat split; reflexivity. Qed.

(** ** The summary *)

Lemma mapM_map {A B : Type} (f : A -> result B) (g : A -> B) (l : list A) :
  (forall a, In a l -> f a = Ok (g a)) -> mapM f l = Ok (map g l).
Proof.
  intros Hf. induction l as [|a l IH]; simpl; [reflexivity|].
  rewrite Hf by now left. simpl.
  rewrite IH by (intros x Hx; apply Hf; now right).
  reflexivity.
Qed.

Lemma present_numbers (cs : list cell) :
  present (map float_of cs) = numbers cs.
Proof.
  induction cs as [|c cs IH]; simpl; [reflexivity|].
  destruct c; simpl; now rewrite IH.
Qed.

(** On float cells the mean that skips missing values is the arithmetic
    mean of the numbers. *)
Lemma mean_skipna_numbers (cs : list cell) :
  (forall c, In c cs -> is_float c = true) ->
  mean_skipna cs
  = Ok (match numbers cs with [] => NaN | xs => Num (mean xs) end).
Proof.
  intros Hf. unfold mean_skipna.
  rewrite (mapM_map as_float float_of).
  - simpl. rewrite present_numbers. now destruct (numbers cs).
  - intros c Hc. specialize (Hf c Hc). now destruct c.
Qed.

Lemma group_rows_incl (by_ : string) (k : cell) (df : DataFrame) (r : row) :
  In r (group_rows by_ k df) -> In r (values df).
Proof.
  unfold group_rows, values. intros Hr.
  apply in_map_iff in Hr. destruct Hr as [lr [<- Hlr]].
  apply in_map. apply filter_In in Hlr. tauto.
Qed.

Lemma get_model (c : string) (f : string -> cell) (models : list string) :
  In c models -> get c (map (fun m => (m, f m)) models) = f c.
Proof.
  induction models as [|m models IH]; intros Hc; [destruct Hc|].
  simpl. destruct (String.eqb_spec m c) as [->|N]; [reflexivity|].
  destruct Hc as [E|Hc]; [contradiction | now apply IH].
Qed.

(** *** Sorted keys *)

Lemma cell_leb_total (a b : cell) : cell_leb a b = false -> cell_leb b a = true.
Proof.
  destruct a as [s|s|x|], b as [t|t|y|]; simpl; try congruence.
  - intros E. destruct (String.leb_total s t) as [H|H]; congruence.
  - intros E. apply Z.leb_gt in E. apply Z.leb_le. lia.
  - destruct (Rle_dec x y) as [_|N]; [discriminate|]. intros _.
    destruct (Rle_dec y x) as [_|N']; [reflexivity|]. exfalso.
    destruct (Rle_or_lt x y); [contradiction|]. apply N'. now left.
Qed.

Lemma insert_key_perm (k : cell) (ks : list cell) :
  Permutation (insert_key k ks) (k :: ks).
Proof.
  induction ks as [|x ks IH]; simpl; [reflexivity|].
  destruct (cell_leb k x); [reflexivity|].
  rewrite IH. apply perm_swap.
Qed.

Lemma sort_keys_perm (ks : list cell) : Permutation (sort_keys ks) ks.
Proof.
  induction ks as [|k ks IH]; simpl; [reflexivity|].
  rewrite insert_key_perm. now constructor.
Qed.

Lemma insert_key_sorted (k : cell) (ks : list cell) :
  Sorted (fun a b => cell_leb a b = true) ks ->
  Sorted (fun a b => cell_leb a b = true) (insert_key k ks).
Proof.
  induction ks as [|x ks IH]; intros Hs; simpl.
  - repeat constructor.
  - destruct (cell_leb k x) eqn:E.
    + constructor; [exact Hs | now constructor].
    + inversion Hs as [|? ? Hs' Hhd]; subst.
      constructor; [now apply IH|].
      destruct ks as [|y ks]; simpl.
      * constructor. now apply cell_leb_total.
      * destruct (cell_leb k y); constructor;
          [now apply cell_leb_total | now inversion Hhd].
Qed.

Lemma sort_keys_sorted (ks : list cell) :
  Sorted (fun a b => cell_leb a b = true) (sort_keys ks).
Proof.
  induction ks as [|k ks IH]; simpl; [constructor|].
  now apply insert_key_sorted.
Qed.

(** Sorted names are in ascending order. *)
Lemma sorted_names (ks : list cell) :
  (forall k, In k ks -> is_str k = true) ->
  Sorted (fun a b => cell_leb a b = true) ks -> Sorted name_le ks.
Proof.
  intros Hstr Hs. induction Hs as [|k ks Hs IH Hhd]; [constructor|].
  constructor; [apply IH; intros x Hx; apply Hstr; now right|].
  destruct Hhd as [|y ks E]; constructor.
  assert (Hk : is_str k = true) by (apply Hstr; now left).
  assert (Hy : is_str y = true) by (apply Hstr; right; now left).
  destruct k, y; try discriminate. exact E.
Qed.

Lemma distinct_In (k : cell) (ks : list cell) :
  In k (distinct ks) <-> In k ks /\ isnan k = false.
Proof.
  induction ks as [|x ks IH]; simpl; [tauto|].
  destruct (isnan x) eqn:Ex.
  - rewrite IH. split; [tauto|]. intros [[->|Hin] Hk]; [congruence | tauto].
  - simpl. rewrite filter_In, IH. split.
    + intros [<-|[[Hin Hk] _]]; [tauto | tauto].
    + intros [[->|Hin] Hk]; [now left|].
      destruct (cell_eqb k x) eqn:E.
      * left. symmetry. now apply cell_eqb_eq.
      * right. split; [tauto | reflexivity].
Qed.

Lemma distinct_NoDup (ks : list cell) : NoDup (distinct ks).
Proof.
  induction ks as [|x ks IH]; simpl; [constructor|].
  destruct (isnan x); [exact IH|].
  constructor; [|now apply NoDup_filter].
  intros Hin. apply filter_In in Hin. destruct Hin as [_ Hx].
  now rewrite cell_eqb_refl in Hx.
Qed.

(** The group keys: each key of the column once, the missing one left out,
    in sorted order. *)
Lemma group_keys_spec (by_ : string) (df : DataFrame) :
  NoDup (group_keys by_ df)
  /\ Sorted (fun a b => cell_leb a b = true) (group_keys by_ df)
  /\ forall k, In k (group_keys by_ df)
               <-> In k (map (get by_) (values df)) /\ isnan k = false.
Proof.
  unfold group_keys. split; [|split].
  - apply (Permutation_NoDup (l := distinct (map (get by_) (values df))));
      [symmetry; apply sort_keys_perm | apply distinct_NoDup].
  - apply sort_keys_sorted.
  - intros k. rewrite <- distinct_In. split; apply Permutation_in;
      [apply sort_keys_perm | symmetry; apply sort_keys_perm].
Qed.

(** *** The mean, in the spec's words *)

Lemma mean_arithmetic (xs : list R) : mean xs = arithmetic_mean xs.
Proof.
  unfold mean, arithmetic_mean, Rsum. f_equal. symmetry.
  apply fold_symmetric; intros; lra.
Qed.

Lemma numbers_of_metric (evaluation : DataFrame) (s m : string) :
  numbers (map (get m) (group_rows "metric" (Str s) evaluation))
  = per_series_values evaluation s m.
Proof.
  unfold group_rows, per_series_values, values.
  induction (records evaluation) as [|lr rs IH]; simpl; [reflexivity|].
  unfold in_group at 1.
  destruct (get "metric" (snd lr)) as [s'| | |]; simpl; try exact IH.
  destruct (String.eqb s' s); simpl; [|destruct (get m (snd lr)); exact IH].
  destruct (get m (snd lr)); simpl; now rewrite IH.
Qed.

(** C7.  The summary maps each metric and each model to the arithmetic mean
    of the model's per-series values for that metric: on an evaluation whose
    metric column holds names and whose model columns hold floats,
    [summarize] returns one row per metric of the evaluation, the metrics in
    ascending order, and the cell of each model is the sum of the values
    that are present divided by their number; a missing per-series value is
    left out of the mean, not counted as zero, and a model without any value
    for the metric has a missing mean. *)
Theorem summarize_is_mean_of_present (evaluation : DataFrame)
  (models : list string) :
  (forall c, In c ("metric" :: models) -> In c (columns evaluation)) ->
  ~ In "metric" models ->
  (forall r, In r (values evaluation) -> is_str (get "metric" r) = true) ->
  (forall r c, In r (values evaluation) -> In c models ->
               is_float (get c r) = true) ->
  exists summary,
    summarize evaluation models = Ok summary
    /\ columns summary = "metric" :: models
    /\ NoDup (map (get "metric") (values summary))
    /\ Sorted name_le (map (get "metric") (values summary))
    /\ (forall k, In k (map (get "metric") (values summary))
                  <-> In k (map (get "metric") (values evaluation)))
    /\ (forall r, In r (values summary) ->
          exists s,
            get "metric" r = Str s
            /\ forall m, In m models ->
                 get m r = match per_series_values evaluation s m with
                           | [] => NaN
                           | xs => Num (arithmetic_mean xs)
                           end).
Proof.
  intros Hc Hmetric Hnames Hf.
  assert (Hrow : forall k, In k (group_keys "metric" evaluation) ->
            mapM (fun c => rmap (fun m => (c, m))
                     (mean_skipna (map (get c)
                                       (group_rows "metric" k evaluation))))
                 models
            = Ok (map (fun m => (m, summarize_spec evaluation k m)) models)).
  { intros k _. apply mapM_map. intros m Hm.
    rewrite mean_skipna_numbers; [reflexivity|].
    intros c Hin. apply in_map_iff in Hin. destruct Hin as [r [<- Hr]].
    apply Hf; [|exact Hm]. now apply (group_rows_incl "metric" k). }
  destruct (group_keys_spec "metric" evaluation) as [Hnd [Hs Hin]].
  assert (Hstr : forall k, In k (group_keys "metric" evaluation) ->
                           is_str k = true).
  { intros k Hk. apply Hin in Hk. destruct Hk as [Hk _].
    apply in_map_iff in Hk. destruct Hk as [r [<- Hr]]. now apply Hnames. }
  assert (Hkeys : map (get "metric")
                      (map (fun k => ("metric", k)
                              :: map (fun m => (m, summarize_spec evaluation k m))
                                     models)
                           (group_keys "metric" evaluation))
                  = group_keys "metric" evaluation).
  { rewrite map_map. rewrite <- (map_id (group_keys "metric" evaluation)) at 2.
    apply map_ext. reflexivity. }
  unfold summarize, groupby_mean.
  rewrite require_columns_ok by exact Hc. simpl.
  rewrite (mapM_map _
    (fun k => ("metric", k)
              :: map (fun m => (m, summarize_spec evaluation k m)) models)).
  2:{ intros k Hk. now rewrite (Hrow k Hk). }
  simpl. eexists. split; [reflexivity|]. split; [reflexivity|].
  rewrite values_reindexed, Hkeys.
  split; [exact Hnd|]. split; [now apply sorted_names|]. split.
  - intros k. rewrite Hin. split; [tauto|]. intros Hk. split; [exact Hk|].
    apply in_map_iff in Hk. destruct Hk as [r [<- Hr]].
    specialize (Hnames r Hr). now destruct (get "metric" r).
  - intros r Hr. apply in_map_iff in Hr. destruct Hr as [k [<- Hk]].
    specialize (Hstr k Hk). destruct k as [s| | |]; try discriminate.
    exists s. split; [reflexivity|]. intros m Hm.
    change (get m (("metric", Str s)
                   :: map (fun m0 => (m0, summarize_spec evaluation (Str s) m0))
                          models))
      with (if String.eqb "metric" m then Str s
            else get m (map (fun m0 => (m0, summarize_spec evaluation (Str s) m0))
                            models)).
    destruct (String.eqb_spec "metric" m) as [E|_]; [subst; contradiction|].
    rewrite (get_model m (fun m0 => summarize_spec evaluation (Str s) m0))
      by exact Hm.
    unfold summarize_spec. rewrite numbers_of_metric.
    destruct (per_series_values evaluation s m) as [|x xs]; [reflexivity|].
    now rewrite mean_arithmetic.
Qed.

Lemma evaluation_demo_floats (r : row) (c : string) :
  In r (values evaluation_demo) -> In c ["TimeGPT"] ->
  is_float (get c r) = true.
Proof.
  intros Hr [<-|[]].
  destruct Hr as [<-|[<-|[<-|[]]]]; reflexivity.
Qed.

Lemma evaluation_demo_names (r : row) :
  In r (values evaluation_demo) -> is_str (get "metric" r) = true.
Proof. intros [<-|[<-|[<-|[]]]]; reflexivity. Qed.

Lemma summarize_is_mean_of_present_witness :
  exists summary,
    summarize evaluation_demo ["TimeGPT"] = Ok summary
    /\ columns summary = "metric" :: ["TimeGPT"]
    /\ NoDup (map (get "metric") (values summary))
    /\ Sorted name_le (map (get "metric") (values summary))
    /\ (forall k, In k (map (get "metric") (values summary))
                  <-> In k (map (get "metric") (values evaluation_demo)))
    /\ (forall r, In r (values summary) ->
          exists s,
            get "metric" r = Str s
            /\ forall m, In m ["TimeGPT"] ->
                 get m r = match per_series_values evaluation_demo s m with
                           | [] => NaN
                           | xs => Num (arithmetic_mean xs)
                           end).
Proof.
  apply (summarize_is_mean_of_present evaluation_demo ["TimeGPT"]).
  - intros c [<-|[<-|[]]]; simpl; tauto.
  - simpl. intuition discriminate.
  - apply evaluation_demo_names.
  - apply evaluation_demo_floats.
Defined.

(** The mean of 2, a missing value and 4 is 3; counting the missing value as
    zero would give 2. *)
Lemma summarize_demo :
  summarize evaluation_demo ["TimeGPT"]
  = Ok (mkDF ["metric"; "TimeGPT"]
             [(0, [("metric", Str "mae"); ("TimeGPT", Num 3)])]).
Proof.
  unfold summarize, groupby_mean. simpl.
  replace (mean [2%R; 4%R]) with 3%R; [reflexivity|].
  unfold mean, Rsum. simpl. lra.
Qed.

(** ** The store: the panel is left alone *)

Section Frame.

Variable l : nat.
Variable d : DataFrame.

Lemma keeps_nil (F : list string) (st : state) :
  keeps l d F st -> keeps l d [] st.
Proof.
  intros [H1 [H2 _]]. split; [exact H1|]. split; [exact H2|].
  intros x l' [].
Qed.

Lemma safe_ret {A : Type} (F : list string) (a : A) : safe l d F F (ret a).
Proof. intros st Hk. exact Hk. Qed.

Lemma safe_bind {A B : Type} (F G K : list string) (m : M A) (k : A -> M B) :
  safe l d F G m -> (forall a, safe l d G K (k a)) -> safe l d F K (bind m k).
Proof.
  intros Hm Hk st Hst. unfold bind. specialize (Hm st Hst).
  destruct (m st) as [[a|e] st']; [now apply Hk | exact Hm].
Qed.

Lemma safe_lift {A : Type} (F : list string) (r : result A) :
  safe l d F F (lift r).
Proof.
  intros st Hk. unfold lift. destruct r; [exact Hk | now apply keeps_nil in Hk].
Qed.

Lemma safe_obj (F : list string) (x : string) : safe l d F F (obj x).
Proof.
  intros st Hk. unfold obj.
  destruct (lookup x (env st)) as [l'|]; [|now apply keeps_nil in Hk].
  destruct (nth_error (heap st) l'); [exact Hk | now apply keeps_nil in Hk].
Qed.

(** A new object is none of the old ones. *)
Lemma safe_let (F : list string) (x : string) (v : DataFrame) :
  x <> "df" -> safe l d F (x :: F) (let_ x v).
Proof.
  intros Hx st [H1 [H2 H3]]. unfold let_. simpl.
  assert (Hlt : l < length (heap st))
    by (apply nth_error_Some; congruence).
  split; [|split]; simpl.
  - destruct (String.eqb_spec x "df"); [contradiction | exact H1].
  - rewrite nth_error_app1; assumption.
  - intros y l' Hy Hl'.
    destruct (String.eqb_spec x y) as [E|N].
    + injection Hl' as <-. lia.
    + destruct Hy as [E|Hy]; [contradiction | now apply (H3 y)].
Qed.

Lemma nth_error_update_other (h : list DataFrame) (i j : nat)
  (v : DataFrame) :
  i <> j -> nth_error (update i v h) j = nth_error h j.
Proof.
  revert i j. induction h as [|d0 h IH]; intros i j Hij.
  - now destruct i.
  - destruct i, j; simpl; try reflexivity; [contradiction|].
    apply IH. lia.
Qed.

(** A change in place of an object bound elsewhere. *)
Lemma safe_mutate (F : list string) (x : string)
  (f : DataFrame -> result DataFrame) :
  In x F -> safe l d F F (mutate x f).
Proof.
  intros Hx st Hk. unfold mutate.
  destruct (lookup x (env st)) as [l'|] eqn:El;
    [|now apply keeps_nil in Hk].
  destruct (nth_error (heap st) l'); [|now apply keeps_nil in Hk].
  destruct (f d0); [|now apply keeps_nil in Hk].
  destruct Hk as [H1 [H2 H3]]. split; [exact H1|]. split; [|exact H3].
  simpl. rewrite nth_error_update_other; [exact H2|].
  now apply (H3 x).
Qed.

Lemma safe_for_each {A : Type} (F : list string) (xs : list A)
  (body : A -> M unit) :
  (forall a, safe l d F F (body a)) -> safe l d F F (for_each xs body).
Proof.
  intros Hb. induction xs as [|a xs IH]; simpl.
  - apply safe_ret.
  - apply (safe_bind F F F); [apply Hb | intros _; exact IH].
Qed.

(** Fewer names to avoid afterwards. *)
Lemma safe_weaken {A : Type} (F G G' : list string) (m : M A) :
  safe l d F G m -> incl G' G -> safe l d F G' m.
Proof.
  intros Hm Hi st Hst. specialize (Hm st Hst).
  destruct (m st) as [[a|e] st']; [|exact Hm].
  destruct Hm as [H1 [H2 H3]]. split; [exact H1|]. split; [exact H2|].
  intros x l' Hx. apply H3. now apply Hi.
Qed.

End Frame.

(** A change in place shows through every name bound to the object. *)
Lemma mutate_shared (x y : string) (f : DataFrame -> result DataFrame)
  (st : state) (l : nat) (d d' : DataFrame) :
  lookup x (env st) = Some l ->
  lookup y (env st) = Some l ->
  nth_error (heap st) l = Some d ->
  f d = Ok d' ->
  frame_of y (snd (mutate x f st)) = Some d'.
Proof.
  intros Hx Hy Hd Hf. unfold mutate, frame_of. rewrite Hx, Hd, Hf. simpl.
  rewrite Hy. clear -Hd. revert l Hd.
  induction (heap st) as [|d0 h IH]; intros [|l] Hd; simpl in *;
    try discriminate; [reflexivity | now apply IH].
Qed.

Ltac safe_step :=
  first
    [ apply safe_obj
    | apply safe_lift
    | apply safe_ret
    | apply safe_let; discriminate
    | apply safe_mutate; simpl; tauto
    | apply safe_for_each; intros ?
    | eapply safe_bind; [|intros ?] ].

Section Cells.

Variable forecast : DataFrame -> option DataFrame -> result DataFrame.
Variable sf_predict : DataFrame -> result DataFrame.
Variable to_datetime : cell -> result cell.
Variable l : nat.
Variable d : DataFrame.

Lemma safe_cell_transform (F : list string) :
  safe l d F ("df_transformed" :: F) cell_transform.
Proof. unfold cell_transform. repeat safe_step. Qed.

Lemma safe_cell_split (F : list string) :
  safe l d F ("input_df" :: "test_df" :: F) cell_split.
Proof. unfold cell_split. repeat safe_step. Qed.

Lemma safe_cell_forecast (F : list string) :
  safe l d F ("fcst_df" :: F) (cell_forecast forecast).
Proof. unfold cell_forecast. repeat safe_step. Qed.

Lemma safe_cell_inverse (F : list string) (x : string) :
  In x F -> safe l d F F (cell_inverse x).
Proof.
  intros Hx. unfold cell_inverse.
  eapply safe_bind; [apply safe_obj|]. intros df.
  apply safe_for_each. intros col. now apply safe_mutate.
Qed.

Lemma safe_cell_merge_forecast (F : list string) :
  In "fcst_df" F ->
  safe l d F ("test_df" :: F) (cell_merge_forecast to_datetime).
Proof.
  intros Hx. unfold cell_merge_forecast.
  eapply safe_bind; [now apply safe_mutate|]. intros _.
  repeat safe_step.
Qed.

Lemma safe_cell_evaluate (F : list string) (models : list string) :
  safe l d F ("average_metrics" :: "evaluation" :: F) (cell_evaluate models).
Proof. unfold cell_evaluate. repeat safe_step. Qed.

Lemma safe_cell_statistical (F : list string) :
  safe l d F ("sf_preds" :: F) (cell_statistical sf_predict).
Proof. unfold cell_statistical. repeat safe_step. Qed.

Lemma safe_cell_merge_statistical (F : list string) :
  safe l d F ("test_df" :: F) cell_merge_statistical.
Proof. unfold cell_merge_statistical. repeat safe_step. Qed.

Lemma safe_cell_future_exogenous (F : list string) :
  safe l d F ("futr_exog_df" :: F) cell_future_exogenous.
Proof. unfold cell_future_exogenous. repeat safe_step. Qed.

Lemma safe_cell_forecast_exogenous (F : list string) :
  safe l d F ("fcst_df" :: F) (cell_forecast_exogenous forecast).
Proof. unfold cell_forecast_exogenous. repeat safe_step. Qed.

Lemma safe_cell_rename_inverse (F : list string) :
  In "fcst_df" F -> safe l d F F cell_rename_inverse.
Proof.
  intros Hx. unfold cell_rename_inverse.
  eapply safe_bind; [now apply safe_mutate|]. intros _.
  now apply safe_cell_inverse.
Qed.

Lemma safe_cell_attach_exogenous (F : list string) :
  In "test_df" F -> safe l d F F cell_attach_exogenous.
Proof.
  intros Hx. unfold cell_attach_exogenous.
  eapply safe_bind; [apply safe_obj|]. intros fcst_df.
  eapply safe_bind; [apply safe_lift|]. intros vs.
  now apply safe_mutate.
Qed.

(** Every cell of the pipeline leaves the object of [df] alone. *)
Lemma safe_pipeline :
  safe l d [] [] (pipeline forecast sf_predict to_datetime).
Proof.
  unfold pipeline, analysis.
  eapply safe_bind; [apply safe_cell_transform|]. intros _.
  eapply safe_bind; [apply safe_cell_split|]. intros _.
  eapply safe_bind; [apply safe_cell_forecast|]. intros _.
  eapply safe_bind; [apply safe_cell_inverse; simpl; tauto|]. intros _.
  eapply safe_bind; [apply safe_cell_merge_forecast; simpl; tauto|]. intros _.
  eapply safe_bind; [apply safe_cell_evaluate|]. intros _.
  eapply safe_bind; [apply safe_cell_statistical|]. intros _.
  eapply safe_bind; [apply safe_cell_inverse; simpl; tauto|]. intros _.
  eapply safe_bind; [apply safe_cell_merge_statistical|]. intros _.
  eapply safe_bind; [apply safe_cell_evaluate|]. intros _.
  eapply safe_bind; [apply safe_cell_future_exogenous|]. intros _.
  eapply safe_bind; [apply safe_cell_forecast_exogenous|]. intros _.
  eapply safe_bind; [apply safe_cell_rename_inverse; simpl; tauto|]. intros _.
  eapply safe_bind; [apply safe_cell_attach_exogenous; simpl; tauto|]. intros _.
  eapply safe_weaken; [apply safe_cell_evaluate|]. intros x [].
Qed.

End Cells.

(** C8.  The panel is read-only: whatever the providers return, and whether
    the pipeline runs to its end or raises on the way, the name [df] is bound
    afterwards to the object it was bound to before, and this object is the
    panel as it was; the forward transform changes a copy (a new object) and
    every later change in place is made to objects created after it. *)
Theorem pipeline_keeps_panel
  (forecast : DataFrame -> option DataFrame -> result DataFrame)
  (sf_predict : DataFrame -> result DataFrame)
  (to_datetime : cell -> result cell)
  (st : state) (l : nat) (panel : DataFrame) :
  lookup "df" (env st) = Some l ->
  nth_error (heap st) l = Some panel ->
  lookup "df" (env (snd (pipeline forecast sf_predict to_datetime st))) = Some l
  /\ nth_error (heap (snd (pipeline forecast sf_predict to_datetime st))) l
     = Some panel
  /\ frame_of "df" (snd (pipeline forecast sf_predict to_datetime st))
     = Some panel.
Proof.
  intros Hl Hd.
  assert (Hk : keeps l panel [] st).
  { split; [exact Hl|]. split; [exact Hd|]. intros x l' []. }
  pose proof (safe_pipeline forecast sf_predict to_datetime l panel st Hk) as Hs.
  destruct (pipeline forecast sf_predict to_datetime st) as [[u|e] st'];
    simpl; destruct Hs as [H1 [H2 _]]; unfold frame_of; rewrite H1;
    repeat split; assumption.
Qed.

(** ** The run of the notebook on a concrete panel *)

(** On a panel whose demands are numbers above -1 the forward transform
    succeeds and puts every demand on the transformed scale. *)
Lemma map_column_forward (df : DataFrame) :
  In "y" (columns df) ->
  (forall r, In r (values df) -> exists v, get "y" r = Num v /\ (-1 < v)%R) ->
  map_column "y" forward_cell df = Ok (transformed df).
Proof.
  intros Hy Hv. unfold map_column.
  rewrite require_columns_ok by (intros c [<-|[]]; exact Hy).
  simpl.
  rewrite (mapM_map _ (fun lr => (fst lr, log_row (snd lr)))); [reflexivity|].
  intros lr Hlr.
  destruct (Hv (snd lr)) as [v [Ev Hgt]]; [now apply in_map|].
  unfold log_row. rewrite Ev, forward_cell_Num by exact Hgt. reflexivity.
Qed.

Lemma run_cell_transform (df : DataFrame) :
  In "y" (columns df) ->
  (forall r, In r (values df) -> exists v, get "y" r = Num v /\ (-1 < v)%R) ->
  cell_transform (loaded df)
  = (Ok tt, mkState [df; transformed df] [("df_transformed", 1); ("df", 0)]).
Proof.
  intros Hy Hv. unfold cell_transform, bind, obj, let_, mutate, loaded. simpl.
  now rewrite map_column_forward.
Qed.

Lemma daily_demand (id : string) (start n : nat) (y : R) (r : row) :
  In r (daily id start n y) -> get "y" r = Num y.
Proof.
  unfold daily. intros Hr. apply in_map_iff in Hr.
  now destruct Hr as [day [<- _]].
Qed.

Lemma two_series_demand (r : row) :
  In r (values two_series_panel) ->
  exists v, get "y" r = Num v /\ (-1 < v)%R.
Proof.
  unfold two_series_panel, panel. rewrite values_reindexed.
  intros Hr. apply in_app_or in Hr. destruct Hr as [Hr|Hr];
    apply daily_demand in Hr; eexists; (split; [exact Hr | lra]).
Qed.

Ltac run_cells :=
  cbv -[ln exp Rabs Rplus Rminus Rmult Rdiv Rinv Ropp IZR INR Rlt_dec
        Req_dec_T forward inverse mean Rsum].

(** The run ends without an exception, in a state that holds these frames. *)
Lemma final_frames :
  fst (pipeline exact_forecast zero_baselines keep_dates
                (loaded two_series_panel)) = Ok tt
  /\ frame_of "test_df" final_state = Some final_test_df
  /\ frame_of "fcst_df" final_state = Some final_fcst_df
  /\ frame_of "average_metrics" final_state = Some final_average_metrics.
Proof.
  assert (E : pipeline exact_forecast zero_baselines keep_dates
                       (loaded two_series_panel)
              = analysis exact_forecast zero_baselines keep_dates
                  (mkState [two_series_panel; transformed two_series_panel]
                           [("df_transformed", 1); ("df", 0)])).
  { unfold pipeline, bind.
    now rewrite run_cell_transform;
      [| simpl; tauto | apply two_series_demand]. }
  unfold final_state. rewrite E. clear E.
  repeat split; run_cells; reflexivity.
Qed.

Lemma pipeline_keeps_panel_witness :
  lookup "df" (env (snd (pipeline exact_forecast zero_baselines keep_dates
                                  (loaded two_series_panel)))) = Some 0
  /\ nth_error (heap (snd (pipeline exact_forecast zero_baselines keep_dates
                                    (loaded two_series_panel)))) 0
     = Some two_series_panel
  /\ frame_of "df" (snd (pipeline exact_forecast zero_baselines keep_dates
                                  (loaded two_series_panel)))
     = Some two_series_panel.
Proof.
  apply (pipeline_keeps_panel exact_forecast zero_baselines keep_dates
           (loaded two_series_panel) 0 two_series_panel); reflexivity.
Defined.

(** ** The scales of the evaluation *)

(** The transformed demand is strictly below a positive demand. *)
Lemma forward_below (v : R) : (0 < v)%R -> (forward v < v)%R.
Proof.
  intros Hv. unfold forward.
  rewrite <- (ln_exp v) at 2.
  apply ln_increasing; [lra|].
  assert (Hne : v <> 0%R) by lra.
  pose proof (exp_ineq1 v Hne). lra.
Qed.

Lemma Rsum_repeat (x : R) (n : nat) : Rsum (repeat x n) = (INR n * x)%R.
Proof.
  induction n as [|n IH].
  - simpl. lra.
  - rewrite S_INR. change (Rsum (repeat x (S n))) with (x + Rsum (repeat x n))%R.
    rewrite IH. lra.
Qed.

Lemma mean_repeat (x : R) (n : nat) : mean (repeat x (S n)) = x.
Proof.
  unfold mean. rewrite Rsum_repeat, repeat_length.
  field. apply not_0_INR. discriminate.
Qed.

Lemma reported_mae_value (pB pA : R) :
  reported_mae pB pA
  = ((Rabs (pB - forward 1) + Rabs (pA - forward 3)) / 2)%R.
Proof.
  unfold reported_mae. change H with (S 27). rewrite !mean_repeat.
  unfold mean, Rsum. simpl. lra.
Qed.

Lemma final_row_scales (r : row) :
  In r (values final_test_df) ->
  exists raw : R,
    get "y" r = Num (forward raw)
    /\ get "TimeGPT" r = Num (inverse (forward raw))
    /\ inverse (forward raw) = raw
    /\ (forward raw < raw)%R.
Proof.
  unfold final_test_df. rewrite values_reindexed. intros Hr.
  apply in_app_or in Hr.
  destruct Hr as [Hr|Hr]; apply in_map_iff in Hr; destruct Hr as [day [<- _]].
  - exists 1%R. repeat split; [apply inverse_forward | apply forward_below]; lra.
  - exists 3%R. repeat split; [apply inverse_forward | apply forward_below]; lra.
Qed.

(** C3, on the code.  In the run on [two_series_panel] the remote model is
    right on the transformed scale, so that after the inverse transform every
    point forecast equals the raw demand of its record.  The holdout table
    the evaluation receives still holds the demand on the transformed scale
    ([test_df] is cut from [df_transformed]): the prediction column is on the
    raw scale, the ground-truth column is not, and the mean absolute error
    reported for the model is positive, ((1 - log 2) + (3 - log 4)) / 2. *)
Theorem evaluation_on_transformed_scale :
  fst (pipeline exact_forecast zero_baselines keep_dates
                (loaded two_series_panel)) = Ok tt
  /\ frame_of "test_df" final_state = Some final_test_df
  /\ (forall r, In r (values final_test_df) ->
        exists raw : R,
          get "y" r = Num (forward raw)
          /\ get "TimeGPT" r = Num (inverse (forward raw))
          /\ inverse (forward raw) = raw
          /\ (forward raw < raw)%R)
  /\ frame_of "average_metrics" final_state = Some final_average_metrics
  /\ (exists m : R,
        map (get "TimeGPT") (values final_average_metrics) = [Num m]
        /\ m = (((1 - forward 1) + (3 - forward 3)) / 2)%R
        /\ (0 < m)%R).
Proof.
  destruct final_frames as [Hrun [Htest [_ Havg]]].
  split; [exact Hrun|]. split; [exact Htest|].
  split; [exact final_row_scales|]. split; [exact Havg|].
  exists (reported_mae (inverse (forward 1)) (inverse (forward 3))).
  split; [reflexivity|].
  rewrite reported_mae_value, !inverse_forward by lra.
  pose proof (forward_below 1) as H1. pose proof (forward_below 3) as H3.
  rewrite !Rabs_pos_eq by lra. split; lra.
Qed.

(** ** The forecast with exogenous features *)

(** C6, on the code.  In the run on [two_series_panel] the forecast with
    exogenous features comes back ordered by identifier while the holdout is
    in the order of the panel.  No exception is raised; the column
    [TimeGPT_ex] of the holdout table is the forecast column laid over it by
    position, and no record receives the forecast made for its own key: the
    record of ([B], day 1) holds 3, the forecast for ([A], day 1), while the
    forecast made for ([B], day 1) is 1, the value that the join on the key
    put in the column [TimeGPT] of the same record. *)
Theorem exogenous_forecast_attached_by_position :
  fst (pipeline exact_forecast zero_baselines keep_dates
                (loaded two_series_panel)) = Ok tt
  /\ frame_of "test_df" final_state = Some final_test_df
  /\ frame_of "fcst_df" final_state = Some final_fcst_df
  /\ map (get "TimeGPT_ex") (values final_test_df)
     = map (get "TimeGPT_ex") (values final_fcst_df)
  /\ forallb (fun p => negb (matches join_key (fst p) (snd p)))
             (combine (values final_test_df) (values final_fcst_df)) = true
  /\ (exists r f,
        nth_error (values final_test_df) 0 = Some r
        /\ key join_key r = [Str "B"; Date 1]
        /\ find (matches join_key r) (values final_fcst_df) = Some f
        /\ get "TimeGPT_ex" f = Num (inverse (forward 1))
        /\ get "TimeGPT_ex" r = Num (inverse (forward 3))
        /\ get "TimeGPT" r = Num (inverse (forward 1))
        /\ inverse (forward 1) = 1%R
        /\ inverse (forward 3) = 3%R).
Proof.
  destruct final_frames as [Hrun [Htest [Hfcst _]]].
  split; [exact Hrun|]. split; [exact Htest|]. split; [exact Hfcst|].
  split; [reflexivity|]. split; [reflexivity|].
  eexists. eexists.
  split; [reflexivity|]. split; [reflexivity|]. split; [reflexivity|].
  split; [reflexivity|]. split; [reflexivity|]. split; [reflexivity|].
  split; apply inverse_forward; lra.
Qed.

(** ** The metric *)

Lemma abs_error_float (a p : cell) :
  is_float a = true -> is_float p = true ->
  abs_error a p = Ok (abs_error_cell a p).
Proof. destruct a, p; simpl; intros; try discriminate; reflexivity. Qed.

Lemma abs_error_cell_float (a p : cell) : is_float (abs_error_cell a p) = true.
Proof. destruct a, p; reflexivity. Qed.

Lemma filter_map_group (by_ : string) (k : cell) (g : nat * row -> nat * row)
  (l : list (nat * row)) :
  (forall lr, get by_ (snd (g lr)) = get by_ (snd lr)) ->
  filter (in_group by_ k) (map g l) = map g (filter (in_group by_ k) l).
Proof.
  intros Hg. induction l as [|lr l IH]; simpl; [reflexivity|].
  assert (E : in_group by_ k (g lr) = in_group by_ k lr)
    by (unfold in_group; now rewrite Hg).
  rewrite E. destruct (in_group by_ k lr); simpl; now rewrite IH.
Qed.

(** What [mae] returns on a table of floats: one row per series, and for
    each model the mean of its absolute errors over the records of the
    series that have both the actual value and the prediction. *)
Lemma mae_returns (df : DataFrame) (models : list string)
  (id_col target_col : string) :
  (forall c, In c (id_col :: target_col :: models) -> In c (columns df)) ->
  ~ In id_col models ->
  (forall r c, In r (values df) -> In c (target_col :: models) ->
               is_float (get c r) = true) ->
  mae df models id_col target_col
  = Ok (mkDF (id_col :: models)
             (range_index
                (map (fun k => (id_col, k)
                               :: map (fun m => (m, series_mae df id_col target_col k m))
                                      models)
                     (group_keys id_col df)))).
Proof.
  intros Hc Hid Hf. unfold mae.
  rewrite require_columns_ok by exact Hc. simpl.
  set (g := fun lr : nat * row =>
              (fst lr,
               (id_col, get id_col (snd lr))
               :: map (fun m => (m, abs_error_cell (get target_col (snd lr))
                                                   (get m (snd lr))))
                      models)).
  rewrite (mapM_map _ g).
  2:{ intros lr Hlr. unfold g.
      rewrite (mapM_map _ (fun m => (m, abs_error_cell (get target_col (snd lr))
                                                       (get m (snd lr)))));
        [reflexivity|].
      intros m Hm. rewrite abs_error_float; [reflexivity| |];
        apply Hf; try (now apply in_map); simpl; tauto. }
  simpl. unfold groupby_mean.
  rewrite require_columns_ok by (simpl; tauto). simpl.
  assert (Hget : forall lr, get id_col (snd (g lr)) = get id_col (snd lr)).
  { intros lr. unfold g. simpl. now rewrite String.eqb_refl. }
  assert (Hkeys : group_keys id_col (mkDF (id_col :: models) (map g (records df)))
                  = group_keys id_col df).
  { unfold group_keys, values. simpl. rewrite !map_map.
    do 2 f_equal. apply map_ext. exact Hget. }
  rewrite Hkeys.
  rewrite (mapM_map _
    (fun k => (id_col, k)
              :: map (fun m => (m, series_mae df id_col target_col k m)) models));
    [reflexivity|].
  intros k _.
  rewrite (mapM_map _ (fun m => (m, series_mae df id_col target_col k m)));
    [reflexivity|].
  intros m Hm.
  assert (Hcol : map (get m)
                     (group_rows id_col k
                        (mkDF (id_col :: models) (map g (records df))))
                 = map (fun r => abs_error_cell (get target_col r) (get m r))
                       (group_rows id_col k df)).
  { unfold group_rows. simpl.
    rewrite (filter_map_group id_col k g) by exact Hget.
    rewrite !map_map. apply map_ext. intros lr. unfold g. simpl.
    destruct (String.eqb_spec id_col m) as [E|_]; [subst; contradiction|].
    apply (get_model m (fun m => abs_error_cell (get target_col (snd lr))
                                                (get m (snd lr)))).
    exact Hm. }
  rewrite Hcol, mean_skipna_numbers; [reflexivity|].
  intros c Hin. apply in_map_iff in Hin. destruct Hin as [r [<- _]].
  apply abs_error_cell_float.
Qed.

(** The evaluation of the notebook: the rows of [mae], tagged. *)
Lemma evaluate_returns (df : DataFrame) (models : list string) :
  (forall c, In c ("unique_id" :: "y" :: models) -> In c (columns df)) ->
  ~ In "unique_id" models ->
  (forall r c, In r (values df) -> In c ("y" :: models) ->
               is_float (get c r) = true) ->
  evaluate df [("mae", mae)] models "y" "unique_id"
  = Ok (mkDF ("unique_id" :: "metric" :: models)
             (range_index
                (map (fun k => ("unique_id", k) :: ("metric", Str "mae")
                               :: map (fun m => (m, series_mae df "unique_id" "y" k m))
                                      models)
                     (group_keys "unique_id" df)))).
Proof.
  intros Hc Hid Hf. unfold evaluate. simpl.
  rewrite mae_returns by assumption. simpl.
  rewrite values_reindexed, app_nil_r, map_map. reflexivity.
Qed.

(** ** The loop of the inverse transform *)

Lemma get_set_same (c : string) (v : cell) (r : row) : get c (set c v r) = v.
Proof.
  induction r as [|[k w] r IH]; simpl.
  - now rewrite String.eqb_refl.
  - destruct (String.eqb k c) eqn:E; simpl; rewrite E; [reflexivity | exact IH].
Qed.

Lemma get_set_other (c c' : string) (v : cell) (r : row) :
  c <> c' -> get c' (set c v r) = get c' r.
Proof.
  intros N. induction r as [|[k w] r IH]; simpl.
  - destruct (String.eqb_spec c c'); [contradiction | reflexivity].
  - destruct (String.eqb_spec k c) as [->|Nk]; simpl.
    + destruct (String.eqb_spec c c'); [contradiction | reflexivity].
    + destruct (String.eqb k c'); [reflexivity | exact IH].
Qed.

(** After the loop a cell of a looped column is inverse-transformed, once,
    and every other cell is as before. *)
Lemma get_inverse_row (cols : list string) (c : string) (r : row) :
  NoDup cols ->
  get c (inverse_row cols r)
  = if mem c cols then inverse_float (get c r) else get c r.
Proof.
  unfold inverse_row. revert r.
  induction cols as [|c0 cols IH]; intros r Hnd; [reflexivity|].
  inversion Hnd as [|x xs Hnotin Hnd']; subst.
  simpl. rewrite IH by exact Hnd'.
  unfold mem. simpl. fold (mem c cols).
  destruct (String.eqb_spec c c0) as [->|N].
  - assert (Hm : mem c0 cols = false).
    { destruct (mem c0 cols) eqn:E; [|reflexivity].
      apply mem_In in E. contradiction. }
    now rewrite Hm, get_set_same.
  - simpl. rewrite get_set_other by congruence. reflexivity.
Qed.

Lemma inverse_cell_float (c : cell) :
  is_float c = true -> inverse_cell c = Ok (inverse_float c).
Proof. destruct c; simpl; intros; try discriminate; reflexivity. Qed.

Lemma inverse_loop_returns (cols : list string) (df : DataFrame) :
  NoDup cols ->
  (forall c, In c cols -> In c (columns df)) ->
  (forall r c, In r (values df) -> In c cols -> is_float (get c r) = true) ->
  inverse_loop cols df
  = Ok (mkDF (columns df)
             (map (fun lr => (fst lr, inverse_row cols (snd lr))) (records df))).
Proof.
  revert df. induction cols as [|c cols IH]; intros df Hnd Hc Hf.
  - simpl. destruct df as [cs rs]. simpl. f_equal. f_equal.
    unfold inverse_row. simpl. rewrite <- (map_id rs) at 1.
    apply map_ext. now intros [i r].
  - inversion Hnd as [|x xs Hnotin Hnd']; subst.
    simpl. unfold map_column.
    rewrite require_columns_ok by (intros c' [<-|[]]; apply Hc; now left).
    simpl.
    rewrite (mapM_map _ (fun lr => (fst lr, set c (inverse_float (get c (snd lr)))
                                                  (snd lr)))).
    2:{ intros lr Hlr. rewrite inverse_cell_float; [reflexivity|].
        apply Hf; [now apply in_map | now left]. }
    simpl. rewrite IH.
    + simpl. rewrite map_map. reflexivity.
    + exact Hnd'.
    + simpl. intros c' Hc'. apply Hc. now right.
    + unfold values. simpl. rewrite map_map. simpl.
      intros r c' Hr Hc'. apply in_map_iff in Hr.
      destruct Hr as [lr [<- Hlr]].
      rewrite get_set_other by (intros ->; contradiction).
      apply Hf; [now apply in_map | now right].
Qed.

(** On a forecast whose value columns hold floats the loop succeeds and
    inverse-transforms every column but [ds] and [unique_id]: the point
    forecast and every bound. *)
Lemma inverse_transform_returns (df : DataFrame) :
  NoDup (columns df) ->
  (forall r c, In r (values df) -> In c (value_columns df) ->
               is_float (get c r) = true) ->
  inverse_transform df = Ok (inverse_frame df)
  /\ forall r c, In r (values df) ->
       get c (inverse_row (value_columns df) r)
       = if mem c (value_columns df) then inverse_float (get c r) else get c r.
Proof.
  intros Hnd Hf.
  assert (Hnd' : NoDup (value_columns df)) by now apply NoDup_filter.
  split.
  - unfold inverse_transform, inverse_frame.
    apply inverse_loop_returns; [exact Hnd' | | exact Hf].
    intros c Hc. apply filter_In in Hc. tauto.
  - intros r c _. now apply get_inverse_row.
Qed.

Lemma nth_error_update_same (h : list DataFrame) (l : nat) (d v : DataFrame) :
  nth_error h l = Some d -> nth_error (update l v h) l = Some v.
Proof.
  revert l. induction h as [|d0 h IH]; intros [|l] Hl; simpl in *;
    try discriminate; [reflexivity | now apply IH].
Qed.

Lemma update_update (h : list DataFrame) (l : nat) (v w : DataFrame) :
  update l w (update l v h) = update l w h.
Proof.
  revert l. induction h as [|d0 h IH]; intros [|l]; simpl;
    try reflexivity. now rewrite IH.
Qed.

Lemma update_same (h : list DataFrame) (l : nat) (d : DataFrame) :
  nth_error h l = Some d -> update l d h = h.
Proof.
  revert l. induction h as [|d0 h IH]; intros [|l] Hl; simpl in *;
    try discriminate; [now injection Hl as -> | now rewrite IH].
Qed.

(** The loop of the cell, run on the store, changes the object in place to
    what the loop returns. *)
Lemma for_each_inverse (x : string) (cols : list string) (st : state)
  (l : nat) (d d' : DataFrame) :
  lookup x (env st) = Some l ->
  nth_error (heap st) l = Some d ->
  inverse_loop cols d = Ok d' ->
  for_each cols (fun col => mutate x (map_column col inverse_cell)) st
  = (Ok tt, mkState (update l d' (heap st)) (env st)).
Proof.
  revert st d. induction cols as [|c cols IH]; intros st d Hx Hd Hloop.
  - simpl in Hloop. injection Hloop as <-. unfold ret. simpl.
    rewrite update_same by exact Hd. now destruct st.
  - simpl in Hloop. simpl. unfold bind, mutate at 1. rewrite Hx, Hd.
    destruct (map_column c inverse_cell d) as [d1|e]; [|discriminate].
    simpl in Hloop.
    rewrite (IH (mkState (update l d1 (heap st)) (env st)) d1);
      [| exact Hx | now apply (nth_error_update_same _ _ d) | exact Hloop].
    simpl. now rewrite update_update.
Qed.

Lemma run_cell_inverse (x : string) (st : state) (l : nat) (d : DataFrame) :
  lookup x (env st) = Some l ->
  nth_error (heap st) l = Some d ->
  NoDup (columns d) ->
  (forall r c, In r (values d) -> In c (value_columns d) ->
               is_float (get c r) = true) ->
  cell_inverse x st
  = (Ok tt, mkState (update l (inverse_frame d) (heap st)) (env st)).
Proof.
  intros Hx Hd Hnd Hf. unfold cell_inverse, bind, obj. rewrite Hx, Hd.
  apply (for_each_inverse x _ st l d); [exact Hx | exact Hd |].
  now apply inverse_transform_returns.
Qed.

(** The cell of the split binds [test_df] and [input_df] to what [split]
    returns. *)
Lemma run_cell_split (st : state) (d test_df input_df : DataFrame) :
  frame_of "df_transformed" st = Some d ->
  split H d = Ok (test_df, input_df) ->
  cell_split st
  = (Ok tt,
     mkState ((heap st ++ [test_df]) ++ [input_df])
             (("input_df", length (heap st ++ [test_df]))
              :: ("test_df", length (heap st)) :: env st)).
Proof.
  unfold frame_of, split, cell_split, bind, obj, lift, let_.
  intros Hd Hs.
  destruct (lookup "df_transformed" (env st)) as [l|]; [|discriminate].
  rewrite Hd.
  destruct (groupby_tail "unique_id" H d) as [t|e]; [|discriminate].
  simpl in Hs. simpl.
  destruct (drop (index t) d) as [rest|e]; [|discriminate].
  simpl in Hs. now injection Hs as <- <-.
Qed.

(** ** The split in the pipeline *)

(** The transform keeps the index, the columns and the identifiers, so the
    frame the pipeline splits has the series of the panel, each record with
    its demand on the transformed scale. *)
Lemma transformed_unique_index (df : DataFrame) :
  unique_index df -> unique_index (transformed df).
Proof.
  unfold unique_index, index, transformed. simpl.
  rewrite map_map. simpl. now intros Hu.
Qed.

Lemma series_transformed (id : string) (df : DataFrame) :
  series id (transformed df) = map log_row (series id df).
Proof.
  unfold series, values, transformed. simpl. rewrite map_map. simpl.
  induction (records df) as [|lr rs IH]; simpl; [reflexivity|].
  unfold log_row at 1. rewrite get_set_other by discriminate.
  destruct (cell_eqb (get "unique_id" (snd lr)) (Str id)); simpl;
    now rewrite IH.
Qed.

(** * Further properties of the cells *)

(** ** Missing columns *)

Lemma require_columns_raises (cs : list string) (df : DataFrame) (e : exn) :
  require_columns cs df = Raise e ->
  exists c, e = KeyError c /\ In c cs /\ ~ In c (columns df).
Proof.
  unfold require_columns.
  destruct (filter (fun c => negb (mem c (columns df))) cs) as [|c l] eqn:E;
    [discriminate|].
  intros [= <-]. exists c. split; [reflexivity|].
  assert (Hin : In c (filter (fun c => negb (mem c (columns df))) cs))
    by (rewrite E; now left).
  apply filter_In in Hin. destruct Hin as [Hin Hm]. split; [exact Hin|].
  intros Hc. apply mem_In in Hc. rewrite Hc in Hm. discriminate.
Qed.

Lemma require_columns_missing (cs : list string) (df : DataFrame) (c : string) :
  In c cs -> ~ In c (columns df) ->
  exists c', require_columns cs df = Raise (KeyError c')
             /\ In c' cs /\ ~ In c' (columns df).
Proof.
  intros Hin Hno. destruct (require_columns cs df) as [[]|e] eqn:E.
  - exfalso. unfold require_columns in E.
    destruct (filter (fun c => negb (mem c (columns df))) cs) as [|c0 l] eqn:F;
      [|discriminate].
    assert (Hf : In c (filter (fun c => negb (mem c (columns df))) cs)).
    { apply filter_In. split; [exact Hin|].
      destruct (mem c (columns df)) eqn:Em; [|reflexivity].
      apply mem_In in Em. contradiction. }
    rewrite F in Hf. destruct Hf.
  - destruct (require_columns_raises cs df e E) as [c' [-> H']].
    now exists c'.
Qed.

(** ** The cell of the inverse transform *)

Lemma values_inverse_frame (df : DataFrame) :
  values (inverse_frame df) = map (inverse_row (value_columns df)) (values df).
Proof.
  unfold values, inverse_frame. simpl. now rewrite !map_map.
Qed.

Lemma forecast_demo_columns : NoDup (columns forecast_demo).
Proof.
  simpl. repeat constructor; simpl; intuition discriminate.
Qed.

Lemma forecast_demo_floats (r : row) (c : string) :
  In r (values forecast_demo) -> In c (value_columns forecast_demo) ->
  is_float (get c r) = true.
Proof.
  intros [<-|[]] [<-|[]]. reflexivity.
Qed.

Lemma mem_filter (p : string -> bool) (c : string) (l : list string) :
  mem c (filter p l) = p c && mem c l.
Proof.
  destruct (mem c (filter p l)) eqn:E.
  - apply mem_In in E. apply filter_In in E. destruct E as [Hin Hp].
    apply mem_In in Hin. now rewrite Hp, Hin.
  - destruct (p c) eqn:Hp; [|reflexivity].
    destruct (mem c l) eqn:Hm; [|reflexivity].
    apply mem_In in Hm.
    assert (Hf : mem c (filter p l) = true)
      by (apply mem_In, filter_In; now split).
    congruence.
Qed.

(** X4.  The cell of the inverse transform, run on the store: on a forecast
    with distinct columns whose value columns hold floats it raises nothing
    and changes the frame in place; the index and the columns are kept, the
    cells of [ds] and [unique_id] are untouched, and every other column of
    the frame, the point forecast and each interval bound alike, is
    inverse-transformed exactly once. *)
Theorem inverse_cell_covers_value_columns (x : string) (st : state) (l : nat)
  (d : DataFrame) :
  lookup x (env st) = Some l ->
  nth_error (heap st) l = Some d ->
  NoDup (columns d) ->
  (forall r c, In r (values d) -> In c (value_columns d) ->
               is_float (get c r) = true) ->
  cell_inverse x st
  = (Ok tt, mkState (update l (inverse_frame d) (heap st)) (env st))
  /\ frame_of x (snd (cell_inverse x st)) = Some (inverse_frame d)
  /\ columns (inverse_frame d) = columns d
  /\ index (inverse_frame d) = index d
  /\ values (inverse_frame d) = map (inverse_row (value_columns d)) (values d)
  /\ (forall r c,
        get c (inverse_row (value_columns d) r)
        = if mem c ["ds"; "unique_id"] then get c r
          else if mem c (columns d) then inverse_float (get c r)
               else get c r).
Proof.
  intros Hx Hd Hnd Hf.
  assert (E : cell_inverse x st
              = (Ok tt, mkState (update l (inverse_frame d) (heap st)) (env st)))
    by now apply run_cell_inverse.
  split; [exact E|]. split; [|split; [reflexivity|split; [|split]]].
  - rewrite E. unfold frame_of. simpl. rewrite Hx.
    now apply (nth_error_update_same _ _ d).
  - unfold index, inverse_frame. simpl. now rewrite map_map.
  - apply values_inverse_frame.
  - intros r c. rewrite get_inverse_row by now apply NoDup_filter.
    unfold value_columns. rewrite mem_filter.
    now destruct (mem c ["ds"; "unique_id"]), (mem c (columns d)).
Qed.

Lemma inverse_cell_covers_value_columns_witness :
  cell_inverse "fcst_df" forecast_state
  = (Ok tt, mkState (update 0 (inverse_frame forecast_demo)
                            (heap forecast_state))
                    (env forecast_state))
  /\ frame_of "fcst_df" (snd (cell_inverse "fcst_df" forecast_state))
     = Some (inverse_frame forecast_demo)
  /\ columns (inverse_frame forecast_demo) = columns forecast_demo
  /\ index (inverse_frame forecast_demo) = index forecast_demo
  /\ values (inverse_frame forecast_demo)
     = map (inverse_row (value_columns forecast_demo)) (values forecast_demo)
  /\ (forall r c,
        get c (inverse_row (value_columns forecast_demo) r)
        = if mem c ["ds"; "unique_id"] then get c r
          else if mem c (columns forecast_demo) then inverse_float (get c r)
               else get c r).
Proof.
  apply (inverse_cell_covers_value_columns "fcst_df" forecast_state 0
           forecast_demo).
  - reflexivity.
  - reflexivity.
  - exact forecast_demo_columns.
  - exact forecast_demo_floats.
Defined.

(** ** The errors the evaluation reports *)

Lemma fold_left_nonneg (xs : list R) (a : R) :
  (0 <= a)%R -> Forall (fun x => (0 <= x)%R) xs ->
  (a <= fold_left Rplus xs a)%R.
Proof.
  intros Ha Hall. revert a Ha.
  induction Hall as [|x xs Hx _ IH]; intros a Ha; simpl; [lra|].
  specialize (IH (a + x)%R ltac:(lra)). lra.
Qed.

Lemma fold_left_zero (xs : list R) :
  Forall (fun x => (0 <= x)%R) xs ->
  (fold_left Rplus xs 0 = 0 <-> Forall (fun x => x = 0) xs)%R.
Proof.
  intros Hall. rewrite (fold_symmetric Rplus) by (intros; lra).
  induction Hall as [|x xs Hx Hxs IH]; simpl.
  - split; [constructor | reflexivity].
  - assert (Hs : (0 <= fold_right Rplus 0 xs)%R).
    { rewrite <- (fold_symmetric Rplus) by (intros; lra).
      now apply fold_left_nonneg; [lra|]. }
    split.
    + intros E. constructor; [lra|]. apply IH. lra.
    + intros Hz. inversion Hz as [|y ys Hy Hys]; subst.
      apply IH in Hys. lra.
Qed.

(** The arithmetic mean of nonnegative values is nonnegative, and zero
    exactly when they all are. *)
Lemma arithmetic_mean_zero (x : R) (xs : list R) :
  Forall (fun y => (0 <= y)%R) (x :: xs) ->
  (0 <= arithmetic_mean (x :: xs))%R
  /\ (arithmetic_mean (x :: xs) = 0%R <-> Forall (fun y => y = 0%R) (x :: xs)).
Proof.
  intros Hall. unfold arithmetic_mean.
  assert (Hn : (0 < INR (length (x :: xs)))%R) by (apply lt_0_INR; simpl; lia).
  pose proof (fold_left_nonneg (x :: xs) 0 ltac:(lra) Hall) as Hs.
  pose proof (Rinv_0_lt_compat _ Hn) as Hi.
  unfold Rdiv. split; [nra|].
  rewrite <- (fold_left_zero _ Hall). split; intros E; nra.
Qed.

Lemma absolute_errors_In (df : DataFrame) (s m : string) (x : R) :
  In x (absolute_errors df s m)
  <-> exists r y p, In r (values df) /\ get "unique_id" r = Str s
                    /\ get "y" r = Num y /\ get m r = Num p
                    /\ x = Rabs (p - y).
Proof.
  unfold absolute_errors. rewrite in_flat_map. split.
  - intros [r [Hr Hx]].
    destruct (get "unique_id" r) as [s'| | |] eqn:Eid; try destruct Hx.
    destruct (get "y" r) as [ | |y|] eqn:Ey; try destruct Hx.
    destruct (get m r) as [ | |p|] eqn:Ep; try destruct Hx.
    destruct (String.eqb_spec s' s) as [->|N]; [|destruct Hx].
    destruct Hx as [<-|[]]. exists r, y, p. tauto.
  - intros [r [y [p [Hr [Eid [Ey [Ep ->]]]]]]]. exists r. split; [exact Hr|].
    rewrite Eid, Ey, Ep, String.eqb_refl. now left.
Qed.

(** On a series the mean absolute error is a nonnegative number, zero
    exactly when every record that has both values is predicted exactly. *)
Lemma mean_absolute_error_Num (df : DataFrame) (s m : string) (e : R) :
  mean_absolute_error df s m = Num e ->
  (0 <= e)%R
  /\ (e = 0%R <->
      forall r y p, In r (values df) -> get "unique_id" r = Str s ->
                    get "y" r = Num y -> get m r = Num p -> p = y).
Proof.
  unfold mean_absolute_error.
  assert (Hall : Forall (fun x => (0 <= x)%R) (absolute_errors df s m)).
  { apply Forall_forall. intros x Hx. apply absolute_errors_In in Hx.
    destruct Hx as [r [y [p [_ [_ [_ [_ ->]]]]]]]. apply Rabs_pos. }
  destruct (absolute_errors df s m) as [|x xs] eqn:En; [discriminate|].
  intros [= <-]. destruct (arithmetic_mean_zero x xs Hall) as [Hge Hz].
  split; [exact Hge|]. rewrite Hz, <- En, Forall_forall. split.
  - intros Hzero r y p Hr Hid Hy Hp.
    assert (Hin : In (Rabs (p - y)) (absolute_errors df s m)).
    { apply absolute_errors_In. exists r, y, p. tauto. }
    apply Hzero in Hin.
    destruct (Req_dec p y) as [E|N]; [exact E|].
    exfalso. assert (Hpos : (0 < Rabs (p - y))%R) by (apply Rabs_pos_lt; lra).
    lra.
  - intros Hexact x0 Hx0. apply absolute_errors_In in Hx0.
    destruct Hx0 as [r [y [p [Hr [Hid [Hy [Hp ->]]]]]]].
    rewrite (Hexact r y p Hr Hid Hy Hp).
    replace (y - y)%R with 0%R by lra. apply Rabs_R0.
Qed.

(** The per-series error of the code is the mean absolute error of the
    spec's words. *)
Lemma series_mae_spec (df : DataFrame) (s m : string) :
  series_mae df "unique_id" "y" (Str s) m = mean_absolute_error df s m.
Proof.
  unfold series_mae, mean_absolute_error.
  assert (E : numbers (map (fun r => abs_error_cell (get "y" r) (get m r))
                           (group_rows "unique_id" (Str s) df))
              = absolute_errors df s m).
  { unfold group_rows, absolute_errors, values.
    induction (records df) as [|lr rs IH]; simpl; [reflexivity|].
    unfold in_group at 1.
    destruct (get "unique_id" (snd lr)) as [s'| | |]; simpl; try exact IH.
    destruct (String.eqb s' s); simpl;
      [|destruct (get "y" (snd lr)); try exact IH;
        destruct (get m (snd lr)); exact IH].
    destruct (get "y" (snd lr)); simpl; try exact IH.
    destruct (get m (snd lr)); simpl; try exact IH. now rewrite IH. }
  rewrite E. destruct (absolute_errors df s m); [reflexivity|].
  now rewrite mean_arithmetic.
Qed.

Lemma get_cons (c k : string) (v : cell) (r : row) :
  get c ((k, v) :: r) = if String.eqb k c then v else get c r.
Proof. reflexivity. Qed.

Lemma get_evaluation_row (df : DataFrame) (models : list string) (k : cell)
  (m : string) :
  In m models -> ~ In "unique_id" models -> ~ In "metric" models ->
  get "unique_id" (evaluation_row df models k) = k
  /\ get "metric" (evaluation_row df models k) = Str "mae"
  /\ get m (evaluation_row df models k) = series_mae df "unique_id" "y" k m.
Proof.
  intros Hm Hid Hmetric. unfold evaluation_row.
  split; [reflexivity|]. split; [reflexivity|]. rewrite !get_cons.
  destruct (String.eqb_spec "unique_id" m) as [E|_]; [subst; contradiction|].
  destruct (String.eqb_spec "metric" m) as [E|_]; [subst; contradiction|].
  now apply (get_model m (fun m => series_mae df "unique_id" "y" k m)).
Qed.

Lemma evaluate_rows (df : DataFrame) (models : list string) :
  (forall c, In c ("unique_id" :: "y" :: models) -> In c (columns df)) ->
  ~ In "unique_id" models ->
  (forall r c, In r (values df) -> In c ("y" :: models) ->
               is_float (get c r) = true) ->
  evaluate df [("mae", mae)] models "y" "unique_id"
  = Ok (mkDF ("unique_id" :: "metric" :: models)
             (range_index (map (evaluation_row df models)
                               (group_keys "unique_id" df)))).
Proof. exact (evaluate_returns df models). Qed.

(** The series of a table whose identifiers are names: each name once, in
    ascending order. *)
Lemma series_ids (df : DataFrame) :
  (forall r, In r (values df) -> is_str (get "unique_id" r) = true) ->
  NoDup (group_keys "unique_id" df)
  /\ Sorted name_le (group_keys "unique_id" df)
  /\ (forall k, In k (group_keys "unique_id" df)
                <-> In k (map (get "unique_id") (values df)))
  /\ forall k, In k (group_keys "unique_id" df) -> is_str k = true.
Proof.
  intros Hnames.
  destruct (group_keys_spec "unique_id" df) as [Hnd [Hs Hin]].
  assert (Hstr : forall k, In k (group_keys "unique_id" df) -> is_str k = true).
  { intros k Hk. apply Hin in Hk. destruct Hk as [Hk _].
    apply in_map_iff in Hk. destruct Hk as [r [<- Hr]]. now apply Hnames. }
  split; [exact Hnd|]. split; [now apply sorted_names|]. split; [|exact Hstr].
  intros k. rewrite Hin. split; [tauto|]. intros Hk. split; [exact Hk|].
  apply in_map_iff in Hk. destruct Hk as [r [<- Hr]].
  specialize (Hnames r Hr). now destruct (get "unique_id" r).
Qed.

(** X5.  The evaluation of the notebook: on a table whose identifiers are
    names and whose target and model columns hold floats, [evaluate] with
    the metric [mae] raises nothing and returns one row per series, tagged
    [mae], the series in ascending order of their names; the cell of a model
    is the mean absolute error of the model on the series, the sum of
    [|prediction - actual|] over the records of the series that have both
    values divided by their number, and it is missing when there is no such
    record; a number there is nonnegative, and zero exactly when each of
    these predictions equals its actual value. *)
Theorem evaluate_reports_series_mae (df : DataFrame) (models : list string) :
  (forall c, In c ("unique_id" :: "y" :: models) -> In c (columns df)) ->
  ~ In "unique_id" models ->
  ~ In "metric" models ->
  (forall r, In r (values df) -> is_str (get "unique_id" r) = true) ->
  (forall r c, In r (values df) -> In c ("y" :: models) ->
               is_float (get c r) = true) ->
  exists evaluation,
    evaluate df [("mae", mae)] models "y" "unique_id" = Ok evaluation
    /\ columns evaluation = "unique_id" :: "metric" :: models
    /\ NoDup (map (get "unique_id") (values evaluation))
    /\ Sorted name_le (map (get "unique_id") (values evaluation))
    /\ (forall k, In k (map (get "unique_id") (values evaluation))
                  <-> In k (map (get "unique_id") (values df)))
    /\ (forall r, In r (values evaluation) ->
          exists s,
            get "unique_id" r = Str s
            /\ get "metric" r = Str "mae"
            /\ forall m, In m models ->
                 get m r = mean_absolute_error df s m
                 /\ forall e, get m r = Num e ->
                      (0 <= e)%R
                      /\ (e = 0%R <->
                          forall r' y p,
                            In r' (values df) ->
                            get "unique_id" r' = Str s ->
                            get "y" r' = Num y -> get m r' = Num p ->
                            p = y)).
Proof.
  intros Hc Hid Hmetric Hnames Hf.
  destruct (series_ids df Hnames) as [Hnd [Hs [Hin Hstr]]].
  eexists. split; [now apply evaluate_rows|]. split; [reflexivity|].
  rewrite values_reindexed.
  assert (Hkeys : map (get "unique_id")
                      (map (evaluation_row df models)
                           (group_keys "unique_id" df))
                  = group_keys "unique_id" df).
  { rewrite map_map. rewrite <- (map_id (group_keys "unique_id" df)) at 2.
    apply map_ext. reflexivity. }
  rewrite Hkeys.
  split; [exact Hnd|]. split; [exact Hs|]. split; [exact Hin|].
  intros r Hr. apply in_map_iff in Hr. destruct Hr as [k [<- Hk]].
  specialize (Hstr k Hk). destruct k as [s| | |]; try discriminate.
  exists s. split; [reflexivity|]. split; [reflexivity|].
  intros m Hm.
  destruct (get_evaluation_row df models (Str s) m Hm Hid Hmetric)
    as [_ [_ ->]].
  rewrite series_mae_spec. split; [reflexivity|].
  intros e. apply mean_absolute_error_Num.
Qed.

Lemma joined_demo_floats (r : row) (c : string) :
  In r (values joined_demo) -> In c ["y"; "TimeGPT"] ->
  is_float (get c r) = true.
Proof.
  intros Hr [<-|[<-|[]]]; destruct Hr as [<-|[<-|[]]]; reflexivity.
Qed.

Lemma joined_demo_names (r : row) :
  In r (values joined_demo) -> is_str (get "unique_id" r) = true.
Proof. intros [<-|[<-|[]]]; reflexivity. Qed.

Lemma joined_demo_columns (c : string) :
  In c ["unique_id"; "y"; "TimeGPT"] -> In c (columns joined_demo).
Proof. intros [<-|[<-|[<-|[]]]]; simpl; tauto. Qed.

Lemma joined_demo_models (c : string) : In c ["unique_id"; "metric"] ->
  ~ In c ["TimeGPT"].
Proof. intros [<-|[<-|[]]] [E|[]]; discriminate. Qed.

Lemma evaluate_reports_series_mae_witness :
  exists evaluation,
    evaluate joined_demo [("mae", mae)] ["TimeGPT"] "y" "unique_id"
    = Ok evaluation
    /\ columns evaluation = "unique_id" :: "metric" :: ["TimeGPT"]
    /\ NoDup (map (get "unique_id") (values evaluation))
    /\ Sorted name_le (map (get "unique_id") (values evaluation))
    /\ (forall k, In k (map (get "unique_id") (values evaluation))
                  <-> In k (map (get "unique_id") (values joined_demo)))
    /\ (forall r, In r (values evaluation) ->
          exists s,
            get "unique_id" r = Str s
            /\ get "metric" r = Str "mae"
            /\ forall m, In m ["TimeGPT"] ->
                 get m r = mean_absolute_error joined_demo s m
                 /\ forall e, get m r = Num e ->
                      (0 <= e)%R
                      /\ (e = 0%R <->
                          forall r' y p,
                            In r' (values joined_demo) ->
                            get "unique_id" r' = Str s ->
                            get "y" r' = Num y -> get m r' = Num p ->
                            p = y)).
Proof.
  apply (evaluate_reports_series_mae joined_demo ["TimeGPT"]).
  - exact joined_demo_columns.
  - apply joined_demo_models. simpl. tauto.
  - apply joined_demo_models. simpl. tauto.
  - exact joined_demo_names.
  - exact joined_demo_floats.
Defined.

(** ** The evaluation and the summary together *)

Lemma groupby_mean_returns (by_ : string) (cols : list string)
  (df : DataFrame) :
  (forall c, In c (by_ :: cols) -> In c (columns df)) ->
  (forall r c, In r (values df) -> In c cols -> is_float (get c r) = true) ->
  groupby_mean by_ cols df
  = Ok (mkDF (by_ :: cols)
             (range_index
                (map (fun k =>
                        (by_, k)
                        :: map (fun c =>
                                  (c, match numbers (map (get c)
                                                         (group_rows by_ k df))
                                      with
                                      | [] => NaN
                                      | xs => Num (mean xs)
                                      end))
                               cols)
                     (group_keys by_ df)))).
Proof.
  intros Hc Hf. unfold groupby_mean.
  rewrite require_columns_ok by exact Hc. simpl.
  rewrite (mapM_map _
    (fun k => (by_, k)
              :: map (fun c => (c, match numbers (map (get c)
                                                     (group_rows by_ k df)) with
                                   | [] => NaN
                                   | xs => Num (mean xs)
                                   end)) cols));
    [reflexivity|].
  intros k _.
  rewrite (mapM_map _
    (fun c => (c, match numbers (map (get c) (group_rows by_ k df)) with
                  | [] => NaN
                  | xs => Num (mean xs)
                  end))); [reflexivity|].
  intros c Hin. rewrite mean_skipna_numbers; [reflexivity|].
  intros x Hx. apply in_map_iff in Hx. destruct Hx as [r [<- Hr]].
  apply Hf; [|exact Hin]. now apply (group_rows_incl by_ k).
Qed.

Lemma distinct_one (k : cell) (n : nat) :
  isnan k = false -> distinct (repeat k (S n)) = [k].
Proof.
  intros Hk. induction n as [|n IH].
  - simpl. now rewrite Hk.
  - change (repeat k (S (S n))) with (k :: repeat k (S n)).
    cbn [distinct]. rewrite Hk, IH. simpl. now rewrite cell_eqb_refl.
Qed.

Lemma map_const {A B : Type} (b : B) (l : list A) :
  map (fun _ => b) l = repeat b (length l).
Proof. induction l as [|a l IH]; simpl; [reflexivity | now rewrite IH]. Qed.

Lemma series_mae_float (df : DataFrame) (k : cell) (m : string) :
  is_float (series_mae df "unique_id" "y" k m) = true.
Proof. unfold series_mae. now destruct (numbers _). Qed.

Lemma filter_all {A : Type} (p : A -> bool) (l : list A) :
  (forall a, In a l -> p a = true) -> filter p l = l.
Proof.
  intros Hp. induction l as [|a l IH]; simpl; [reflexivity|].
  rewrite Hp by now left. f_equal. apply IH. intros x Hx. apply Hp. now right.
Qed.

(** The per-series errors of a model that are numbers, series by series. *)
Lemma numbers_series_errors (df : DataFrame) (ids : list cell) (m : string) :
  (forall k, In k ids -> is_str k = true) ->
  numbers (map (fun k => series_mae df "unique_id" "y" k m) ids)
  = series_errors df ids m.
Proof.
  intros Hstr. unfold series_errors.
  induction ids as [|k ids IH]; simpl; [reflexivity|].
  rewrite <- IH by (intros x Hx; apply Hstr; now right).
  assert (Hk : is_str k = true) by (apply Hstr; now left).
  destruct k as [s| | |]; try discriminate.
  rewrite series_mae_spec. unfold mean_absolute_error.
  now destruct (absolute_errors df s m).
Qed.

(** X6.  The evaluation followed by the summary, as the evaluation cells run
    them: on a table whose identifiers are names and whose target and model
    columns hold floats, the two raise nothing and give one row for the
    metric [mae], in which the cell of each model is the arithmetic mean,
    over the series taken once each in ascending order of their names, of
    the mean absolute errors of the model, the series that have none left
    out; it is missing when no series has one, and a table with no record
    gives a summary with no row. *)
Theorem average_is_mean_over_series (df : DataFrame) (models : list string) :
  (forall c, In c ("unique_id" :: "y" :: models) -> In c (columns df)) ->
  ~ In "unique_id" models ->
  ~ In "metric" models ->
  (forall r, In r (values df) -> is_str (get "unique_id" r) = true) ->
  (forall r c, In r (values df) -> In c ("y" :: models) ->
               is_float (get c r) = true) ->
  exists ids,
    NoDup ids
    /\ Sorted name_le ids
    /\ (forall k, In k ids <-> In k (map (get "unique_id") (values df)))
    /\ rbind (evaluate df [("mae", mae)] models "y" "unique_id")
             (fun evaluation => summarize evaluation models)
       = Ok (mkDF ("metric" :: models)
                  match ids with
                  | [] => []
                  | _ :: _ =>
                      [(0, ("metric", Str "mae")
                           :: map (fun m =>
                                     (m, match series_errors df ids m with
                                         | [] => NaN
                                         | xs => Num (arithmetic_mean xs)
                                         end))
                                  models)]
                  end).
Proof.
  intros Hc Hid Hmetric Hnames Hf.
  destruct (series_ids df Hnames) as [Hnd [Hs [Hin Hstr]]].
  exists (group_keys "unique_id" df).
  split; [exact Hnd|]. split; [exact Hs|]. split; [exact Hin|].
  rewrite evaluate_rows by assumption. simpl.
  set (keys := group_keys "unique_id" df) in *.
  set (ev := mkDF ("unique_id" :: "metric" :: models)
                  (range_index (map (evaluation_row df models) keys))).
  assert (Hvals : values ev = map (evaluation_row df models) keys)
    by apply values_reindexed.
  unfold summarize. rewrite groupby_mean_returns.
  2:{ intros c [<-|Hc']; simpl; tauto. }
  2:{ intros r c Hr Hc'. rewrite Hvals in Hr. apply in_map_iff in Hr.
      destruct Hr as [k [<- _]].
      destruct (get_evaluation_row df models k c Hc' Hid Hmetric)
        as [_ [_ ->]].
      apply series_mae_float. }
  f_equal. f_equal.
  assert (Hkeys : group_keys "metric" ev
                  = match keys with [] => [] | _ :: _ => [Str "mae"] end).
  { unfold group_keys. rewrite Hvals, map_map.
    rewrite (map_ext _ (fun _ => Str "mae")) by reflexivity.
    rewrite map_const. destruct keys as [|k ks]; [reflexivity|].
    cbn [length]. now rewrite distinct_one. }
  rewrite Hkeys. destruct keys as [|k0 ks] eqn:Ek; [reflexivity|].
  rewrite <- Ek in *. cbn [map].
  change (range_index [?r]) with [(0, r)].
  do 3 f_equal.
  apply map_ext_in. intros m Hm. f_equal.
  assert (Hrows : group_rows "metric" (Str "mae") ev
                  = map (evaluation_row df models) keys).
  { unfold group_rows. rewrite filter_all; [exact Hvals|].
    intros lr Hlr. unfold in_group.
    assert (Hl : In (snd lr) (values ev)) by now apply in_map.
    rewrite Hvals in Hl. apply in_map_iff in Hl.
    destruct Hl as [k [<- _]]. reflexivity. }
  rewrite Hrows, map_map.
  rewrite (map_ext_in _ (fun k => series_mae df "unique_id" "y" k m))
    by (intros k _; now apply get_evaluation_row).
  rewrite (numbers_series_errors df keys m Hstr).
  destruct (series_errors df keys m); [reflexivity|].
  now rewrite mean_arithmetic.
Qed.

Lemma average_is_mean_over_series_witness :
  exists ids,
    NoDup ids
    /\ Sorted name_le ids
    /\ (forall k, In k ids <-> In k (map (get "unique_id") (values joined_demo)))
    /\ rbind (evaluate joined_demo [("mae", mae)] ["TimeGPT"] "y" "unique_id")
             (fun evaluation => summarize evaluation ["TimeGPT"])
       = Ok (mkDF ("metric" :: ["TimeGPT"])
                  match ids with
                  | [] => []
                  | _ :: _ =>
                      [(0, ("metric", Str "mae")
                           :: map (fun m =>
                                     (m, match series_errors joined_demo ids m
                                         with
                                         | [] => NaN
                                         | xs => Num (arithmetic_mean xs)
                                         end))
                                  ["TimeGPT"])]
                  end).
Proof.
  apply (average_is_mean_over_series joined_demo ["TimeGPT"]).
  - exact joined_demo_columns.
  - apply joined_demo_models. simpl. tauto.
  - apply joined_demo_models. simpl. tauto.
  - exact joined_demo_names.
  - exact joined_demo_floats.
Defined.

(** ** The store after a binding *)

Lemma frame_of_let (x : string) (d : DataFrame) (st : state) :
  frame_of x (snd (let_ x d st)) = Some d.
Proof.
  unfold frame_of, let_. simpl. rewrite String.eqb_refl.
  rewrite nth_error_app2 by lia. now rewrite Nat.sub_diag.
Qed.

Lemma frame_of_let_other (x y : string) (d d' : DataFrame) (st : state) :
  x <> y -> frame_of y st = Some d' ->
  frame_of y (snd (let_ x d st)) = Some d'.
Proof.
  unfold frame_of, let_. simpl. intros N Hy.
  destruct (String.eqb_spec x y) as [E|_]; [contradiction|].
  destruct (lookup y (env st)) as [l|]; [|discriminate].
  rewrite nth_error_app1; [exact Hy|].
  apply nth_error_Some. congruence.
Qed.

Lemma obj_frame_of (x : string) (d : DataFrame) (st : state) :
  frame_of x st = Some d -> obj x st = (Ok d, st).
Proof.
  unfold frame_of, obj. destruct (lookup x (env st)) as [l|]; [|discriminate].
  now intros ->.
Qed.

(** ** The future exogenous features *)

Lemma get_filter_row (cs : list string) (c : string) (r : row) :
  get c (filter (fun kv => negb (mem (fst kv) cs)) r)
  = if mem c cs then NaN else get c r.
Proof.
  induction r as [|[k v] r IH]; simpl.
  - now destruct (mem c cs).
  - destruct (mem k cs) eqn:Ek; simpl.
    + destruct (String.eqb_spec k c) as [->|_]; [now rewrite IH, Ek | exact IH].
    + destruct (String.eqb_spec k c) as [->|_]; [now rewrite Ek | exact IH].
Qed.

Lemma drop_columns_returns (cs : list string) (df : DataFrame) :
  (forall c, In c cs -> In c (columns df)) ->
  drop_columns cs df
  = Ok (mkDF (filter (fun c => negb (mem c cs)) (columns df))
             (map (fun lr => (fst lr,
                              filter (fun kv => negb (mem (fst kv) cs)) (snd lr)))
                  (records df))).
Proof.
  intros Hc. unfold drop_columns. now rewrite require_columns_ok.
Qed.

(** X7.  The cell of the future exogenous features: when the holdout table
    has every column the cell drops, the cell raises nothing, leaves
    [test_df] as it is and binds [futr_exog_df] to a frame with the same
    index and the same records in the same order, whose columns are those
    of the holdout table without the dropped ones; a record keeps its cells
    ([unique_id], [ds] and the exogenous features) and reads as missing in
    the target, the price and every prediction column. *)
Theorem future_exogenous_drops_target (st : state) (test_df : DataFrame) :
  frame_of "test_df" st = Some test_df ->
  (forall c, In c dropped_columns -> In c (columns test_df)) ->
  exists futr,
    fst (cell_future_exogenous st) = Ok tt
    /\ frame_of "futr_exog_df" (snd (cell_future_exogenous st)) = Some futr
    /\ frame_of "test_df" (snd (cell_future_exogenous st)) = Some test_df
    /\ columns futr
       = filter (fun c => negb (mem c dropped_columns)) (columns test_df)
    /\ index futr = index test_df
    /\ map (key join_key) (values futr) = map (key join_key) (values test_df)
    /\ (forall i r, nth_error (values test_df) i = Some r ->
          exists r', nth_error (values futr) i = Some r'
                     /\ forall c, get c r'
                                  = if mem c dropped_columns then NaN
                                    else get c r).
Proof.
  intros Ht Hc.
  pose proof (drop_columns_returns dropped_columns test_df Hc) as Hd.
  unfold cell_future_exogenous, bind.
  rewrite (obj_frame_of _ _ _ Ht). unfold lift.
  change (("TimeGPT" :: statistical_models)
          ++ ["y"; "TimeGPT-lo-80"; "TimeGPT-hi-80"; "sell_price"])
    with dropped_columns.
  rewrite Hd.
  eexists. split; [reflexivity|]. split; [apply frame_of_let|].
  split; [apply frame_of_let_other; [discriminate | exact Ht]|].
  split; [reflexivity|]. split; [|split].
  - unfold index. simpl. now rewrite map_map.
  - unfold values. simpl. rewrite !map_map. apply map_ext. intros lr.
    unfold key. apply map_ext_in. intros c Hin. simpl.
    rewrite get_filter_row.
    destruct Hin as [<-|[<-|[]]]; reflexivity.
  - intros i r Hi. unfold values in Hi. rewrite nth_error_map in Hi.
    destruct (nth_error (records test_df) i) as [lr|] eqn:Elr;
      [|discriminate].
    injection Hi as <-. eexists. split.
    + unfold values. simpl. rewrite map_map.
      apply (map_nth_error _ _ _ Elr).
    + intros c. apply get_filter_row.
Qed.

Lemma merged_demo_columns (c : string) :
  In c dropped_columns -> In c (columns merged_demo).
Proof.
  unfold dropped_columns, statistical_models. simpl. tauto.
Qed.

Lemma future_exogenous_drops_target_witness :
  exists futr,
    fst (cell_future_exogenous merged_state) = Ok tt
    /\ frame_of "futr_exog_df" (snd (cell_future_exogenous merged_state))
       = Some futr
    /\ frame_of "test_df" (snd (cell_future_exogenous merged_state))
       = Some merged_demo
    /\ columns futr
       = filter (fun c => negb (mem c dropped_columns)) (columns merged_demo)
    /\ index futr = index merged_demo
    /\ map (key join_key) (values futr)
       = map (key join_key) (values merged_demo)
    /\ (forall i r, nth_error (values merged_demo) i = Some r ->
          exists r', nth_error (values futr) i = Some r'
                     /\ forall c, get c r'
                                  = if mem c dropped_columns then NaN
                                    else get c r).
Proof.
  apply (future_exogenous_drops_target merged_state merged_demo).
  - reflexivity.
  - exact merged_demo_columns.
Defined.

(** X8.  The cell of the future exogenous features needs every column it
    drops: when the holdout table lacks one of them (the panel has no
    [sell_price], or a cell that joins predictions was not run), the cell
    raises the [KeyError] of a missing column and binds nothing. *)
Theorem future_exogenous_needs_columns (st : state) (test_df : DataFrame)
  (c : string) :
  frame_of "test_df" st = Some test_df ->
  In c dropped_columns ->
  ~ In c (columns test_df) ->
  exists c',
    cell_future_exogenous st = (Raise (KeyError c'), st)
    /\ In c' dropped_columns
    /\ ~ In c' (columns test_df).
Proof.
  intros Ht Hin Hno.
  destruct (require_columns_missing dropped_columns test_df c Hin Hno)
    as [c' [E H']].
  exists c'. split; [|exact H'].
  unfold cell_future_exogenous, bind.
  rewrite (obj_frame_of _ _ _ Ht). unfold lift, drop_columns.
  change (("TimeGPT" :: statistical_models)
          ++ ["y"; "TimeGPT-lo-80"; "TimeGPT-hi-80"; "sell_price"])
    with dropped_columns.
  now rewrite E.
Qed.

Lemma future_exogenous_needs_columns_witness :
  exists c',
    cell_future_exogenous (mkState [holdout_demo] [("test_df", 0)])
    = (Raise (KeyError c'), mkState [holdout_demo] [("test_df", 0)])
    /\ In c' dropped_columns
    /\ ~ In c' (columns holdout_demo).
Proof.
  apply (future_exogenous_needs_columns
           (mkState [holdout_demo] [("test_df", 0)]) holdout_demo
           "sell_price").
  - reflexivity.
  - unfold dropped_columns, statistical_models. simpl. tauto.
  - simpl. intuition discriminate.
Defined.

Lemma map_combine_fst {A B C : Type} (g : A -> C) (l : list A) (l' : list B) :
  length l' = length l -> map (fun p => g (fst p)) (combine l l') = map g l.
Proof.
  revert l'. induction l as [|a l IH]; intros [|b l'] E; simpl in *;
    try discriminate; [reflexivity|].
  f_equal. apply IH. lia.
Qed.

Lemma assign_values_returns (c : string) (vs : list cell) (df : DataFrame) :
  length vs = length (records df) ->
  assign_values c vs df
  = Ok (mkDF (if mem c (columns df) then columns df else columns df ++ [c])
             (map (fun p => (fst (fst p), set c (snd p) (snd (fst p))))
                  (combine (records df) vs))).
Proof.
  intros E. unfold assign_values.
  destruct (records df) as [|lr rs].
  - destruct vs; [reflexivity | discriminate].
  - now rewrite E, Nat.eqb_refl.
Qed.

Lemma assign_values_raises (c : string) (vs : list cell) (df : DataFrame) :
  records df <> [] ->
  length vs <> length (records df) -> assign_values c vs df = Raise ValueError.
Proof.
  intros Hne N. unfold assign_values.
  destruct (records df) as [|lr rs] eqn:E; [congruence|].
  destruct (Nat.eqb_spec (length vs) (length (lr :: rs)));
    [contradiction | reflexivity].
Qed.

Lemma assign_values_empty (c : string) (vs : list cell) (df : DataFrame) :
  records df = [] ->
  assign_values c vs df
  = Ok (mkDF (if mem c (columns df) then columns df else columns df ++ [c])
             (range_index (map (fun v => [(c, v)]) vs))).
Proof. intros E. unfold assign_values. now rewrite E. Qed.

(** ** The forecast with exogenous features, attached *)

Lemma mutate_returns (x : string) (f : DataFrame -> result DataFrame)
  (st : state) (d d' : DataFrame) :
  frame_of x st = Some d -> f d = Ok d' ->
  fst (mutate x f st) = Ok tt /\ frame_of x (snd (mutate x f st)) = Some d'.
Proof.
  unfold frame_of, mutate. intros Hx Hf.
  destruct (lookup x (env st)) as [l|] eqn:El; [|discriminate].
  rewrite Hx, Hf. simpl. rewrite El. split; [reflexivity|].
  now apply (nth_error_update_same _ _ d).
Qed.

Lemma mutate_raises (x : string) (f : DataFrame -> result DataFrame)
  (st : state) (d : DataFrame) (e : exn) :
  frame_of x st = Some d -> f d = Raise e -> mutate x f st = (Raise e, st).
Proof.
  unfold frame_of, mutate. intros Hx Hf.
  destruct (lookup x (env st)) as [l|]; [|discriminate].
  now rewrite Hx, Hf.
Qed.

Lemma nth_error_combine {A B : Type} (l : list A) (l' : list B) (i : nat)
  (p : A * B) :
  nth_error (combine l l') i = Some p ->
  nth_error l i = Some (fst p) /\ nth_error l' i = Some (snd p).
Proof.
  revert l' i. induction l as [|a l IH]; intros [|b l'] [|i] Hp;
    simpl in *; try discriminate.
  - injection Hp as <-. now split.
  - now apply IH.
Qed.

Lemma key_set_other (c : string) (v : cell) (r : row) :
  ~ In c join_key -> key join_key (set c v r) = key join_key r.
Proof.
  intros N. unfold key. apply map_ext_in. intros k Hk.
  apply get_set_other. intros ->. contradiction.
Qed.

Lemma values_assigned (cs : list string) (c : string) (vs : list cell)
  (rs : list (nat * row)) :
  values (mkDF cs (map (fun p => (fst (fst p), set c (snd p) (snd (fst p))))
                       (combine rs vs)))
  = map (fun p => set c (snd p) (snd (fst p))) (combine rs vs).
Proof. unfold values. simpl. now rewrite map_map. Qed.

Lemma attach_runs (st : state) (test_df fcst_df : DataFrame) :
  frame_of "test_df" st = Some test_df ->
  frame_of "fcst_df" st = Some fcst_df ->
  In "TimeGPT_ex" (columns fcst_df) ->
  cell_attach_exogenous st
  = mutate "test_df"
           (assign_values "TimeGPT_ex" (map (get "TimeGPT_ex") (values fcst_df)))
           st.
Proof.
  intros Ht Hf Hc. unfold cell_attach_exogenous, bind.
  rewrite (obj_frame_of _ _ _ Hf). unfold lift, column_values.
  now rewrite require_columns_ok by (intros c [<-|[]]; exact Hc).
Qed.

(** X10.  The cell that attaches the forecast with exogenous features is
    right when the forecast is in the order of the holdout: if the records
    of [fcst_df] carry, position by position, the keys (series_id,
    timestamp) of the records of [test_df], the cell raises nothing, and
    every record of the new [test_df] has the key it had and holds in
    [TimeGPT_ex] the forecast made for that key. *)
Theorem aligned_forecast_attached_to_its_key (st : state)
  (test_df fcst_df : DataFrame) :
  frame_of "test_df" st = Some test_df ->
  frame_of "fcst_df" st = Some fcst_df ->
  In "TimeGPT_ex" (columns fcst_df) ->
  map (key join_key) (values fcst_df) = map (key join_key) (values test_df) ->
  exists test_df',
    fst (cell_attach_exogenous st) = Ok tt
    /\ frame_of "test_df" (snd (cell_attach_exogenous st)) = Some test_df'
    /\ index test_df' = index test_df
    /\ map (key join_key) (values test_df')
       = map (key join_key) (values test_df)
    /\ (forall i r, nth_error (values test_df') i = Some r ->
          exists f, nth_error (values fcst_df) i = Some f
                    /\ key join_key r = key join_key f
                    /\ get "TimeGPT_ex" r = get "TimeGPT_ex" f).
Proof.
  intros Ht Hf Hc Hkeys.
  assert (Hlen : length (map (get "TimeGPT_ex") (values fcst_df))
                 = length (records test_df)).
  { rewrite length_map. rewrite <- (length_map (key join_key)), Hkeys.
    unfold values. now rewrite !length_map. }
  assert (Hlen' : length (records fcst_df) = length (records test_df))
    by (unfold values in Hlen; now rewrite !length_map in Hlen).
  rewrite (attach_runs st test_df fcst_df Ht Hf Hc).
  pose proof (assign_values_returns "TimeGPT_ex" _ test_df Hlen) as Ha.
  destruct (mutate_returns "test_df" _ st test_df _ Ht Ha) as [Hok Hnew].
  eexists. split; [exact Hok|]. split; [exact Hnew|].
  assert (Hk : ~ In "TimeGPT_ex" join_key)
    by (intros [E|[E|[]]]; discriminate).
  split; [|split].
  - unfold index. simpl. rewrite map_map. simpl.
    now apply (map_combine_fst fst).
  - rewrite values_assigned, map_map.
    rewrite (map_ext _ (fun p => key join_key (snd (fst p))))
      by (intros p; now apply key_set_other).
    unfold values at 2. rewrite map_map.
    now apply (map_combine_fst (fun lr => key join_key (snd lr))).
  - intros i r Hi. rewrite values_assigned, nth_error_map in Hi.
    destruct (nth_error (combine (records test_df)
                                 (map (get "TimeGPT_ex") (values fcst_df))) i)
      as [p|] eqn:Ep; [|discriminate].
    simpl in Hi. injection Hi as <-.
    apply nth_error_combine in Ep. destruct Ep as [Hl Hv].
    rewrite nth_error_map in Hv.
    destruct (nth_error (values fcst_df) i) as [f|] eqn:Ef; [|discriminate].
    simpl in Hv. injection Hv as Hv.
    exists f. split; [reflexivity|]. split.
    + rewrite key_set_other by exact Hk.
      assert (E1 : nth_error (map (key join_key) (values fcst_df)) i
                   = Some (key join_key f))
        by (rewrite nth_error_map, Ef; reflexivity).
      assert (E2 : nth_error (map (key join_key) (values test_df)) i
                   = Some (key join_key (snd (fst p)))).
      { unfold values. rewrite map_map.
        apply (map_nth_error (fun x => key join_key (snd x)) _ _ Hl). }
      rewrite Hkeys in E1. congruence.
    + now rewrite get_set_same.
Qed.

Lemma aligned_forecast_attached_to_its_key_witness :
  exists test_df',
    fst (cell_attach_exogenous aligned_state) = Ok tt
    /\ frame_of "test_df" (snd (cell_attach_exogenous aligned_state))
       = Some test_df'
    /\ index test_df' = index holdout_demo
    /\ map (key join_key) (values test_df')
       = map (key join_key) (values holdout_demo)
    /\ (forall i r, nth_error (values test_df') i = Some r ->
          exists f, nth_error (values aligned_forecast) i = Some f
                    /\ key join_key r = key join_key f
                    /\ get "TimeGPT_ex" r = get "TimeGPT_ex" f).
Proof.
  apply (aligned_forecast_attached_to_its_key aligned_state holdout_demo
           aligned_forecast).
  - reflexivity.
  - reflexivity.
  - simpl. tauto.
  - reflexivity.
Defined.

(** X11.  The only check of the cell that attaches the forecast with
    exogenous features is on the number of rows, and it is made on a holdout
    table that has rows: when [fcst_df] has not as many records as [test_df],
    the cell raises [ValueError] and leaves the state as it was.  A holdout
    table with no row raises nothing: it takes the rows of the forecast
    column. *)
Theorem attach_checks_row_count_only (st : state)
  (test_df fcst_df : DataFrame) :
  frame_of "test_df" st = Some test_df ->
  frame_of "fcst_df" st = Some fcst_df ->
  In "TimeGPT_ex" (columns fcst_df) ->
  length (records fcst_df) <> length (records test_df) ->
  (records test_df <> [] ->
   cell_attach_exogenous st = (Raise ValueError, st))
  /\ (records test_df = [] ->
      exists test_df',
        fst (cell_attach_exogenous st) = Ok tt
        /\ frame_of "test_df" (snd (cell_attach_exogenous st)) = Some test_df'
        /\ map (get "TimeGPT_ex") (values test_df')
           = map (get "TimeGPT_ex") (values fcst_df)).
Proof.
  intros Ht Hf Hc N. rewrite (attach_runs st test_df fcst_df Ht Hf Hc).
  split.
  - intros Hne. apply (mutate_raises _ _ _ test_df); [exact Ht|].
    apply assign_values_raises; [exact Hne|].
    unfold values. now rewrite !length_map.
  - intros He.
    pose proof (assign_values_empty "TimeGPT_ex"
                  (map (get "TimeGPT_ex") (values fcst_df)) test_df He) as Ha.
    destruct (mutate_returns "test_df" _ st test_df _ Ht Ha) as [Hok Hnew].
    eexists. split; [exact Hok|]. split; [exact Hnew|].
    rewrite values_reindexed, !map_map. apply map_ext. intros r.
    reflexivity.
Qed.

Lemma attach_checks_row_count_only_witness :
  (records holdout_demo <> [] ->
   cell_attach_exogenous short_forecast_state
   = (Raise ValueError, short_forecast_state))
  /\ (records holdout_demo = [] ->
      exists test_df',
        fst (cell_attach_exogenous short_forecast_state) = Ok tt
        /\ frame_of "test_df" (snd (cell_attach_exogenous short_forecast_state))
           = Some test_df'
        /\ map (get "TimeGPT_ex") (values test_df')
           = map (get "TimeGPT_ex") (values short_forecast)).
Proof.
  apply (attach_checks_row_count_only short_forecast_state holdout_demo
           short_forecast).
  - reflexivity.
  - reflexivity.
  - simpl. tauto.
  - simpl. lia.
Defined.

(** ** The split of the whole panel *)

Section Whole.

Variable by_ : string.
Variable n : nat.

Lemma tail_head_length (l : list (nat * row)) :
  length (tail_rows by_ n l) + length (head_rows by_ n l) = length l.
Proof.
  induction l as [|lr rest IH]; simpl; [reflexivity|].
  destruct (in_tail by_ n lr rest); simpl; lia.
Qed.

Lemma tail_or_head (l : list (nat * row)) (lr : nat * row) :
  In lr l -> In lr (tail_rows by_ n l) \/ In lr (head_rows by_ n l).
Proof.
  induction l as [|x rest IH]; simpl; [tauto|].
  intros [<-|Hin]; destruct (in_tail by_ n x rest); simpl; tauto.
Qed.

Lemma missing_key_in_head (l : list (nat * row)) (lr : nat * row) :
  In lr l -> get by_ (snd lr) = NaN -> In lr (head_rows by_ n l).
Proof.
  induction l as [|x rest IH]; simpl; [tauto|].
  intros [<-|Hin] Hk.
  - unfold in_tail. rewrite Hk. simpl. now left.
  - destruct (in_tail by_ n x rest); simpl; auto.
Qed.

End Whole.

(** X12.  The split of the whole panel: on a panel (unique index labels, an
    identifier column) the holdout and the input have the columns of the
    panel and, together, each of its records once; the holdout keeps the
    records with their index labels, the input is relabelled 0, 1, 2, ...,
    and a record whose identifier is missing is never held out: it goes to
    the input. *)
Theorem split_covers_the_panel (df : DataFrame) :
  unique_index df ->
  In "unique_id" (columns df) ->
  exists test_df input_df,
    split H df = Ok (test_df, input_df)
    /\ columns test_df = columns df
    /\ columns input_df = columns df
    /\ length (records test_df) + length (records input_df)
       = length (records df)
    /\ incl (records test_df) (records df)
    /\ index input_df = seq 0 (length (records input_df))
    /\ (forall r, In r (values df) ->
          In r (values test_df) \/ In r (values input_df))
    /\ (forall r, In r (values df) -> get "unique_id" r = NaN ->
          In r (values input_df)).
Proof.
  intros Hu Hc.
  eexists. eexists. split; [now apply split_returns|].
  split; [reflexivity|]. split; [reflexivity|].
  rewrite values_reindexed. cbn [records].
  rewrite length_range_index, length_map.
  split; [apply tail_head_length|]. split; [apply tail_rows_incl|].
  split; [|split].
  - unfold index. cbn [records]. now rewrite index_range_index, length_map.
  - intros r Hr. unfold values in Hr. apply in_map_iff in Hr.
    destruct Hr as [lr [<- Hlr]].
    destruct (tail_or_head "unique_id" H _ _ Hlr) as [Ht|Hh].
    + left. unfold values. cbn [records]. now apply in_map.
    + right. now apply in_map.
  - intros r Hr Hk. unfold values in Hr. apply in_map_iff in Hr.
    destruct Hr as [lr [<- Hlr]]. apply in_map.
    now apply missing_key_in_head.
Qed.

Lemma split_covers_the_panel_witness :
  exists test_df input_df,
    split H long_panel = Ok (test_df, input_df)
    /\ columns test_df = columns long_panel
    /\ columns input_df = columns long_panel
    /\ length (records test_df) + length (records input_df)
       = length (records long_panel)
    /\ incl (records test_df) (records long_panel)
    /\ index input_df = seq 0 (length (records input_df))
    /\ (forall r, In r (values long_panel) ->
          In r (values test_df) \/ In r (values input_df))
    /\ (forall r, In r (values long_panel) -> get "unique_id" r = NaN ->
          In r (values input_df)).
Proof.
  apply (split_covers_the_panel long_panel).
  - apply panel_unique_index.
  - apply panel_has_id.
Defined.

(** ** The transform cell *)

Lemma mapM_raises {A B : Type} (f : A -> result B) (l : list A) (e : exn) (a : A) :
  In a l -> f a = Raise e -> (forall x e', f x = Raise e' -> e' = e) ->
  mapM f l = Raise e.
Proof.
  intros Hin Ha Honly. induction l as [|x xs IH]; [destruct Hin|].
  simpl. destruct (f x) as [b|e'] eqn:Ex; simpl.
  - destruct Hin as [-> | Hin]; [congruence|].
    now rewrite (IH Hin).
  - now rewrite (Honly x e' Ex).
Qed.

Lemma forward_cell_raises (c : cell) (e : exn) :
  forward_cell c = Raise e -> e = TypeError.
Proof.
  destruct c as [s|t|v|]; simpl; try congruence.
  destruct (Rlt_dec 0 (v + 1)); congruence.
Qed.

Lemma forward_cell_not_float (c : cell) :
  is_float c = false -> forward_cell c = Raise TypeError.
Proof. destruct c; simpl; intros E; try reflexivity; discriminate. Qed.

(** X15.  The transform cell changes the demand and nothing else: on a panel
    with a column [y] of floats above -1 it binds [df_transformed] to a new
    frame and leaves [df] as it was; the new frame has the columns and the
    index of [df], every other column holds what it held, and the demand [v]
    of each record has become [log(v + 1)]. *)
Theorem transform_changes_only_demand (df : DataFrame) :
  In "y" (columns df) ->
  (forall r, In r (values df) -> exists v, get "y" r = Num v /\ (-1 < v)%R) ->
  exists st d,
    cell_transform (loaded df) = (Ok tt, st)
    /\ frame_of "df" st = Some df
    /\ frame_of "df_transformed" st = Some d
    /\ columns d = columns df
    /\ index d = index df
    /\ (forall c, c <> "y" ->
          map (get c) (values d) = map (get c) (values df))
    /\ (forall i r, nth_error (values df) i = Some r ->
          exists v r', get "y" r = Num v
                       /\ nth_error (values d) i = Some r'
                       /\ get "y" r' = Num (forward v)).
Proof.
  intros Hy Hv.
  exists (mkState [df; transformed df] [("df_transformed", 1); ("df", 0)]).
  exists (transformed df).
  split; [now apply run_cell_transform|].
  split; [reflexivity|]. split; [reflexivity|]. split; [reflexivity|].
  assert (Evals : values (transformed df) = map log_row (values df)).
  { unfold values, transformed. cbn [records]. now rewrite !map_map. }
  split; [|split].
  - unfold index, transformed. cbn [records]. now rewrite map_map.
  - intros c Hc. rewrite Evals, map_map. apply map_ext.
    intros r. unfold log_row. apply get_set_other. congruence.
  - intros i r Hi.
    destruct (Hv r) as [v [Ev _]]; [eapply nth_error_In; exact Hi|].
    exists v, (log_row r). split; [exact Ev|]. split.
    + rewrite Evals. now apply map_nth_error.
    + unfold log_row. rewrite Ev. apply get_set_same.
Qed.

Lemma transform_changes_only_demand_witness :
  exists st d,
    cell_transform (loaded two_series_panel) = (Ok tt, st)
    /\ frame_of "df" st = Some two_series_panel
    /\ frame_of "df_transformed" st = Some d
    /\ columns d = columns two_series_panel
    /\ index d = index two_series_panel
    /\ (forall c, c <> "y" ->
          map (get c) (values d) = map (get c) (values two_series_panel))
    /\ (forall i r, nth_error (values two_series_panel) i = Some r ->
          exists v r', get "y" r = Num v
                       /\ nth_error (values d) i = Some r'
                       /\ get "y" r' = Num (forward v)).
Proof.
  apply (transform_changes_only_demand two_series_panel).
  - simpl. tauto.
  - apply two_series_demand.
Defined.

(** X16.  The exceptions of the transform cell: without a column [y] it
    raises [KeyError("y")], and with a demand that is a string or a
    timestamp it raises [TypeError]; in both cases [df_transformed] has
    already been bound, to a copy of [df] that was not transformed. *)
Theorem transform_raises_and_leaves_a_copy (df : DataFrame) :
  (~ In "y" (columns df) ->
   cell_transform (loaded df)
   = (Raise (KeyError "y"),
      mkState [df; df] [("df_transformed", 1); ("df", 0)]))
  /\ (In "y" (columns df) ->
      (exists r, In r (values df) /\ is_float (get "y" r) = false) ->
      cell_transform (loaded df)
      = (Raise TypeError,
         mkState [df; df] [("df_transformed", 1); ("df", 0)])).
Proof.
  split.
  - intros Hno. unfold cell_transform, bind, obj, let_, mutate, loaded. simpl.
    unfold map_column.
    destruct (require_columns_missing ["y"] df "y") as [c [E [Hin _]]];
      [now left | exact Hno |].
    destruct Hin as [<-|[]]. now rewrite E.
  - intros Hy [r [Hr Hf]].
    unfold cell_transform, bind, obj, let_, mutate, loaded. simpl.
    unfold map_column.
    rewrite require_columns_ok by (intros c [<-|[]]; exact Hy).
    simpl. unfold values in Hr. apply in_map_iff in Hr.
    destruct Hr as [lr [<- Hlr]].
    rewrite (mapM_raises _ (records df) TypeError lr Hlr); [reflexivity | |].
    + now rewrite forward_cell_not_float.
    + intros x e' Ex. destruct (forward_cell (get "y" (snd x))) eqn:Ef;
        simpl in Ex; [discriminate|].
      injection Ex as <-. now apply (forward_cell_raises _ _ Ef).
Qed.

(** ** A failure of the remote model *)

(** X17.  A failure of the remote model stops the run: on a panel with
    float demands above -1, the transform and the split succeed, and when
    the call [nixtla_client.forecast] on the input raises, the whole
    pipeline raises that exception, with the holdout and the input bound
    and no forecast, evaluation or average bound. *)
Theorem remote_failure_stops_the_run
  (forecast : DataFrame -> option DataFrame -> result DataFrame)
  (sf_predict : DataFrame -> result DataFrame)
  (to_datetime : cell -> result cell) (df : DataFrame) :
  In "y" (columns df) ->
  In "unique_id" (columns df) ->
  unique_index df ->
  (forall r, In r (values df) -> exists v, get "y" r = Num v /\ (-1 < v)%R) ->
  exists test_df input_df,
    split H (transformed df) = Ok (test_df, input_df)
    /\ forall e, forecast input_df None = Raise e ->
         pipeline forecast sf_predict to_datetime (loaded df)
         = (Raise e,
            mkState [df; transformed df; test_df; input_df]
                    [("input_df", 3); ("test_df", 2);
                     ("df_transformed", 1); ("df", 0)]).
Proof.
  intros Hy Hid Hu Hv.
  eexists. eexists. split.
  - apply split_returns; [now apply transformed_unique_index | exact Hid].
  - intros e He. unfold pipeline, bind at 1.
    rewrite run_cell_transform by assumption.
    unfold analysis, bind at 1.
    erewrite run_cell_split;
      [| reflexivity
       | apply split_returns; [now apply transformed_unique_index | exact Hid]].
    unfold cell_forecast, bind at 1. unfold bind at 1.
    unfold obj, lift. simpl. simpl in He. now rewrite He.
Qed.

Lemma remote_failure_stops_the_run_witness :
  exists test_df input_df,
    split H (transformed two_series_panel) = Ok (test_df, input_df)
    /\ forall e, failing_forecast input_df None = Raise e ->
         pipeline failing_forecast zero_baselines keep_dates
                  (loaded two_series_panel)
         = (Raise e,
            mkState [two_series_panel; transformed two_series_panel;
                     test_df; input_df]
                    [("input_df", 3); ("test_df", 2);
                     ("df_transformed", 1); ("df", 0)]).
Proof.
  apply (remote_failure_stops_the_run
           failing_forecast zero_baselines keep_dates two_series_panel).
  - simpl. tauto.
  - apply panel_has_id.
  - apply panel_unique_index.
  - apply two_series_demand.
Defined.

(** ** The renamed point forecast *)

Section Rename.

Variables old new : string.

Lemma get_renamed_new (r : row) :
  ~ In new (map fst r) ->
  get new (map (fun kv => (if String.eqb (fst kv) old then new else fst kv, snd kv)) r) = get old r.
Proof.
  induction r as [|[k v] r IH]; simpl; [reflexivity|].
  intros Hno.
  destruct (String.eqb_spec k old) as [->|Nk].
  - now rewrite String.eqb_refl.
  - destruct (String.eqb_spec k new) as [->|Nn]; [tauto|].
    apply IH. tauto.
Qed.

Lemma get_renamed_other (c : string) (r : row) :
  c <> old -> c <> new ->
  get c (map (fun kv => (if String.eqb (fst kv) old then new else fst kv, snd kv)) r) = get c r.
Proof.
  intros No Nn. induction r as [|[k v] r IH]; simpl; [reflexivity|].
  destruct (String.eqb_spec k old) as [->|Nk].
  - destruct (String.eqb_spec new c); [congruence|].
    destruct (String.eqb_spec old c); [congruence|]. exact IH.
  - destruct (String.eqb k c); [reflexivity | exact IH].
Qed.

Lemma get_renamed_old (r : row) :
  old <> new ->
  get old (map (fun kv => (if String.eqb (fst kv) old then new else fst kv,
                           snd kv)) r) = NaN.
Proof.
  intros N. induction r as [|[k v] r IH]; simpl; [reflexivity|].
  destruct (String.eqb_spec k old) as [->|Nk].
  - destruct (String.eqb_spec new old); [congruence | exact IH].
  - destruct (String.eqb_spec k old); [congruence | exact IH].
Qed.

End Rename.

(** X18.  The renamed column holds the point forecast: after
    [rename(columns={old: new}, inplace=True)] on a table that has the column
    [old] and no column [new], the column [new] holds, row by row, what
    [old] held and [old] is gone; the index and every other column, with
    its name, are as before (the interval columns [TimeGPT-lo-80] and
    [TimeGPT-hi-80] are not renamed with [TimeGPT]). *)
Theorem rename_moves_the_column (old new : string) (df : DataFrame) :
  old <> new ->
  In old (columns df) ->
  ~ In new (columns df) ->
  (forall r, In r (values df) -> ~ In new (map fst r)) ->
  column_values new (rename_column old new df)
  = Ok (map (get old) (values df))
  /\ column_values old df = Ok (map (get old) (values df))
  /\ (exists c, column_values old (rename_column old new df)
                = Raise (KeyError c))
  /\ index (rename_column old new df) = index df
  /\ length (columns (rename_column old new df)) = length (columns df)
  /\ (forall c, c <> old -> c <> new ->
        (In c (columns (rename_column old new df)) <-> In c (columns df))
        /\ map (get c) (values (rename_column old new df))
           = map (get c) (values df)).
Proof.
  intros N Hold Hnew Hrows.
  assert (Ev : values (rename_column old new df)
               = map (fun r => map (fun kv => ((if String.eqb (fst kv) old
                                                then new else fst kv), snd kv)) r)
                     (values df)).
  { unfold values, rename_column. cbn [records]. now rewrite !map_map. }
  assert (Ecols : forall c, In c (columns (rename_column old new df))
                            <-> (c = new \/ (c <> old /\ In c (columns df)))).
  { intros c. unfold rename_column. cbn [columns]. rewrite in_map_iff. split.
    - intros [k [E Hk]]. revert E.
      destruct (String.eqb_spec k old) as [Ek|Nk]; intros E.
      + left. now symmetry.
      + right. subst c. tauto.
    - intros [-> | [Nc Hc]].
      + exists old. now rewrite String.eqb_refl.
      + exists c. destruct (String.eqb_spec c old); [contradiction|]. tauto. }
  split; [|split; [|split; [|split; [|split]]]].
  - unfold column_values.
    rewrite require_columns_ok
      by (intros c [<-|[]]; apply Ecols; now left).
    simpl. rewrite Ev, map_map. f_equal. apply map_ext_in.
    intros r Hr. apply get_renamed_new. now apply Hrows.
  - unfold column_values.
    now rewrite require_columns_ok by (intros c [<-|[]]; exact Hold).
  - destruct (require_columns_missing [old] (rename_column old new df) old)
      as [c [E _]]; [now left | |].
    + intros Hin. apply Ecols in Hin. destruct Hin as [E | [E _]]; congruence.
    + exists c. unfold column_values. now rewrite E.
  - unfold index, rename_column. cbn [records]. now rewrite map_map.
  - unfold rename_column. cbn [columns]. apply length_map.
  - intros c No Nn. split.
    + rewrite Ecols. split; [intros [E|[_ Hc]]; [congruence | exact Hc] | tauto].
    + rewrite Ev, map_map. apply map_ext. intros r.
      now apply get_renamed_other.
Qed.

Lemma rename_moves_the_column_witness :
  column_values "TimeGPT_ex" (rename_column "TimeGPT" "TimeGPT_ex" forecast_demo)
  = Ok (map (get "TimeGPT") (values forecast_demo))
  /\ column_values "TimeGPT" forecast_demo
     = Ok (map (get "TimeGPT") (values forecast_demo))
  /\ (exists c, column_values "TimeGPT"
                  (rename_column "TimeGPT" "TimeGPT_ex" forecast_demo)
                = Raise (KeyError c))
  /\ index (rename_column "TimeGPT" "TimeGPT_ex" forecast_demo)
     = index forecast_demo
  /\ length (columns (rename_column "TimeGPT" "TimeGPT_ex" forecast_demo))
     = length (columns forecast_demo)
  /\ (forall c, c <> "TimeGPT" -> c <> "TimeGPT_ex" ->
        (In c (columns (rename_column "TimeGPT" "TimeGPT_ex" forecast_demo))
         <-> In c (columns forecast_demo))
        /\ map (get c) (values (rename_column "TimeGPT" "TimeGPT_ex" forecast_demo))
           = map (get c) (values forecast_demo)).
Proof.
  apply (rename_moves_the_column "TimeGPT" "TimeGPT_ex" forecast_demo).
  - discriminate.
  - simpl. tauto.
  - simpl. intuition discriminate.
  - unfold forecast_demo. rewrite values_reindexed.
    intros r [<-|[]]. simpl. intuition discriminate.
Defined.

(** ** The evaluation cell *)

(** X19.  The evaluation cell needs the model columns: when the holdout
    table lacks the identifier, the target or one of the models (the cell
    that joins or attaches the predictions of a model was not run), the cell
    raises the [KeyError] of a missing column and binds neither
    [evaluation] nor [average_metrics]. *)
Theorem evaluation_needs_model_columns (st : state) (test_df : DataFrame)
  (models : list string) (c : string) :
  frame_of "test_df" st = Some test_df ->
  In c ("unique_id" :: "y" :: models) ->
  ~ In c (columns test_df) ->
  exists c',
    cell_evaluate models st = (Raise (KeyError c'), st)
    /\ In c' ("unique_id" :: "y" :: models)
    /\ ~ In c' (columns test_df).
Proof.
  intros Ht Hin Hno.
  destruct (require_columns_missing ("unique_id" :: "y" :: models) test_df c
              Hin Hno) as [c' [E H']].
  exists c'. split; [|exact H'].
  unfold cell_evaluate, bind.
  rewrite (obj_frame_of _ _ _ Ht). unfold lift, evaluate. simpl.
  unfold mae at 1. now rewrite E.
Qed.

Lemma evaluation_needs_model_columns_witness :
  exists c',
    cell_evaluate (("TimeGPT" :: statistical_models) ++ ["TimeGPT_ex"])
                  merged_state
    = (Raise (KeyError c'), merged_state)
    /\ In c' ("unique_id" :: "y"
              :: ("TimeGPT" :: statistical_models) ++ ["TimeGPT_ex"])
    /\ ~ In c' (columns merged_demo).
Proof.
  apply (evaluation_needs_model_columns
           merged_state merged_demo
           (("TimeGPT" :: statistical_models) ++ ["TimeGPT_ex"]) "TimeGPT_ex").
  - reflexivity.
  - unfold statistical_models. simpl. tauto.
  - simpl. intuition discriminate.
Defined.
